(** * Verification of the AnimeWatchOrder static site generator ([build.py])

    The generator reads one JSON document per series and renders bilingual
    HTML pages, two homepages and a sitemap by string templating.  This file
    embeds the program as Rocq functions and proves the properties stated in
    its specification.

    Modelling conventions.
    - Python [str] values are byte strings ([string]) holding UTF-8 text.
    - In the string literals of this file the backquote character stands for
      the double-quote character: the literal notation maps byte 0x60 to
      byte 0x22, so the templates read as in the source.
    - Values loaded from JSON are terms of [json]; a number is an integer or
      one of the three floats that are not finite, which [json.load] accepts
      and [json.dumps] writes as [Infinity], [-Infinity] and [NaN].  Finite
      floats with a fraction or an exponent are outside the embedding.
    - A Python expression that may raise is a [result]; evaluation order of
      the source is kept, so the first exception raised is the one returned.
    - [str()] of a list or of a dict (Python [repr]) is not modelled: such an
      interpolation yields [Raise Unsupported]. *)

From Stdlib Require Import ZArith Lia Bool List Strings.Ascii Strings.String Strings.Byte.
From Stdlib Require Import DecimalPos DecimalZ.
From stdpp Require Import base option list strings gmap.

(** The literal notation: byte 0x60 (backquote) is read as byte 0x22
    (double quote), in both scopes in which string literals are read. *)
Definition tpl_byte (b : byte) : byte := match b with x60 => x22 | _ => b end.
Definition tpl_unbyte (b : byte) : byte := match b with x22 => x60 | _ => b end.
Definition tpl_parse (bs : list byte) : string := string_of_list_byte (map tpl_byte bs).
Definition tpl_print (s : string) : list byte := map tpl_unbyte (list_byte_of_string s).
String Notation string tpl_parse tpl_print : string_scope.
String Notation string tpl_parse tpl_print : stdpp_scope.

(** ** Strings *)

(** [starts_with p s] is Python's [s.startswith(p)]. *)
Fixpoint starts_with (p s : string) : bool :=
  match p, s with
  | EmptyString, _ => true
  | String _ _, EmptyString => false
  | String a p', String b s' => Ascii.eqb a b && starts_with p' s'
  end.

(** Number of positions of [s] at which [p] occurs. *)
Fixpoint occ (p s : string) : nat :=
  (if starts_with p s then 1 else 0) +
  match s with
  | EmptyString => 0
  | String _ s' => occ p s'
  end.

(** [sep.join(l)]. *)
Fixpoint join (sep : string) (l : list string) : string :=
  match l with
  | [] => EmptyString
  | [x] => x
  | x :: l' => x +:+ sep +:+ join sep l'
  end.

Fixpoint concat_str (l : list string) : string :=
  match l with
  | [] => EmptyString
  | x :: l' => x +:+ concat_str l'
  end.

Fixpoint repeat_str (s : string) (n : nat) : string :=
  match n with
  | O => EmptyString
  | S n' => s +:+ repeat_str s n'
  end.

Fixpoint string_drop (n : nat) (s : string) : string :=
  match n, s with
  | S n', String _ s' => string_drop n' s'
  | _, _ => s
  end.

Fixpoint has_char (c : ascii) (s : string) : bool :=
  match s with
  | EmptyString => false
  | String a s' => Ascii.eqb a c || has_char c s'
  end.

(** Decimal text of an integer, as [str(n)] and [json.dumps(n)] print it. *)
Definition digit_char (d : nat) : ascii := ascii_of_nat (48 + d).

Fixpoint uint_str (d : Decimal.uint) : string :=
  match d with
  | Decimal.Nil => EmptyString
  | Decimal.D0 d' => String (digit_char 0) (uint_str d')
  | Decimal.D1 d' => String (digit_char 1) (uint_str d')
  | Decimal.D2 d' => String (digit_char 2) (uint_str d')
  | Decimal.D3 d' => String (digit_char 3) (uint_str d')
  | Decimal.D4 d' => String (digit_char 4) (uint_str d')
  | Decimal.D5 d' => String (digit_char 5) (uint_str d')
  | Decimal.D6 d' => String (digit_char 6) (uint_str d')
  | Decimal.D7 d' => String (digit_char 7) (uint_str d')
  | Decimal.D8 d' => String (digit_char 8) (uint_str d')
  | Decimal.D9 d' => String (digit_char 9) (uint_str d')
  end.

Definition str_of_Z (n : Z) : string :=
  match Z.to_int n with
  | Decimal.Pos d => uint_str d
  | Decimal.Neg d => "-" +:+ uint_str d
  end.

(** The code points of a UTF-8 string, each as its own string: what
    iterating over a Python [str] yields.  A byte [10xxxxxx] continues the
    code point of the byte before it. *)
Definition is_continuation (a : ascii) : bool :=
  match a with
  | Ascii _ _ _ _ _ _ b6 b7 => b7 && negb b6
  end.

Fixpoint code_points (s : string) : list string :=
  match s with
  | EmptyString => []
  | String a s' =>
      let continued :=
        match s' with
        | String b _ => is_continuation b
        | EmptyString => false
        end in
      match code_points s' with
      | chunk :: rest =>
          if continued then String a chunk :: rest
          else String a EmptyString :: chunk :: rest
      | [] => [String a EmptyString]
      end
  end.

(** ** Exceptions and results *)

Inductive exn : Type :=
  | KeyError (key : string)
  | TypeError
  | AttributeError
  | JSONDecodeError
  | Unsupported.

Inductive result (A : Type) : Type :=
  | Ok (value : A)
  | Raise (e : exn).
Arguments Ok {A} value.
Arguments Raise {A} e.

Definition bind {A B : Type} (m : result A) (k : A -> result B) : result B :=
  match m with
  | Ok a => k a
  | Raise e => Raise e
  end.

Notation "'let!' x := m 'in' k" := (bind m (fun x => k))
  (at level 10, x name, m at level 100, k at level 200).

(** A [for] loop that builds one value per element, in order. *)
Fixpoint traverse {A B : Type} (f : A -> result B) (l : list A) : result (list B) :=
  match l with
  | [] => Ok []
  | x :: l' => let! y := f x in let! ys := traverse f l' in Ok (y :: ys)
  end.

(** The same over [enumerate(l)], counting from [i]. *)
Fixpoint traverse_from {A B : Type} (i : nat) (f : nat -> A -> result B) (l : list A)
  : result (list B) :=
  match l with
  | [] => Ok []
  | x :: l' => let! y := f i x in let! ys := traverse_from (S i) f l' in Ok (y :: ys)
  end.

(** ** JSON values as Python objects *)

(** The floats that are not finite.  [json.load] reads [Infinity],
    [-Infinity] and [NaN], and a number too large for a float such as
    [1e999], as one of them. *)
Inductive nonfinite : Type :=
  | PosInf
  | NegInf
  | NaN.

(** The values [json.load] gives.  A number is an integer ([JNum]) or a
    float that is not finite ([JFloat]).  A finite float is not modelled:
    the program formats and serialises it by [float.__repr__], whose text
    is a JSON number made of digits, a sign, a point and an exponent, and
    treats it in every other respect as it treats an integer. *)
Inductive json : Type :=
  | JNull
  | JBool (b : bool)
  | JNum (n : Z)
  | JStr (s : string)
  | JArr (items : list json)
  | JObj (fields : list (string * json))
  | JFloat (x : nonfinite).

(** A [dict] is kept as its items in insertion order; a key is looked up
    at its first entry. *)
Fixpoint dict_lookup {A : Type} (k : string) (fields : list (string * A)) : option A :=
  match fields with
  | [] => None
  | (k', v) :: rest => if String.eqb k' k then Some v else dict_lookup k rest
  end.

(** [obj[k]] for a string key [k]. *)
Definition py_getitem (obj : json) (k : string) : result json :=
  match obj with
  | JObj fields =>
      match dict_lookup k fields with
      | Some v => Ok v
      | None => Raise (KeyError k)
      end
  | _ => Raise TypeError
  end.

(** [obj.get(k, default)]. *)
Definition py_get (obj : json) (k : string) (default : json) : result json :=
  match obj with
  | JObj fields =>
      match dict_lookup k fields with
      | Some v => Ok v
      | None => Ok default
      end
  | _ => Raise AttributeError
  end.

(** Truth value of an object in an [if]. *)
Definition py_truthy (v : json) : bool :=
  match v with
  | JNull => false
  | JBool b => b
  | JNum n => negb (Z.eqb n 0)
  | JStr s => negb (String.eqb s EmptyString)
  | JArr items => match items with [] => false | _ => true end
  | JObj fields => match fields with [] => false | _ => true end
  | JFloat _ => true
  end.

(** [str(x)] for a float that is not finite. *)
Definition float_str (x : nonfinite) : string :=
  match x with
  | PosInf => "inf"
  | NegInf => "-inf"
  | NaN => "nan"
  end.

(** [str(v)], the text an f-string puts for [{v}]. *)
Definition py_str (v : json) : result string :=
  match v with
  | JNull => Ok "None"
  | JBool true => Ok "True"
  | JBool false => Ok "False"
  | JNum n => Ok (str_of_Z n)
  | JStr s => Ok s
  | JArr _ | JObj _ => Raise Unsupported
  | JFloat x => Ok (float_str x)
  end.

(** The elements a [for] loop over [v] visits: the items of a list, the
    keys of a dict, the code points of a string. *)
Definition py_iter (v : json) : result (list json) :=
  match v with
  | JArr items => Ok items
  | JObj fields => Ok (map (fun kv => JStr (fst kv)) fields)
  | JStr s => Ok (map JStr (code_points s))
  | _ => Raise TypeError
  end.

Notation "obj @ k" := (py_getitem obj k) (at level 25, left associativity).
Notation "r @@ k" := (bind r (fun obj => py_getitem obj k)) (at level 25, left associativity).

(** A replacement field [{e}]: evaluate [e], then format the value. *)
Definition fmt (r : result json) : result string := let! v := r in py_str v.

(** ** f-strings *)

(** The parts of an f-string: literal text, a field holding a [str]
    variable, a field holding an expression that is evaluated (and
    formatted) when the string is built. *)
Inductive part : Type :=
  | L (text : string)
  | V (value : string)
  | E (field : result string).

(** Fields are evaluated from left to right. *)
Fixpoint fstring (ps : list part) : result string :=
  match ps with
  | [] => Ok EmptyString
  | L s :: ps' => let! r := fstring ps' in Ok (s +:+ r)
  | V s :: ps' => let! r := fstring ps' in Ok (s +:+ r)
  | E f :: ps' => let! v := f in let! r := fstring ps' in Ok (v +:+ r)
  end.

(** ** Configuration *)

Definition SITE_URL : string := "https://animewatchorder.com".
Definition CURRENT_YEAR : string := "2026".

Definition GTM_HEAD : string := "<!-- Google Tag Manager -->
<script>(function(w,d,s,l,i){w[l]=w[l]||[];w[l].push({'gtm.start':
new Date().getTime(),event:'gtm.js'});var f=d.getElementsByTagName(s)[0],
j=d.createElement(s),dl=l!='dataLayer'?'&l='+l:'';j.async=true;j.src=
'https://www.googletagmanager.com/gtm.js?id='+i+dl;f.parentNode.insertBefore(j,f);
})(window,document,'script','dataLayer','GTM-TJ84SLJX');</script>
<!-- End Google Tag Manager -->".

Definition GOOGLE_SITE_VERIFICATION : string :=
  "<meta name=`google-site-verification` content=`NC4herujRe5TMX77VnhqjvWdJa6XAwBd5iAVIGxwXbk` />".

Definition SERIES : list string := ["dragon-ball"; "naruto"].

(** ** Field formatters *)

(** [mapping.get(key, default)] on a dict literal with string keys: a key
    that is not hashable raises, any other key that is no entry gives the
    default. *)
Definition mapping_get {A : Type} (mapping : list (string * A)) (key : json) (default : A)
  : result A :=
  match key with
  | JStr k =>
      match dict_lookup k mapping with
      | Some v => Ok v
      | None => Ok default
      end
  | JArr _ | JObj _ => Raise TypeError
  | _ => Ok default
  end.

Definition badge_class (type_key : json) : result string :=
  mapping_get
    [ ("canon", "badge--canon");
      ("mixed", "badge--mixed");
      ("film_canon", "badge--film-canon");
      ("non_canon", "badge--non-canon");
      ("filler", "badge--filler") ]
    type_key "badge--canon".

Definition verdict_class (verdict : json) : result string :=
  mapping_get
    [ ("must_watch", "verdict--must-watch");
      ("watchable", "verdict--watchable");
      ("skip", "verdict--skip") ]
    verdict "verdict--watchable".

Definition verdict_label (verdict ui : json) : result json :=
  let! must_watch := ui @ "must_watch" in
  let! watchable := ui @ "watchable" in
  let! skip := ui @ "skip" in
  mapping_get
    [ ("must_watch", must_watch);
      ("watchable", watchable);
      ("skip", skip) ]
    verdict verdict.

Definition type_label (type_key ui : json) : result json :=
  let! canon := ui @ "canon" in
  let! mixed := ui @ "mixed" in
  let! film_canon := ui @ "film_canon" in
  let! non_canon := ui @ "non_canon" in
  let! filler := py_get ui "filler" (JStr "Filler") in
  mapping_get
    [ ("canon", canon);
      ("mixed", mixed);
      ("film_canon", film_canon);
      ("non_canon", non_canon);
      ("filler", filler) ]
    type_key type_key.

(** ** Fragment renderers *)

(** The body of the loop of [build_timeline_rows]: the row of one entry. *)
Definition timeline_row (ui item : json) : result string :=
  let! recommended := py_get item "recommended" JNull in
  let! rec :=
    (if py_truthy recommended
     then
       let! rec_tag :=
         fstring [L " <span class=`tag-recommended`>";
                  E (fmt (ui @ "recommended_label"));
                  L "</span>"] in
       Ok (rec_tag, " class=`row--recommended`")
     else Ok (EmptyString, EmptyString)) in
  let rec_tag := fst rec in
  let rec_class := snd rec in
  let! watch_url := py_get item "watch_url" (JStr "#") in
  fstring
    [L "        <tr";
     V rec_class;
     L ">
          <td class=`col-num`>";
     E (fmt (item @ "num"));
     L "</td>
          <td class=`col-title`>";
     E (fmt (item @ "title"));
     V rec_tag;
     L "<small>";
     E (fmt (item @ "subtitle"));
     L "</small></td>
          <td><span class=`badge ";
     E (let! t := item @ "type" in badge_class t);
     L "`>";
     E (fmt (let! t := item @ "type" in type_label t ui));
     L "</span></td>
          <td>";
     E (fmt (item @ "episodes"));
     L "</td>
          <td>";
     E (fmt (item @ "when"));
     L "</td>
          <td>";
     E (fmt (item @ "path"));
     L "</td>
          <td><span class=`verdict ";
     E (let! v := item @ "verdict" in verdict_class v);
     L "`>";
     E (fmt (let! v := item @ "verdict" in verdict_label v ui));
     L "</span></td>
          <td><a href=`";
     E (py_str watch_url);
     L "` class=`stream-link` rel=`nofollow noopener` target=`_blank`>CR</a></td>
        </tr>"].

Definition timeline_rows_list (data ui : json) : result (list string) :=
  let! timeline := data @ "timeline" in
  let! items := py_iter timeline in
  traverse (timeline_row ui) items.

Definition build_timeline_rows (data ui : json) : result string :=
  let! rows := timeline_rows_list data ui in
  Ok (join "
" rows).

Definition path_card (ui path : json) : result string :=
  let! recommended := py_get path "recommended" JNull in
  let! rec :=
    (if py_truthy recommended
     then
       let! rec_badge :=
         fstring [L "<span class=`path-card__badge`>";
                  E (fmt (ui @ "recommended_label"));
                  L "</span>"] in
       Ok (rec_badge, " path-card--recommended")
     else Ok (EmptyString, EmptyString)) in
  let rec_badge := fst rec in
  let rec_class := snd rec in
  fstring
    [L "      <div class=`path-card";
     V rec_class;
     L "`>
        ";
     V rec_badge;
     L "
        <span class=`path-card__icon`>";
     E (fmt (path @ "icon"));
     L "</span>
        <div class=`path-card__name`>";
     E (fmt (path @ "name"));
     L "</div>
        <div class=`path-card__subtitle`>";
     E (fmt (path @ "subtitle"));
     L "</div>
        <p class=`path-card__desc`>";
     E (fmt (path @ "description"));
     L "</p>
        <div class=`path-card__meta`>
          <span class=`path-card__hours`>";
     E (fmt (path @ "hours"));
     L "</span>
          ";
     E (fmt (path @ "includes"));
     L "
        </div>
      </div>"].

Definition build_paths_html (data ui : json) : result string :=
  let! paths := data @ "paths" in
  let! items := py_iter paths in
  let! cards := traverse (path_card ui) items in
  Ok (join "
" cards).

Definition faq_item (faq : json) : result string :=
  fstring
    [L "      <div class=`faq-item`>
        <h3>";
     E (fmt (faq @ "question"));
     L "</h3>
        <p>";
     E (fmt (faq @ "answer"));
     L "</p>
      </div>"].

Definition build_faq_html (data : json) : result string :=
  let! faqs := data @ "faq" in
  let! entries := py_iter faqs in
  let! items := traverse faq_item entries in
  Ok (join "
" items).

Definition build_why_confusing_html (data ui : json) : result string :=
  let! wc := data @ "why_confusing" in
  fstring
    [L "      <div class=`info-box`>
        <div class=`info-box__label`>";
     E (fmt (ui @ "why_confusing_label"));
     L "</div>
        <div class=`info-box__text`>";
     E (fmt (wc @ "content"));
     L "</div>
      </div>"].

Definition compare_stat (stat : json) : result string :=
  fstring
    [L "          <div class=`compare-card__stat`>
            <span class=`compare-card__label`>";
     E (fmt (stat @ "label"));
     L "</span>
            <span class=`compare-card__value`>";
     E (fmt (stat @ "value"));
     L "</span>
          </div>
"].

Definition compare_card (ui card : json) : result string :=
  let! recommended := py_get card "recommended" JNull in
  let! rec_badge :=
    (if py_truthy recommended
     then fstring [L "<span class=`winner-tag`>";
                   E (fmt (ui @ "recommended_label"));
                   L "</span>"]
     else Ok EmptyString) in
  let! stats := card @ "stats" in
  let! stat_items := py_iter stats in
  let! stat_htmls := traverse compare_stat stat_items in
  let stats_html := concat_str stat_htmls in
  fstring
    [L "      <div class=`compare-card ";
     E (fmt (py_get card "color_class" (JStr EmptyString)));
     L "`>
        ";
     V rec_badge;
     L "
        <div class=`compare-card__title`>";
     E (fmt (card @ "title"));
     L "</div>
        <div class=`compare-card__subtitle`>";
     E (fmt (card @ "subtitle"));
     L "</div>
";
     V stats_html;
     L "      </div>"].

Definition build_compare_html (data ui : json) : result string :=
  let! compare := data @ "dbz_vs_kai" in
  let! card_list := compare @ "cards" in
  let! card_items := py_iter card_list in
  let! cards := traverse (compare_card ui) card_items in
  let! grid :=
    fstring
    [L "      <div class=`compare-grid`>
";
     V (join "
" cards);
     L "
      </div>"] in
  let! verdict :=
    fstring
    [L "      <div class=`verdict-box`>
        <div class=`verdict-box__label`>";
     E (fmt (py_get ui "compare_verdict_label" (JStr "Our Verdict")));
     L "</div>
        <p class=`verdict-box__text`>";
     E (fmt (compare @ "verdict"));
     L "</p>
      </div>"] in
  Ok (grid +:+ "
" +:+ verdict).

Definition streaming_card (i : nat) (s : json) : result string :=
  let! available := s @ "available" in
  let! avail_items := py_iter available in
  let! lis :=
    traverse (fun item => fstring [L "            <li>"; E (py_str item); L "</li>"])
             avail_items in
  let available_items := join "
" lis in
  let cta_class := if Nat.eqb i 0 then "streaming-card__cta--primary" else EmptyString in
  fstring
    [L "      <div class=`streaming-card`>
        <span class=`streaming-card__icon`>";
     E (fmt (s @ "icon"));
     L "</span>
        <div class=`streaming-card__name`>";
     E (fmt (s @ "platform"));
     L "</div>
        <ul class=`streaming-card__list`>
";
     V available_items;
     L "
        </ul>
        <a href=`";
     E (fmt (s @ "url"));
     L "` class=`streaming-card__cta ";
     V cta_class;
     L "` target=`_blank` rel=`noopener noreferrer nofollow`>";
     E (fmt (s @ "cta"));
     L "</a>
      </div>"].

Definition streaming_cards_list (data : json) : result (list string) :=
  let! streaming := data @ "streaming" in
  let! items := py_iter streaming in
  traverse_from 0 streaming_card items.

Definition build_streaming_html (data ui : json) : result string :=
  let! cards := streaming_cards_list data in
  Ok (join "
" cards).

(** ** JSON text *)

Definition dquote : ascii := "034"%char.
Definition backslash : ascii := "092"%char.
Definition newline : ascii := "010"%char.

Definition hex_digit (n : nat) : ascii :=
  if n <? 10 then ascii_of_nat (48 + n) else ascii_of_nat (87 + n).

(** The replacement [json.dumps] makes for one character of a string
    ([ensure_ascii=False]): the quote, the backslash and the control
    characters are escaped, every other byte is kept. *)
Definition escape_char (c : ascii) : string :=
  if Ascii.eqb c dquote then "\`"
  else if Ascii.eqb c backslash then "\\"
  else if Ascii.eqb c newline then "\n"
  else if Ascii.eqb c "013"%char then "\r"
  else if Ascii.eqb c "009"%char then "\t"
  else if Ascii.eqb c "008"%char then "\b"
  else if Ascii.eqb c "012"%char then "\f"
  else if nat_of_ascii c <? 32
       then "\u00" +:+ String (hex_digit (nat_of_ascii c / 16))
                          (String (hex_digit (nat_of_ascii c mod 16)) EmptyString)
       else String c EmptyString.

Fixpoint escape (s : string) : string :=
  match s with
  | EmptyString => EmptyString
  | String c s' => escape_char c +:+ escape s'
  end.

Definition encode_basestring (s : string) : string :=
  String dquote (escape s +:+ String dquote EmptyString).

Definition newline_indent (level : nat) : string :=
  String newline (repeat_str " " (2 * level)).

(** What [json.dumps] writes for a float that is not finite
    ([allow_nan] is left at its default): a name that is no JSON. *)
Definition float_json (x : nonfinite) : string :=
  match x with
  | PosInf => "Infinity"
  | NegInf => "-Infinity"
  | NaN => "NaN"
  end.

(** [json.dumps(v, indent=2, ensure_ascii=False)] at nesting [level]. *)
Fixpoint dumps (level : nat) (v : json) : string :=
  match v with
  | JNull => "null"
  | JBool true => "true"
  | JBool false => "false"
  | JNum n => str_of_Z n
  | JStr s => encode_basestring s
  | JArr [] => "[]"
  | JArr items =>
      "[" +:+ newline_indent (S level)
          +:+ join ("," +:+ newline_indent (S level)) (map (dumps (S level)) items)
          +:+ newline_indent level +:+ "]"
  | JObj [] => "{}"
  | JObj fields =>
      "{" +:+ newline_indent (S level)
          +:+ join ("," +:+ newline_indent (S level))
                (map (fun kv => encode_basestring (fst kv) +:+ ": " +:+ dumps (S level) (snd kv))
                     fields)
          +:+ newline_indent level +:+ "}"
  | JFloat x => float_json x
  end.

Definition json_dumps (v : json) : string := dumps 0 v.

(** *** Reading JSON text

    A recursive-descent reader for the JSON grammar with integer numbers,
    used to state that generated text parses as JSON.  It accepts no text
    that is not JSON: control characters inside strings, leading zeros and
    trailing text are refused. *)

Definition is_ws (c : ascii) : bool :=
  Ascii.eqb c " " || Ascii.eqb c newline || Ascii.eqb c "013"%char || Ascii.eqb c "009"%char.

Fixpoint skip_ws (s : string) : string :=
  match s with
  | String c s' => if is_ws c then skip_ws s' else s
  | EmptyString => s
  end.

Definition digit_val (c : ascii) : option nat :=
  let n := nat_of_ascii c in
  if (48 <=? n) && (n <=? 57) then Some (n - 48) else None.

Definition hex_val (c : ascii) : option N :=
  let n := N_of_ascii c in
  (if (48 <=? n) && (n <=? 57) then Some (n - 48)
   else if (97 <=? n) && (n <=? 102) then Some (n - 87)
   else if (65 <=? n) && (n <=? 70) then Some (n - 55)
   else None)%N.

Definition uint_cons (d : nat) (u : Decimal.uint) : Decimal.uint :=
  match d with
  | 0 => Decimal.D0 u
  | 1 => Decimal.D1 u
  | 2 => Decimal.D2 u
  | 3 => Decimal.D3 u
  | 4 => Decimal.D4 u
  | 5 => Decimal.D5 u
  | 6 => Decimal.D6 u
  | 7 => Decimal.D7 u
  | 8 => Decimal.D8 u
  | _ => Decimal.D9 u
  end.

(** The longest run of digits at the head of [s], and what follows it. *)
Fixpoint read_digits (s : string) : Decimal.uint * string :=
  match s with
  | String c s' =>
      match digit_val c with
      | Some d => let r := read_digits s' in (uint_cons d (fst r), snd r)
      | None => (Decimal.Nil, s)
      end
  | EmptyString => (Decimal.Nil, s)
  end.

(** Digits of a JSON number: at least one, and no zero in front of others. *)
Definition canonical_digits (u : Decimal.uint) : bool :=
  match u with
  | Decimal.Nil => false
  | Decimal.D0 Decimal.Nil => true
  | Decimal.D0 _ => false
  | _ => true
  end.

Definition read_number (s : string) : option (Z * string) :=
  let negative := starts_with "-" s in
  let r := read_digits (if negative then string_drop 1 s else s) in
  if canonical_digits (fst r)
  then Some (Z.of_int (if negative then Decimal.Neg (fst r) else Decimal.Pos (fst r)), snd r)
  else None.

(** UTF-8 bytes of a code point of the basic plane; surrogates are refused. *)
Definition utf8_encode (cp : N) : option string :=
  (if cp <? 128 then Some (String (ascii_of_N cp) EmptyString)
   else if cp <? 2048 then
     Some (String (ascii_of_N (192 + cp / 64))
          (String (ascii_of_N (128 + cp mod 64)) EmptyString))
   else if (55296 <=? cp) && (cp <? 57344) then None
   else
     Some (String (ascii_of_N (224 + cp / 4096))
          (String (ascii_of_N (128 + (cp / 64) mod 64))
          (String (ascii_of_N (128 + cp mod 64)) EmptyString))))%N.

Definition read_escape_u (a b c d : ascii) : option string :=
  match hex_val a, hex_val b, hex_val c, hex_val d with
  | Some x, Some y, Some z, Some w => utf8_encode (((x * 16 + y) * 16 + z) * 16 + w)%N
  | _, _, _, _ => None
  end.

(** The text of a string after its opening quote, up to the closing one. *)
Fixpoint read_string (s : string) : option (string * string) :=
  match s with
  | EmptyString => None
  | String c s' =>
      if Ascii.eqb c dquote then Some (EmptyString, s')
      else if Ascii.eqb c backslash then
        match s' with
        | String e s'' =>
            let simple (x : ascii) :=
              match read_string s'' with
              | Some (t, r) => Some (String x t, r)
              | None => None
              end in
            if Ascii.eqb e dquote then simple dquote
            else if Ascii.eqb e backslash then simple backslash
            else if Ascii.eqb e "/" then simple "/"%char
            else if Ascii.eqb e "b" then simple "008"%char
            else if Ascii.eqb e "f" then simple "012"%char
            else if Ascii.eqb e "n" then simple newline
            else if Ascii.eqb e "r" then simple "013"%char
            else if Ascii.eqb e "t" then simple "009"%char
            else if Ascii.eqb e "u" then
              match s'' with
              | String h1 (String h2 (String h3 (String h4 s4))) =>
                  match read_escape_u h1 h2 h3 h4, read_string s4 with
                  | Some u, Some (t, r) => Some (u +:+ t, r)
                  | _, _ => None
                  end
              | _ => None
              end
            else None
        | EmptyString => None
        end
      else if nat_of_ascii c <? 32 then None
      else
        match read_string s' with
        | Some (t, r) => Some (String c t, r)
        | None => None
        end
  end.

Fixpoint read_value (fuel : nat) (s : string) : option (json * string) :=
  match fuel with
  | O => None
  | S fuel' =>
      match skip_ws s with
      | EmptyString => None
      | String c rest =>
          if Ascii.eqb c dquote then
            match read_string rest with
            | Some (t, r) => Some (JStr t, r)
            | None => None
            end
          else if Ascii.eqb c "[" then
            match skip_ws rest with
            | String "]" r => Some (JArr [], r)
            | _ =>
                match read_items fuel' rest with
                | Some (items, r) => Some (JArr items, r)
                | None => None
                end
            end
          else if Ascii.eqb c "{" then
            match skip_ws rest with
            | String "}" r => Some (JObj [], r)
            | _ =>
                match read_members fuel' rest with
                | Some (fields, r) => Some (JObj fields, r)
                | None => None
                end
            end
          else if starts_with "null" (String c rest) then Some (JNull, string_drop 4 (String c rest))
          else if starts_with "true" (String c rest) then Some (JBool true, string_drop 4 (String c rest))
          else if starts_with "false" (String c rest) then Some (JBool false, string_drop 5 (String c rest))
          else
            match read_number (String c rest) with
            | Some (n, r) => Some (JNum n, r)
            | None => None
            end
      end
  end
with read_items (fuel : nat) (s : string) : option (list json * string) :=
  match fuel with
  | O => None
  | S fuel' =>
      match read_value fuel' s with
      | Some (v, r) =>
          match skip_ws r with
          | String "," r' =>
              match read_items fuel' r' with
              | Some (vs, r'') => Some (v :: vs, r'')
              | None => None
              end
          | String "]" r' => Some ([v], r')
          | _ => None
          end
      | None => None
      end
  end
with read_members (fuel : nat) (s : string) : option (list (string * json) * string) :=
  match fuel with
  | O => None
  | S fuel' =>
      match skip_ws s with
      | String c rest =>
          if Ascii.eqb c dquote then
            match read_string rest with
            | Some (k, r) =>
                match skip_ws r with
                | String ":" r1 =>
                    match read_value fuel' r1 with
                    | Some (v, r2) =>
                        match skip_ws r2 with
                        | String "," r3 =>
                            match read_members fuel' r3 with
                            | Some (kvs, r4) => Some ((k, v) :: kvs, r4)
                            | None => None
                            end
                        | String "}" r3 => Some ([(k, v)], r3)
                        | _ => None
                        end
                    | None => None
                    end
                | _ => None
                end
            | None => None
            end
          else None
      | EmptyString => None
      end
  end.

(** A whole text is JSON when one value, and only white space after it,
    is read from it. *)
Definition json_loads (s : string) : option json :=
  match read_value (2 * String.length s + 2) s with
  | Some (v, rest) =>
      match skip_ws rest with
      | EmptyString => Some v
      | _ => None
      end
  | None => None
  end.

(** The number of values of a document, counting each element of a list
    or dict once more: fuel enough to read its text back. *)
Fixpoint json_size (v : json) : nat :=
  match v with
  | JArr items => S (list_sum (map (fun x => S (json_size x)) items))
  | JObj fields => S (list_sum (map (fun kv => S (json_size (snd kv))) fields))
  | _ => 1
  end.

(** No number of the document is a float that is not finite. *)
Fixpoint finite (v : json) : bool :=
  match v with
  | JFloat _ => false
  | JArr items => forallb finite items
  | JObj fields => forallb (fun kv => finite (snd kv)) fields
  | _ => true
  end.

(** Text after a number must not go on with a digit. *)
Definition no_digit_head (s : string) : Prop :=
  match s with
  | String c _ => digit_val c = None
  | EmptyString => True
  end.

(** The first character of a number is a digit or the sign. *)
Definition number_head (c : ascii) : bool :=
  match digit_val c with
  | Some _ => true
  | None => Ascii.eqb c "-"
  end.


(** The first character of a value: no white space, no closing bracket. *)
Definition value_head (c : ascii) : bool :=
  negb (is_ws c) && negb (Ascii.eqb c "]") && negb (Ascii.eqb c "}").


(** The text of [x] is read back, at any nesting level. *)
Definition reads_back (x : json) : Prop :=
  forall level fuel rest, json_size x <= fuel -> no_digit_head rest ->
    read_value fuel (dumps level x +:+ rest) = Some (x, rest).


(** The text of one item of a dict. *)
Definition member_text (level : nat) (kv : string * json) : string :=
  encode_basestring (fst kv) +:+ ": " +:+ dumps level (snd kv).


(** ** Structured data *)

Definition series_url (slug lang : string) : string :=
  if String.eqb lang "en" then SITE_URL +:+ "/" +:+ slug +:+ "/"
  else SITE_URL +:+ "/fr/" +:+ slug +:+ "/".

(** The [HowToStep] of one timeline entry. *)
Definition howto_step (item : json) : result json :=
  let! title := item @ "title" in
  let! notes := py_get item "notes" (JStr EmptyString) in
  Ok (JObj [ ("@type", JStr "HowToStep");
             ("name", title);
             ("text", notes) ]).

(** The [schema] dict of [build_schema_json] when it is serialised. *)
Definition build_schema (data : json) (slug lang : string) : result json :=
  let url := series_url slug lang in
  let! name :=
    (if String.eqb lang "en"
     then fstring [E (fmt (data @ "title")); L " Watch Order Guide"]
     else fstring [E (fmt (data @ "title")); L " Guide d'Ordre de Visionnage"]) in
  let! description := data @ "meta_description" in
  let! timeline := data @ "timeline" in
  let! items := py_iter timeline in
  let! steps := traverse howto_step items in
  Ok (JObj [ ("@context", JStr "https://schema.org");
             ("@type", JStr "HowTo");
             ("name", JStr name);
             ("description", description);
             ("url", JStr url);
             ("datePublished", JStr "2026-02-12");
             ("dateModified", JStr "2026-02-12");
             ("step", JArr steps) ]).

Definition build_schema_json (data : json) (slug lang : string) : result string :=
  let! schema := build_schema data slug lang in
  Ok (json_dumps schema).

(** The [Question] entity of one FAQ entry. *)
Definition faq_entity (faq : json) : result json :=
  let! question := faq @ "question" in
  let! answer := faq @ "answer" in
  Ok (JObj [ ("@type", JStr "Question");
             ("name", question);
             ("acceptedAnswer",
              JObj [ ("@type", JStr "Answer");
                     ("text", answer) ]) ]).

Definition build_faq (data : json) : result json :=
  let! faqs := data @ "faq" in
  let! entries := py_iter faqs in
  let! entities := traverse faq_entity entries in
  Ok (JObj [ ("@context", JStr "https://schema.org");
             ("@type", JStr "FAQPage");
             ("mainEntity", JArr entities) ]).

Definition build_faq_schema (data : json) : result string :=
  let! schema := build_faq data in
  Ok (json_dumps schema).

(** The field [k] of the guide, when it is there, holds no float that is
    not finite. *)
Definition finite_field (k : string) (data : json) : bool :=
  match data @ k with
  | Ok v => finite v
  | Raise _ => true
  end.

(** ** Page assemblers *)

Definition generate_series_page (slug : string) (data : json) (lang : string)
  : result string :=
  let! ui := data @ "ui" in
  let lang_prefix := if String.eqb lang "fr" then "/fr" else EmptyString in
  let other_lang := if String.eqb lang "en" then "fr" else "en" in
  let other_prefix := if String.eqb other_lang "fr" then "/fr" else EmptyString in
  let home_url := lang_prefix +:+ "/" in
  let lang_switch_url := other_prefix +:+ "/" +:+ slug +:+ "/" in
  let! why_confusing_html := build_why_confusing_html data ui in
  let! paths_html := build_paths_html data ui in
  let! compare_html := build_compare_html data ui in
  let! timeline_rows := build_timeline_rows data ui in
  let! faq_html := build_faq_html data in
  let! streaming_html := build_streaming_html data ui in
  let! howto_schema := build_schema_json data slug lang in
  let! faq_schema := build_faq_schema data in
  let canonical := series_url slug lang in
  let en_url := SITE_URL +:+ "/" +:+ slug +:+ "/" in
  let fr_url := SITE_URL +:+ "/fr/" +:+ slug +:+ "/" in
  fstring
    [L "<!DOCTYPE html>
<html lang=`";
     V lang;
     L "`>
<head>
  <meta charset=`UTF-8`>
  ";
     V GTM_HEAD;
     L "
  <meta name=`viewport` content=`width=device-width, initial-scale=1.0`>
  <title>";
     E (fmt (data @ "meta_title"));
     L "</title>
  <meta name=`description` content=`";
     E (fmt (data @ "meta_description"));
     L "`>
  <link rel=`canonical` href=`";
     V canonical;
     L "`>
  <link rel=`alternate` hreflang=`en` href=`";
     V en_url;
     L "`>
  <link rel=`alternate` hreflang=`fr` href=`";
     V fr_url;
     L "`>
  <link rel=`alternate` hreflang=`x-default` href=`";
     V en_url;
     L "`>
  <link rel=`preconnect` href=`https://fonts.googleapis.com`>
  <link rel=`preconnect` href=`https://fonts.gstatic.com` crossorigin>
  <link href=`https://fonts.googleapis.com/css2?family=Bebas+Neue&family=Outfit:wght@400;500;600;700&display=swap` rel=`stylesheet`>
  <link rel=`stylesheet` href=`/assets/css/style.css`>
  <script type=`application/ld+json`>
";
     V howto_schema;
     L "
  </script>
  <script type=`application/ld+json`>
";
     V faq_schema;
     L "
  </script>
</head>
<body>
  <!-- Navigation -->
  <nav class=`nav` aria-label=`Main navigation`>
    <div class=`container nav__inner`>
      <a href=`";
     V home_url;
     L "` class=`nav__logo`>Anime<span>Watch</span>Order</a>
      <ul class=`nav__links`>
        <li><a href=`";
     V home_url;
     L "`>";
     E (fmt (ui @ "nav_home"));
     L "</a></li>
        <li><a href=`";
     V lang_switch_url;
     L "` class=`nav__lang`>";
     E (fmt (ui @ "lang_switch"));
     L "</a></li>
      </ul>
    </div>
  </nav>

  <main class=`container`>
    <!-- 1. Hero Section -->
    <section class=`hero` id=`hero`>
      <span class=`hero__tag`>";
     E (fmt (data @ "category_tag"));
     L "</span>
      <h1>";
     E (fmt (data @ "title"));
     L " ";
     V (if String.eqb lang "en" then "Watch Order" else "Ordre de Visionnage");
     L "</h1>
      <div class=`hero__meta`>
        <div class=`hero__meta-item`>
          <span class=`hero__meta-value`>";
     E (fmt (data @ "hero" @@ "series"));
     L "</span>
          <span class=`hero__meta-label`>";
     V (if String.eqb lang "en" then "Series" else "Séries");
     L "</span>
        </div>
        <div class=`hero__meta-item`>
          <span class=`hero__meta-value`>";
     E (fmt (data @ "hero" @@ "films"));
     L "</span>
          <span class=`hero__meta-label`>Films</span>
        </div>
        <div class=`hero__meta-item`>
          <span class=`hero__meta-value`>";
     E (fmt (data @ "hero" @@ "hours"));
     L "+</span>
          <span class=`hero__meta-label`>";
     V (if String.eqb lang "en" then "Hours" else "Heures");
     L "</span>
        </div>
        <div class=`hero__meta-item`>
          <span class=`hero__meta-value`>";
     E (fmt (data @ "hero" @@ "updated"));
     L "</span>
          <span class=`hero__meta-label`>";
     V (if String.eqb lang "en" then "Updated" else "Mis à jour");
     L "</span>
        </div>
      </div>
      <p class=`hero__intro`>";
     E (fmt (data @ "intro"));
     L "</p>
    </section>

    <!-- 2. Quick Answer Box -->
    <section class=`section` id=`quick-answer`>
      <div class=`quick-answer`>
        <div class=`quick-answer__label`>";
     E (fmt (ui @ "quick_answer_label"));
     L "</div>
        <p class=`quick-answer__text`>";
     E (fmt (data @ "quick_answer"));
     L "</p>
      </div>
    </section>

    <!-- 3. Why Dragon Ball Is Confusing -->
    <section class=`section` id=`why-confusing`>
";
     V why_confusing_html;
     L "
    </section>

    <!-- 4. Watch Paths -->
    <section class=`section` id=`paths`>
      <h2>";
     E (fmt (ui @ "paths_heading"));
     L "</h2>
      <div class=`paths-grid`>
";
     V paths_html;
     L "
      </div>
    </section>

    <!-- 5. DBZ vs Kai Comparison -->
    <section class=`section` id=`compare`>
      <h2>";
     E (fmt (data @ "dbz_vs_kai" @@ "heading"));
     L "</h2>
      <p class=`section__intro`>";
     E (fmt (data @ "dbz_vs_kai" @@ "intro"));
     L "</p>
";
     V compare_html;
     L "
    </section>

    <!-- 6. Complete Dragon Ball Timeline -->
    <section class=`section` id=`timeline`>
      <h2>";
     E (fmt (ui @ "timeline_heading"));
     L "</h2>
      <div class=`table-wrapper`>
        <table class=`timeline-table`>
          <thead>
            <tr>
              <th>";
     E (fmt (ui @ "col_num"));
     L "</th>
              <th>";
     E (fmt (ui @ "col_title"));
     L "</th>
              <th>";
     E (fmt (ui @ "col_type"));
     L "</th>
              <th>";
     E (fmt (ui @ "col_episodes"));
     L "</th>
              <th>";
     E (fmt (ui @ "col_when"));
     L "</th>
              <th>";
     E (fmt (ui @ "col_path"));
     L "</th>
              <th>";
     E (fmt (ui @ "col_verdict"));
     L "</th>
              <th>";
     E (fmt (ui @ "col_watch"));
     L "</th>
            </tr>
          </thead>
          <tbody>
";
     V timeline_rows;
     L "
          </tbody>
        </table>
      </div>
    </section>

    <!-- 7. FAQ Section -->
    <section class=`section` id=`faq`>
      <h2>";
     E (fmt (ui @ "faq_heading"));
     L "</h2>
";
     V faq_html;
     L "
    </section>

    <!-- 8. Streaming Platforms -->
    <section class=`section` id=`streaming`>
      <h2>";
     E (fmt (ui @ "streaming_heading"));
     L "</h2>
      <div class=`streaming-grid`>
";
     V streaming_html;
     L "
      </div>
    </section>

    <!-- 9. Manga Continuation Box -->
    <section class=`section` id=`manga`>
      <div class=`manga-box`>
        <span class=`manga-box__icon`>📚</span>
        <div class=`manga-box__title`>";
     E (fmt (data @ "manga" @@ "title"));
     L "</div>
        <p class=`manga-box__desc`>";
     E (fmt (data @ "manga" @@ "description"));
     L "</p>
        <a href=`";
     E (fmt (data @ "manga" @@ "link_url"));
     L "` class=`manga-box__link` target=`_blank` rel=`noopener noreferrer nofollow`>→ ";
     E (fmt (data @ "manga" @@ "link_text"));
     L "</a>
      </div>
    </section>
  </main>

  <!-- Footer -->
  <footer class=`footer`>
    <div class=`container`>
      <p class=`footer__text`>";
     E (fmt (ui @ "footer_text"));
     L "</p>
      <p class=`footer__affiliate`>";
     E (fmt (ui @ "footer_affiliate"));
     L "</p>
    </div>
  </footer>
</body>
</html>"].

(** An element of [series_list]: the dict
    [{"slug": slug, "data": {"en": ..., "fr": ...}}] built by [main]. *)
Record series : Type := {
  s_slug : string;
  s_en : json;
  s_fr : json
}.

(** [s["data"][lang]]. *)
Definition series_data (s : series) (lang : string) : result json :=
  if String.eqb lang "en" then Ok (s_en s)
  else if String.eqb lang "fr" then Ok (s_fr s)
  else Raise (KeyError lang).

Definition home_card (lang lang_prefix cta_text : string) (s : series) : result string :=
  let slug := s_slug s in
  let! d := series_data s lang in
  let link := lang_prefix +:+ "/" +:+ slug +:+ "/" in
  let! emoji := py_get d "emoji" (JStr "🎬") in
  fstring
    [L "      <a href=`";
     V link;
     L "` class=`series-card`>
        <span class=`series-card__emoji`>";
     E (py_str emoji);
     L "</span>
        <div class=`series-card__title`>";
     E (fmt (d @ "title"));
     L "</div>
        <div class=`series-card__meta`>";
     E (fmt (d @ "category_tag"));
     L "</div>
        <span class=`series-card__cta`>";
     V cta_text;
     L " →</span>
      </a>
"].

Definition generate_homepage (lang : string) (series_list : list series) : result string :=
  let lang_prefix := if String.eqb lang "fr" then "/fr" else EmptyString in
  let other_prefix := if String.eqb lang "en" then "/fr" else EmptyString in
  let other_lang_label := if String.eqb lang "en" then "FR" else "EN" in
  let other_home := other_prefix +:+ "/" in
  let home_url := lang_prefix +:+ "/" in
  let canonical := if String.eqb lang "en" then SITE_URL +:+ "/" else SITE_URL +:+ "/fr/" in
  let en_url := SITE_URL +:+ "/" in
  let fr_url := SITE_URL +:+ "/fr/" in
  let en := String.eqb lang "en" in
  let title :=
    if en then "AnimeWatchOrder.com — Complete Anime Watch Order Guides"
    else "AnimeWatchOrder.com — Guides d'Ordre de Visionnage Anime" in
  let description :=
    if en then "Clear, structured watch order guides for the most complex anime franchises. Dragon Ball, Naruto, One Piece, and more."
    else "Des guides clairs et structurés pour les franchises anime les plus complexes. Dragon Ball, Naruto, One Piece et plus." in
  let h1_text :=
    if en then "Anime Watch Order Guides" else "Guides d'Ordre de Visionnage Anime" in
  let subtitle :=
    if en then "Clear, structured watch order guides for the most complex anime franchises."
    else "Des guides clairs et structurés pour les franchises anime les plus complexes." in
  let nav_home := if en then "Home" else "Accueil" in
  let cta_text := if en then "View Guide" else "Voir le Guide" in
  let! cards := traverse (home_card lang lang_prefix cta_text) series_list in
  let cards_html := concat_str cards in
  fstring
    [L "<!DOCTYPE html>
<html lang=`";
     V lang;
     L "`>
<head>
  <meta charset=`UTF-8`>
  ";
     V GTM_HEAD;
     L "
  ";
     V GOOGLE_SITE_VERIFICATION;
     L "
  <meta name=`viewport` content=`width=device-width, initial-scale=1.0`>
  <title>";
     V title;
     L "</title>
  <meta name=`description` content=`";
     V description;
     L "`>
  <link rel=`canonical` href=`";
     V canonical;
     L "`>
  <link rel=`alternate` hreflang=`en` href=`";
     V en_url;
     L "`>
  <link rel=`alternate` hreflang=`fr` href=`";
     V fr_url;
     L "`>
  <link rel=`alternate` hreflang=`x-default` href=`";
     V en_url;
     L "`>
  <link rel=`preconnect` href=`https://fonts.googleapis.com`>
  <link rel=`preconnect` href=`https://fonts.gstatic.com` crossorigin>
  <link href=`https://fonts.googleapis.com/css2?family=Bebas+Neue&family=Outfit:wght@400;500;600;700&display=swap` rel=`stylesheet`>
  <link rel=`stylesheet` href=`/assets/css/style.css`>
</head>
<body>
  <!-- Navigation -->
  <nav class=`nav` aria-label=`Main navigation`>
    <div class=`container nav__inner`>
      <a href=`";
     V home_url;
     L "` class=`nav__logo`>Anime<span>Watch</span>Order</a>
      <ul class=`nav__links`>
        <li><a href=`";
     V home_url;
     L "`>";
     V nav_home;
     L "</a></li>
        <li><a href=`";
     V other_home;
     L "` class=`nav__lang`>";
     V other_lang_label;
     L "</a></li>
      </ul>
    </div>
  </nav>

  <main class=`container`>
    <section class=`home-hero`>
      <h1>";
     V h1_text;
     L "</h1>
      <p class=`home-hero__subtitle`>";
     V subtitle;
     L "</p>
      <div class=`series-grid`>
";
     V cards_html;
     L "
      </div>
    </section>
  </main>

  <footer class=`footer`>
    <div class=`container`>
      <p class=`footer__text`>AnimeWatchOrder.com</p>
    </div>
  </footer>
</body>
</html>"].

(** ** Sitemap *)

(** An f-string whose fields are all [str] variables cannot raise: it is
    the concatenation of its segments. *)
Inductive seg : Type :=
  | Lit (text : string)
  | Hole (value : string).

Definition seg_text (x : seg) : string :=
  match x with
  | Lit s => s
  | Hole s => s
  end.

Definition flatten (segs : list seg) : string := concat_str (map seg_text segs).

(** The pair of [<url>] blocks of one page: its English and French URL. *)
Definition sitemap_entry (url : string * string) : string :=
  let loc_en := fst url in
  let loc_fr := snd url in
  flatten
    [Lit "  <url>
    <loc>";
     Hole loc_en;
     Lit "</loc>
    <xhtml:link rel=`alternate` hreflang=`en` href=`";
     Hole loc_en;
     Lit "`/>
    <xhtml:link rel=`alternate` hreflang=`fr` href=`";
     Hole loc_fr;
     Lit "`/>
    <xhtml:link rel=`alternate` hreflang=`x-default` href=`";
     Hole loc_en;
     Lit "`/>
    <lastmod>2026-02-12</lastmod>
    <changefreq>monthly</changefreq>
    <priority>1.0</priority>
  </url>
  <url>
    <loc>";
     Hole loc_fr;
     Lit "</loc>
    <xhtml:link rel=`alternate` hreflang=`en` href=`";
     Hole loc_en;
     Lit "`/>
    <xhtml:link rel=`alternate` hreflang=`fr` href=`";
     Hole loc_fr;
     Lit "`/>
    <xhtml:link rel=`alternate` hreflang=`x-default` href=`";
     Hole loc_en;
     Lit "`/>
    <lastmod>2026-02-12</lastmod>
    <changefreq>monthly</changefreq>
    <priority>0.9</priority>
  </url>"].

Definition sitemap_urls (series_slugs : list string) : list (string * string) :=
  (SITE_URL +:+ "/", SITE_URL +:+ "/fr/")
  :: map (fun slug => (SITE_URL +:+ "/" +:+ slug +:+ "/", SITE_URL +:+ "/fr/" +:+ slug +:+ "/"))
         series_slugs.

Definition generate_sitemap (series_slugs : list string) : string :=
  let urls := sitemap_urls series_slugs in
  let entries := map sitemap_entry urls in
  flatten
    [Lit "<?xml version=`1.0` encoding=`UTF-8`?>
<urlset xmlns=`http://www.sitemaps.org/schemas/sitemap/0.9`
        xmlns:xhtml=`http://www.w3.org/1999/xhtml`>
";
     Hole (join "
" entries);
     Lit "
</urlset>"].

(** ** Orchestrator

    The run is a function of the file system it starts in.  A file is
    known by its path below [BASE_DIR]; only the files the program reads
    and writes are tracked, directories are not.  In this file system
    [mkdir] always succeeds and a write never fails, where the real
    [write_file] raises when a file stands in the place of a directory of
    the path, or a directory in the place of the file: a slug
    [index.html], for which the run needs [index.html] both as a file and
    as a directory, ends the real run with [IsADirectoryError].  What is
    proved of the files a run leaves is therefore proved of the runs whose
    writes the real file system accepts; [plain_slug] and [clear_of]
    below give a condition for that.  What is printed is kept line by
    line. *)

Record world : Type := {
  w_files : gmap string string;
  w_stdout : list string
}.

(** How a step ends: normally, by [sys.exit(code)], or by an exception
    that nothing catches. *)
Inductive outcome (A : Type) : Type :=
  | Done (a : A)
  | Exit (code : Z)
  | Fail (e : exn).
Arguments Done {A} a.
Arguments Exit {A} code.
Arguments Fail {A} e.

Definition prog (A : Type) : Type := world -> world * outcome A.

Definition ret {A : Type} (a : A) : prog A := fun w => (w, Done a).

Definition pbind {A B : Type} (m : prog A) (k : A -> prog B) : prog B :=
  fun w =>
    match m w with
    | (w', Done a) => k a w'
    | (w', Exit c) => (w', Exit c)
    | (w', Fail e) => (w', Fail e)
    end.

Notation "'do!' x := m 'in' k" := (pbind m (fun x => k))
  (at level 10, x name, m at level 100, k at level 200).

Definition lift {A : Type} (r : result A) : prog A :=
  fun w =>
    match r with
    | Ok a => (w, Done a)
    | Raise e => (w, Fail e)
    end.

Definition print (line : string) : prog unit :=
  fun w => ({| w_files := w_files w; w_stdout := w_stdout w ++ [line] |}, Done tt).

Definition sys_exit {A : Type} (code : Z) : prog A := fun w => (w, Exit code).

Fixpoint foreach {A B : Type} (f : A -> prog B) (l : list A) : prog (list B) :=
  match l with
  | [] => ret []
  | x :: l' => do! y := f x in do! ys := foreach f l' in ret (y :: ys)
  end.

(** The status the process ends with. *)
Definition exit_status {A : Type} (o : outcome A) : Z :=
  match o with
  | Done _ => 0
  | Exit code => code
  | Fail _ => 1
  end.

Definition data_file (slug : string) : string := "data/" +:+ slug +:+ ".json".

Definition series_page_file (slug lang : string) : string :=
  if String.eqb lang "en" then slug +:+ "/index.html"
  else "fr/" +:+ slug +:+ "/index.html".

Definition homepage_file (lang : string) : string :=
  if String.eqb lang "en" then "index.html" else "fr/index.html".

Section Orchestrator.

(** The text of [BASE_DIR], and [json.load] as a function of a file's
    text. *)
Variable BASE_DIR : string.
Variable json_load : string -> result json.

Definition load_json (slug : string) : prog json :=
  let path := data_file slug in
  fun w =>
    match w_files w !! path with
    | None =>
        (do! _ := print ("  [ERROR] Data file not found: " +:+ BASE_DIR +:+ "/" +:+ path) in
         sys_exit 1) w
    | Some text => lift (json_load text) w
    end.

Definition write_file (path content : string) : prog unit :=
  fun w =>
    print ("  [OK] " +:+ path)
          {| w_files := <[path := content]> (w_files w); w_stdout := w_stdout w |}.

Definition load_series (slug : string) : prog series :=
  do! _ := print ("
[1/4] Loading data: " +:+ slug) in
  do! raw := load_json slug in
  do! en := lift (raw @ "en") in
  do! fr := lift (raw @ "fr") in
  ret {| s_slug := slug; s_en := en; s_fr := fr |}.

Definition write_series_page (s : series) (lang : string) : prog unit :=
  let slug := s_slug s in
  do! data := lift (series_data s lang) in
  do! html := lift (generate_series_page slug data lang) in
  write_file (series_page_file slug lang) html.

Definition write_homepage (series_list : list series) (lang : string) : prog unit :=
  do! html := lift (generate_homepage lang series_list) in
  write_file (homepage_file lang) html.

(** The body of [main], for the configured list of slugs. *)
Definition build (slugs : list string) : prog unit :=
  do! _ := print (repeat_str "=" 60) in
  do! _ := print "AnimeWatchOrder.com — Static Site Generator" in
  do! _ := print (repeat_str "=" 60) in
  do! series_list := foreach load_series slugs in
  do! _ := print "
[2/4] Generating series pages..." in
  do! _ := foreach (fun s => foreach (write_series_page s) ["en"; "fr"]) series_list in
  do! _ := print "
[3/4] Generating homepages..." in
  do! _ := foreach (write_homepage series_list) ["en"; "fr"] in
  do! _ := print "
[4/4] Generating sitemap..." in
  let sitemap := generate_sitemap slugs in
  do! _ := write_file "sitemap.xml" sitemap in
  do! _ := print ("
" +:+ repeat_str "=" 60) in
  do! _ := print ("Build complete! Generated "
                   +:+ str_of_Z (Z.of_nat (length slugs * 2))
                   +:+ " series pages + 2 homepages.") in
  print (repeat_str "=" 60).

Definition main : prog unit := build SERIES.

End Orchestrator.

(** ** A sample guide

    A small document with every field the renderers read; its timeline is
    the single entry of the specification's end-to-end example. *)

Definition sample_entry : json :=
  JObj [ ("num", JNum 1);
         ("title", JStr "Dragon Ball");
         ("subtitle", JStr "Ep 1-153");
         ("type", JStr "canon");
         ("episodes", JStr "153");
         ("when", JStr "1986");
         ("path", JStr "Path A");
         ("verdict", JStr "must_watch");
         ("recommended", JBool true) ].

Definition sample_ui : json :=
  JObj [ ("must_watch", JStr "Must Watch");
         ("watchable", JStr "Watchable");
         ("skip", JStr "Skip");
         ("canon", JStr "Canon");
         ("mixed", JStr "Mixed");
         ("film_canon", JStr "Canon Film");
         ("non_canon", JStr "Non-Canon");
         ("recommended_label", JStr "Recommended");
         ("why_confusing_label", JStr "Why is it confusing?");
         ("nav_home", JStr "Home");
         ("lang_switch", JStr "FR");
         ("quick_answer_label", JStr "Quick Answer");
         ("paths_heading", JStr "Watch Paths");
         ("timeline_heading", JStr "Complete Timeline");
         ("col_num", JStr "#");
         ("col_title", JStr "Title");
         ("col_type", JStr "Type");
         ("col_episodes", JStr "Episodes");
         ("col_when", JStr "When");
         ("col_path", JStr "Path");
         ("col_verdict", JStr "Verdict");
         ("col_watch", JStr "Watch");
         ("faq_heading", JStr "FAQ");
         ("streaming_heading", JStr "Where to Watch");
         ("footer_text", JStr "AnimeWatchOrder.com");
         ("footer_affiliate", JStr "Some links are affiliate links.") ].

Definition sample_guide : json :=
  JObj [ ("title", JStr "Dragon Ball");
         ("meta_title", JStr "Dragon Ball Watch Order");
         ("meta_description", JStr "The order in which to watch Dragon Ball.");
         ("category_tag", JStr "Shonen");
         ("hero", JObj [ ("series", JNum 5); ("films", JNum 21);
                         ("hours", JNum 300); ("updated", JStr "2026") ]);
         ("intro", JStr "Where to start with <strong>Dragon Ball</strong>.");
         ("quick_answer", JStr "Start with Dragon Ball.");
         ("ui", sample_ui);
         ("why_confusing", JObj [ ("content", JStr "Several series retell the same story.") ]);
         ("paths",
          JArr [ JObj [ ("icon", JStr "A"); ("name", JStr "Path A");
                        ("subtitle", JStr "Everything"); ("description", JStr "All series.");
                        ("hours", JStr "300h"); ("includes", JStr "All");
                        ("recommended", JBool true) ] ]);
         ("dbz_vs_kai",
          JObj [ ("heading", JStr "DBZ vs Kai");
                 ("intro", JStr "Two cuts of one story.");
                 ("cards",
                  JArr [ JObj [ ("title", JStr "Kai"); ("subtitle", JStr "Shorter");
                                ("color_class", JStr "compare-card--kai");
                                ("recommended", JBool true);
                                ("stats", JArr [ JObj [ ("label", JStr "Episodes");
                                                        ("value", JNum 167) ] ]) ] ]);
                 ("verdict", JStr "Watch Kai.") ]);
         ("timeline", JArr [ sample_entry ]);
         ("faq",
          JArr [ JObj [ ("question", JStr "Is GT canon?");
                        ("answer", JStr "No, `GT` is not canon.") ] ]);
         ("streaming",
          JArr [ JObj [ ("icon", JStr "CR"); ("platform", JStr "Crunchyroll");
                        ("available", JArr [ JStr "Dragon Ball"; JStr "Dragon Ball Z" ]);
                        ("url", JStr "https://www.crunchyroll.com/");
                        ("cta", JStr "Watch") ];
                 JObj [ ("icon", JStr "NF"); ("platform", JStr "Netflix");
                        ("available", JArr [ JStr "Dragon Ball Super" ]);
                        ("url", JStr "https://www.netflix.com/");
                        ("cta", JStr "Watch") ] ]);
         ("manga",
          JObj [ ("title", JStr "Continue with the manga");
                 ("description", JStr "The story goes on in print.");
                 ("link_url", JStr "https://example.org/manga");
                 ("link_text", JStr "Read") ]) ].

Definition sample_series (slug : string) : series :=
  {| s_slug := slug; s_en := sample_guide; s_fr := sample_guide |}.

(** The text of a data file holding the sample guide in both languages. *)
Definition sample_document : string :=
  json_dumps (JObj [ ("en", sample_guide); ("fr", sample_guide) ]).

(** A stand-in for [json.load] on texts the reader above accepts. *)
Definition read_document (text : string) : result json :=
  match json_loads text with
  | Some v => Ok v
  | None => Raise JSONDecodeError
  end.

Definition sample_world : world :=
  {| w_files := {[ data_file "dragon-ball" := sample_document;
                   data_file "naruto" := sample_document ]};
     w_stdout := [] |}.

(** The guide with one field set to another value. *)
Definition set_field (k : string) (v : json) (guide : json) : json :=
  match guide with
  | JObj fields =>
      JObj (map (fun kv => if String.eqb (fst kv) k then (k, v) else kv) fields)
  | _ => guide
  end.

(** The sample guide with a page title that closes the title element and
    opens another. *)
Definition retitled_guide : json :=
  set_field "meta_title" (JStr "Dragon Ball</title><title>Watch Order") sample_guide.

(** The sample guide as [json.load] gives it when the data file has
    [NaN] for the description and [Infinity] for the answer of its FAQ
    entry. *)
Definition nan_guide : json :=
  set_field "meta_description" (JFloat NaN)
    (set_field "faq"
       (JArr [ JObj [ ("question", JStr "Is GT canon?");
                      ("answer", JFloat PosInf) ] ])
       sample_guide).

(** ** Counting a marker in rendered text

    [occ p s] is computed on literals; for text with fields whose content
    is not known, the checks below are what makes the count of a marker
    [p] the sum of its counts in the literals: no literal ends in the
    middle of a possible occurrence, and the literal after a field
    disagrees with every way an occurrence could run into it. *)

(** At the head of [u] the marker either occurs or fails inside [u]. *)
Definition settled (p u : string) : bool :=
  starts_with p u || negb (starts_with u p).

Fixpoint tail_ok (p l : string) : bool :=
  match l with
  | EmptyString => true
  | String _ l' => settled p l && tail_ok p l'
  end.

(** Neither string starts the other: they differ at a common position. *)
Definition clash (r l : string) : bool :=
  negb (starts_with r l) && negb (starts_with l r).

Fixpoint tails_clash (q l : string) : bool :=
  match q with
  | EmptyString => true
  | String _ q' => clash q l && tails_clash q' l
  end.

Definition head_ok (p l : string) : bool :=
  match p with
  | EmptyString => false
  | String _ p' => tails_clash p' l
  end.

(** No occurrence of a nonempty end of [q] starts [x]. *)
Fixpoint tails_reject (q x : string) : Prop :=
  match q with
  | EmptyString => True
  | String _ q' => starts_with q x = false /\ tails_reject q' x
  end.

Fixpoint lit_occ (p : string) (segs : list seg) : nat :=
  match segs with
  | [] => 0
  | Lit s :: rest => occ p s + lit_occ p rest
  | Hole _ :: rest => lit_occ p rest
  end.

Fixpoint holes_free (p : string) (segs : list seg) : Prop :=
  match segs with
  | [] => True
  | Lit _ :: rest => holes_free p rest
  | Hole s :: rest => occ p s = 0 /\ holes_free p rest
  end.

Fixpoint segs_ok (p : string) (segs : list seg) : bool :=
  match segs with
  | [] => true
  | Lit s :: rest => tail_ok p s && segs_ok p rest
  | Hole _ :: rest =>
      match rest with
      | [] => true
      | Lit s :: _ => head_ok p s && segs_ok p rest
      | Hole _ :: _ => false
      end
  end.

(** The same checks on the parts of an f-string, before it is built. *)
Fixpoint parts_lit_occ (p : string) (ps : list part) : nat :=
  match ps with
  | [] => 0
  | L s :: rest => occ p s + parts_lit_occ p rest
  | _ :: rest => parts_lit_occ p rest
  end.

Definition part_free (p : string) (x : part) : Prop :=
  match x with
  | L _ => True
  | V s => occ p s = 0
  | E f => forall v, f = Ok v -> occ p v = 0
  end.

Fixpoint parts_ok (p : string) (ps : list part) : bool :=
  match ps with
  | [] => true
  | L s :: rest => tail_ok p s && parts_ok p rest
  | _ :: rest =>
      match rest with
      | [] => true
      | L s :: _ => head_ok p s && parts_ok p rest
      | _ :: _ => false
      end
  end.

(** The segment a part becomes when the f-string is built. *)
Inductive part_seg : part -> seg -> Prop :=
  | ps_lit (s : string) : part_seg (L s) (Lit s)
  | ps_var (s : string) : part_seg (V s) (Hole s)
  | ps_field (s : string) : part_seg (E (Ok s)) (Hole s).

(** A marker is a text that starts with [<]. *)
Definition marker (p : string) : Prop := starts_with "<" p = true.

(** No string of the document, key or value, contains [p]. *)
Fixpoint json_free (p : string) (v : json) : bool :=
  match v with
  | JStr s => Nat.eqb (occ p s) 0
  | JArr items => forallb (json_free p) items
  | JObj fields =>
      forallb (fun kv => Nat.eqb (occ p (fst kv)) 0 && json_free p (snd kv)) fields
  | _ => true
  end.

(** The checks of [segs_ok] for a template that text may follow: it does
    not end with a field. *)
Fixpoint segs_closed (p : string) (segs : list seg) : bool :=
  match segs with
  | [] => true
  | Lit s :: rest => tail_ok p s && segs_closed p rest
  | Hole _ :: rest =>
      match rest with
      | Lit s :: _ => head_ok p s && segs_closed p rest
      | _ => false
      end
  end.

(** The checks of [parts_ok] for an f-string that text may follow. *)
Fixpoint parts_closed (p : string) (ps : list part) : bool :=
  match ps with
  | [] => true
  | L s :: rest => tail_ok p s && parts_closed p rest
  | _ :: rest =>
      match rest with
      | L s :: _ => head_ok p s && parts_closed p rest
      | _ => false
      end
  end.

(** [s] brings no occurrence of [p], whatever text follows it. *)
Definition sealed (p s : string) : Prop :=
  forall t, occ p (s +:+ t) = occ p t.

(** What is left of [q] after its first double quote. *)
Fixpoint after_first_quote (q : string) : option string :=
  match q with
  | EmptyString => None
  | String c q' => if Ascii.eqb c dquote then Some q' else after_first_quote q'
  end.

(** The characters that follow a string or a value in the text [dumps]
    writes. *)
Definition json_follow_char (c : ascii) : bool :=
  Ascii.eqb c "," || Ascii.eqb c newline || Ascii.eqb c ":".

Definition json_follow (t : string) : Prop :=
  match t with
  | EmptyString => True
  | String c _ => json_follow_char c = true
  end.

(** A marker that escaping cannot produce and that cannot end on the
    quote that closes a string: it has no backslash, and after its first
    quote it goes on with a character that follows no string. *)
Definition json_marker (p : string) : bool :=
  starts_with "<" p && negb (has_char backslash p) &&
  match after_first_quote p with
  | None => true
  | Some EmptyString => false
  | Some (String c _) => negb (json_follow_char c)
  end.

(** The text of a value free of [p] is sealed before any text that may
    follow a value. *)
Definition dumps_sealed (p : string) (v : json) : Prop :=
  json_free p v = true ->
  forall level t, json_follow t -> occ p (dumps level v +:+ t) = occ p t.

(** ** Vocabulary of the statements *)

Definition type_keys : list string := ["canon"; "mixed"; "film_canon"; "non_canon"; "filler"].
Definition verdict_keys : list string := ["must_watch"; "watchable"; "skip"].

(** Keys a dict lookup accepts: every JSON value but lists and dicts. *)
Definition hashable (v : json) : bool :=
  match v with
  | JArr _ | JObj _ => false
  | _ => true
  end.

(** [v] is a key that is none of [keys]. *)
Definition outside (keys : list string) (v : json) : Prop :=
  hashable v = true /\ forall k, In k keys -> v <> JStr k.

(** [v] is a dict that has every key of [keys]. *)
Definition has_keys (keys : list string) (v : json) : bool :=
  match v with
  | JObj fields =>
      forallb (fun k => match dict_lookup k fields with Some _ => true | None => false end) keys
  | _ => false
  end.

(** The labels [verdict_label] and [type_label] read from [ui]. *)
Definition label_keys : list string :=
  ["must_watch"; "watchable"; "skip"; "canon"; "mixed"; "film_canon"; "non_canon"].

(** [s] occurs in [t]. *)
Definition infix_of (s t : string) : Prop := exists a b, t = a +:+ s +:+ b.

(** The end of a streaming card: the close of its list, then its
    call-to-action anchor. *)
Definition cta_anchor (url extra cta : string) : string :=
  "
        </ul>
        <a href=`" +:+ url +:+ "` class=`streaming-card__cta " +:+ extra
    +:+ "` target=`_blank` rel=`noopener noreferrer nofollow`>" +:+ cta +:+ "</a>
      </div>".


Fixpoint ends_with (x s : string) : bool :=
  String.eqb x s ||
  match s with
  | EmptyString => false
  | String _ s' => ends_with x s'
  end.

(** The CTA class of the card at position [i] of the streaming list. *)
Definition cta_extra_class (i : nat) : string :=
  match i with
  | O => "streaming-card__cta--primary"
  | S _ => EmptyString
  end.

(** The row of the specification's example entry, for given texts of the
    three labels it shows. *)
Definition example_row (recommended_label canon_label must_watch_label : string) : string :=
  flatten
    [Lit "        <tr class=`row--recommended`>
          <td class=`col-num`>1</td>
          <td class=`col-title`>Dragon Ball <span class=`tag-recommended`>";
     Hole recommended_label;
     Lit "</span><small>Ep 1-153</small></td>
          <td><span class=`badge badge--canon`>";
     Hole canon_label;
     Lit "</span></td>
          <td>153</td>
          <td>1986</td>
          <td>Path A</td>
          <td><span class=`verdict verdict--must-watch`>";
     Hole must_watch_label;
     Lit "</span></td>
          <td><a href=`#` class=`stream-link` rel=`nofollow noopener` target=`_blank`>CR</a></td>
        </tr>"].

(** The body of the timeline table, between its tags. *)
Definition timeline_tbody (rows : string) : string :=
  "          <tbody>
" +:+ rows +:+ "
          </tbody>".

(** The [str] variable that is part [n] of an f-string, with the
    literals before and after it. *)
Fixpoint field_context (n : nat) (ps : list part) : option (string * string * string) :=
  match n, ps with
  | O, L l :: V h :: L r :: _ => Some (l, h, r)
  | S n', _ :: ps' => field_context n' ps'
  | _, _ => None
  end.

(** Some literal of the f-string contains [x]. *)
Fixpoint literal_has (x : string) (ps : list part) : bool :=
  match ps with
  | [] => false
  | L l :: ps' => negb (Nat.eqb (occ x l) 0) || literal_has x ps'
  | _ :: ps' => literal_has x ps'
  end.

(** [x] stands in the head section of the page: after the opening
    [<head>] tag and before the first closing [</head>]. *)
Definition in_head (x html : string) : Prop :=
  exists a b c,
    html = a +:+ "<head>" +:+ b +:+ x +:+ c /\
    occ "</head>" (a +:+ "<head>" +:+ b +:+ x) = 0 /\
    infix_of "</head>" c.

(** The characters a URL-safe slug is made of: letters, digits and
    [-], [.], [_], [~]. *)
Definition is_unreserved (c : ascii) : bool :=
  let n := nat_of_ascii c in
  ((97 <=? n) && (n <=? 122)) || ((65 <=? n) && (n <=? 90)) || ((48 <=? n) && (n <=? 57))
  || Nat.eqb n 45 || Nat.eqb n 46 || Nat.eqb n 95 || Nat.eqb n 126.

Fixpoint url_safe (s : string) : bool :=
  match s with
  | EmptyString => true
  | String c s' => is_unreserved c && url_safe s'
  end.

(** One [<url>] entry of the sitemap, with its three alternate links. *)
Definition alternate_link (hreflang href : string) : string :=
  "    <xhtml:link rel=`alternate` hreflang=`" +:+ hreflang +:+ "` href=`" +:+ href +:+ "`/>
".

Definition url_block (loc en fr priority : string) : string :=
  "  <url>
    <loc>" +:+ loc +:+ "</loc>
" +:+ alternate_link "en" en +:+ alternate_link "fr" fr +:+ alternate_link "x-default" en
  +:+ "    <lastmod>2026-02-12</lastmod>
    <changefreq>monthly</changefreq>
    <priority>" +:+ priority +:+ "</priority>
  </url>".

(** The entries of the sitemap: for the homepage and for each series,
    the entry of the English URL, then the entry of the French URL. *)
Definition sitemap_blocks (series_slugs : list string) : list string :=
  flat_map (fun url => [ url_block (fst url) (fst url) (snd url) "1.0";
                         url_block (snd url) (fst url) (snd url) "0.9" ])
           (sitemap_urls series_slugs).

Definition sitemap_of_blocks (blocks : list string) : string :=
  "<?xml version=`1.0` encoding=`UTF-8`?>
<urlset xmlns=`http://www.sitemaps.org/schemas/sitemap/0.9`
        xmlns:xhtml=`http://www.w3.org/1999/xhtml`>
" +:+ join "
" blocks +:+ "
</urlset>".

(** The tags of the head that a page must have once: the two tags of the
    title, and the opening of each link up to its [href]. *)
Definition head_markers : list string :=
  [ "<title>";
    "</title>";
    "<link rel=`canonical` href=";
    "<link rel=`alternate` hreflang=`en` href=";
    "<link rel=`alternate` hreflang=`fr` href=";
    "<link rel=`alternate` hreflang=`x-default` href=" ].

(** The markers counted in pages: the head tags and the verification tag. *)
Definition page_markers : list string := GOOGLE_SITE_VERIFICATION :: head_markers.

Definition canonical_tag (href : string) : string :=
  "<link rel=`canonical` href=`" +:+ href +:+ "`>".

Definition alternate_tag (hreflang href : string) : string :=
  "<link rel=`alternate` hreflang=`" +:+ hreflang +:+ "` href=`" +:+ href +:+ "`>".

(** No string of the guide contains a tag of [head_markers]. *)
Definition head_free (data : json) : bool :=
  forallb (fun p => json_free p data) head_markers.

(** The URL of the homepage in one language. *)
Definition home_url (lang : string) : string :=
  if String.eqb lang "en" then SITE_URL +:+ "/" else SITE_URL +:+ "/fr/".

(** The pages the site is made of: the homepage, then the page of each
    series. *)
Inductive page : Type :=
  | Home
  | Series (slug : string).

Definition site_pages (series_slugs : list string) : list page :=
  Home :: map Series series_slugs.

(** The URL a page is served at in one language: the canonical URL of
    the page written for that language. *)
Definition page_url (lang : string) (p : page) : string :=
  match p with
  | Home => home_url lang
  | Series slug => series_url slug lang
  end.

(** The two entries the sitemap owes a page: one located at the English
    URL of the page and one at its French URL, each with the links to the
    English URL as [en], to the French URL as [fr] and to the English URL
    as [x-default]. *)
Definition page_entries (p : page) : list string :=
  [ url_block (page_url "en" p) (page_url "en" p) (page_url "fr" p) "1.0";
    url_block (page_url "fr" p) (page_url "en" p) (page_url "fr" p) "0.9" ].

Definition expected_entries (series_slugs : list string) : list string :=
  flat_map page_entries (site_pages series_slugs).

(** The four links of the head, with the URLs they point at. *)
Definition head_links (canonical en fr : string) (html : string) : Prop :=
  infix_of (canonical_tag canonical) html /\
  infix_of (alternate_tag "en" en) html /\
  infix_of (alternate_tag "fr" fr) html /\
  infix_of (alternate_tag "x-default" en) html.

(** A series of the homepage whose slug is URL-safe and whose two guides
    have none of the head tags in their strings. *)
Definition series_clean (s : series) : bool :=
  url_safe (s_slug s) && head_free (s_en s) && head_free (s_fr s).

(** ** Vocabulary of the runs *)

(** The data file of [slug] is there and holds a document with both
    languages. *)
Definition loads (json_load : string -> result json) (w : world) (slug : string) : Prop :=
  exists text raw en fr,
    w_files w !! data_file slug = Some text /\
    json_load text = Ok raw /\ raw @ "en" = Ok en /\ raw @ "fr" = Ok fr.

(** The line [load_json] prints for a data file that is not there. *)
Definition missing_report (BASE_DIR slug : string) : string :=
  "  [ERROR] Data file not found: " +:+ BASE_DIR +:+ "/" +:+ data_file slug.

(** Two file systems with the same data files. *)
Definition same_data (w1 w2 : world) : Prop :=
  forall slug, w_files w1 !! data_file slug = w_files w2 !! data_file slug.

(** The files after a list of writes, the first write first. *)
Fixpoint apply_writes (writes : list (string * string)) (files : gmap string string)
  : gmap string string :=
  match writes with
  | [] => files
  | (path, content) :: rest => apply_writes rest (<[path := content]> files)
  end.

(** The content the last write to [path] leaves there. *)
Fixpoint last_write (path : string) (writes : list (string * string)) : option string :=
  match writes with
  | [] => None
  | (path', content) :: rest =>
      match last_write path rest with
      | Some c => Some c
      | None => if String.eqb path' path then Some content else None
      end
  end.

Fixpoint last_char (s : string) : option ascii :=
  match s with
  | EmptyString => None
  | String c EmptyString => Some c
  | String _ s' => last_char s'
  end.

(** A path that is no data file: it does not end with [n]. *)
Definition output_path (path : string) : Prop := last_char path <> Some "n"%char.

(** The world after a step that wrote [writes] and printed [lines]. *)
Definition after (writes : list (string * string)) (lines : list string) (w : world) : world :=
  {| w_files := apply_writes writes (w_files w); w_stdout := w_stdout w ++ lines |}.

(** A step that reads nothing but data files and writes none: from two
    worlds with the same data files it ends the same way, having made the
    same writes and printed the same lines. *)
Definition uniform {A : Type} (m : prog A) : Prop :=
  forall w1 w2, same_data w1 w2 ->
    exists writes lines o,
      Forall (fun kv => output_path (fst kv)) writes /\
      m w1 = (after writes lines w1, o) /\
      m w2 = (after writes lines w2, o).

(** The world a second run starts in: the files the first run left, and
    the terminal as it was. *)
Definition rerun_world (w w' : world) : world :=
  {| w_files := w_files w'; w_stdout := w_stdout w |}.

(** A file system with the data file of one series only. *)
Definition partial_world : world :=
  {| w_files := {[ data_file "dragon-ball" := sample_document ]};
     w_stdout := [] |}.

(** A file system whose first data file holds an empty document, and
    whose second data file is not there. *)
Definition broken_world : world :=
  {| w_files := {[ data_file "dragon-ball" := "{}" ]};
     w_stdout := [] |}.

(** ** The films and fillers tables

    [build_films_rows] and [build_fillers_rows]: no page assembler calls
    them. *)

(** The body of the loop of [build_films_rows]: the row of one film. *)
Definition film_row (ui film : json) : result string :=
  let! canon := film @ "canon" in
  let canon_class := if py_truthy canon then "film-canon-yes" else "film-canon-no" in
  let! canon' := film @ "canon" in
  let! canon_text := (if py_truthy canon' then ui @ "yes" else ui @ "no") in
  let! verdict := film @ "verdict" in
  let! v_class := verdict_class verdict in
  let! verdict' := film @ "verdict" in
  let! v_label := verdict_label verdict' ui in
  fstring
    [L "        <tr>
          <td class=`film-title`>";
     E (fmt (film @ "title"));
     L "</td>
          <td>";
     E (fmt (film @ "year"));
     L "</td>
          <td class=`";
     V canon_class;
     L "`>";
     E (py_str canon_text);
     L "</td>
          <td>";
     E (fmt (film @ "placement"));
     L "</td>
          <td><span class=`verdict ";
     V v_class;
     L "`>";
     E (py_str v_label);
     L "</span></td>
        </tr>"].

Definition build_films_rows (data ui : json) : result string :=
  let! films := data @ "films" in
  let! items := py_iter films in
  let! rows := traverse (film_row ui) items in
  Ok (join "
" rows).

(** The body of the loop of [build_fillers_rows]: the row of one filler
    arc. *)
Definition filler_row (ui filler : json) : result string :=
  let! verdict := filler @ "verdict" in
  let! v_class := verdict_class verdict in
  let! verdict' := filler @ "verdict" in
  let! v_label := verdict_label verdict' ui in
  fstring
    [L "        <tr>
          <td>";
     E (fmt (filler @ "arc"));
     L "</td>
          <td>";
     E (fmt (filler @ "episodes"));
     L "</td>
          <td><span class=`verdict ";
     V v_class;
     L "`>";
     E (py_str v_label);
     L "</span></td>
          <td>";
     E (fmt (filler @ "notes"));
     L "</td>
        </tr>"].

Definition build_fillers_rows (data ui : json) : result string :=
  let! fillers := data @ "fillers" in
  let! items := py_iter fillers in
  let! rows := traverse (filler_row ui) items in
  Ok (join "
" rows).

(** ** Vocabulary of the further properties *)

(** [s] brings [n] occurrences of [p], whatever text follows it. *)
Definition counted (p : string) (n : nat) (s : string) : Prop :=
  forall t, occ p (s +:+ t) = n + occ p t.

(** The tags that open and close a table row. *)
Definition row_markers : list string := ["<tr"; "</tr>"].

(** The keys of the guide that [generate_series_page] and the renderers
    it calls read. *)
Definition series_page_keys : list string :=
  [ "ui"; "why_confusing"; "paths"; "dbz_vs_kai"; "timeline"; "faq"; "streaming";
    "title"; "meta_description"; "meta_title"; "category_tag"; "hero"; "intro";
    "quick_answer"; "manga" ].

(** [obj[k]] is there and is text, a number, a boolean or [None]: a value
    an f-string formats. *)
Definition has_scalar (k : string) (obj : json) : bool :=
  match obj @ k with
  | Ok v => hashable v
  | Raise _ => false
  end.

(** [obj] is a dict where [k], when it is there, is such a value. *)
Definition opt_scalar (k : string) (obj : json) : bool :=
  match obj with
  | JObj fields =>
      match dict_lookup k fields with
      | Some v => hashable v
      | None => true
      end
  | _ => false
  end.

Definition scalars (keys : list string) (obj : json) : bool :=
  forallb (fun k => has_scalar k obj) keys.

(** [obj[k]] is a list whose items all pass [ok]. *)
Definition list_of (ok : json -> bool) (k : string) (obj : json) : bool :=
  match obj @ k with
  | Ok (JArr items) => forallb ok items
  | _ => false
  end.

(** [obj[k]] is there and passes [ok]. *)
Definition dict_of (ok : json -> bool) (k : string) (obj : json) : bool :=
  match obj @ k with
  | Ok v => ok v
  | Raise _ => false
  end.

(** The labels every series page reads from [ui]. *)
Definition ui_keys : list string :=
  [ "must_watch"; "watchable"; "skip"; "canon"; "mixed"; "film_canon"; "non_canon";
    "recommended_label"; "why_confusing_label"; "nav_home"; "lang_switch";
    "quick_answer_label"; "paths_heading"; "timeline_heading";
    "col_num"; "col_title"; "col_type"; "col_episodes"; "col_when"; "col_path";
    "col_verdict"; "col_watch"; "faq_heading"; "streaming_heading";
    "footer_text"; "footer_affiliate" ].

Definition ui_ok (ui : json) : bool :=
  scalars ui_keys ui && opt_scalar "filler" ui && opt_scalar "compare_verdict_label" ui.

Definition entry_ok (item : json) : bool :=
  scalars ["num"; "title"; "subtitle"; "type"; "episodes"; "when"; "path"; "verdict"] item
  && opt_scalar "watch_url" item.

Definition path_ok (path : json) : bool :=
  scalars ["icon"; "name"; "subtitle"; "description"; "hours"; "includes"] path.

Definition faq_ok (faq : json) : bool := scalars ["question"; "answer"] faq.

Definition stat_ok (stat : json) : bool := scalars ["label"; "value"] stat.

Definition card_ok (card : json) : bool :=
  scalars ["title"; "subtitle"] card && opt_scalar "color_class" card
  && list_of stat_ok "stats" card.

Definition compare_ok (compare : json) : bool :=
  scalars ["heading"; "intro"; "verdict"] compare && list_of card_ok "cards" compare.

Definition platform_ok (s : json) : bool :=
  scalars ["icon"; "platform"; "url"; "cta"] s && list_of hashable "available" s.

(** A guide with every field the series page reads, each of the kind the
    page needs: texts and numbers where it formats one, lists where it
    loops, dicts where it looks a key up. *)
Definition guide_ok (data : json) : bool :=
  dict_of ui_ok "ui" data
  && scalars ["title"; "meta_title"; "meta_description"; "category_tag"; "intro";
              "quick_answer"] data
  && dict_of (scalars ["series"; "films"; "hours"; "updated"]) "hero" data
  && dict_of (scalars ["content"]) "why_confusing" data
  && list_of path_ok "paths" data
  && dict_of compare_ok "dbz_vs_kai" data
  && list_of entry_ok "timeline" data
  && list_of faq_ok "faq" data
  && list_of platform_ok "streaming" data
  && dict_of (scalars ["title"; "description"; "link_url"; "link_text"]) "manga" data.

(** What the homepage reads of a guide. *)
Definition home_guide_ok (d : json) : bool :=
  scalars ["title"; "category_tag"] d && opt_scalar "emoji" d.




(** The series the text of a data file gives: [json.load], then the two
    languages. *)
Definition parse_series (json_load : string -> result json) (slug text : string)
  : result series :=
  let! raw := json_load text in
  let! en := raw @ "en" in
  let! fr := raw @ "fr" in
  Ok {| s_slug := slug; s_en := en; s_fr := fr |}.

(** The data file of [slug] is there and gives the series [s]. *)
Definition loaded (json_load : string -> result json) (w : world) (slug : string) (s : series)
  : Prop :=
  exists text, w_files w !! data_file slug = Some text /\
               parse_series json_load slug text = Ok s.

(** The sample guide with a films table. *)
Definition sample_guide_films : json :=
  match sample_guide with
  | JObj fields =>
      JObj (fields ++ [("films", JArr [JObj [("title", JStr "Broly"); ("year", JNum 2018);
                                             ("canon", JBool true);
                                             ("placement", JStr "After Super");
                                             ("verdict", JStr "must_watch")]]);
                       ("fillers", JArr [JObj [("arc", JStr "Garlic Jr."); ("episodes", JStr "108-117");
                                               ("verdict", JStr "skip");
                                               ("notes", JStr "Optional")]])])
  | other => other
  end.

(** The sample labels with the two labels of the films table. *)
Definition sample_ui_films : json :=
  match sample_ui with
  | JObj fields => JObj (fields ++ [("yes", JStr "Yes"); ("no", JStr "No")])
  | other => other
  end.

(** A part of an f-string that formats without an exception. *)
Definition part_total (x : part) : Prop :=
  match x with
  | E f => exists s, f = Ok s
  | _ => True
  end.

(** The opening tag of the card of a series on the homepage. *)
Definition card_link (lang slug : string) : string :=
  "<a href=`" +:+ (if String.eqb lang "fr" then "/fr" else EmptyString) +:+ "/" +:+ slug
  +:+ "/` class=`series-card`>".




(** A file system whose second data file holds a list. *)
Definition list_world : world :=
  {| w_files := {[ data_file "dragon-ball" := sample_document;
                   data_file "naruto" := "[]" ]};
     w_stdout := [] |}.

(** The paths a run writes, in order: the two pages of each series, the
    two homepages, the sitemap. *)
Definition output_paths (slugs : list string) : list string :=
  flat_map (fun slug => [slug +:+ "/index.html"; "fr/" +:+ slug +:+ "/index.html"]) slugs
  ++ ["index.html"; "fr/index.html"; "sitemap.xml"].

(** A slug that names one directory of its own below [BASE_DIR] and
    below [BASE_DIR/fr]: made of URL-safe characters (so without [/]),
    not empty, not [.] or [..], and not the name of a file the run writes
    there. *)
Definition plain_slug (slug : string) : bool :=
  url_safe slug
  && negb (existsb (String.eqb slug) [""; "."; ".."; "index.html"; "sitemap.xml"]).

(** [dir] is a directory on the way to [path]. *)
Definition dir_of (dir path : string) : bool := starts_with (dir +:+ "/") path.



(** A JSON-LD block of the head. *)
Definition ld_script (text : string) : string :=
  "<script type=`application/ld+json`>
" +:+ text +:+ "
  </script>".

(** The logo and the language switch of the navigation bar. *)
Definition nav_logo_link (href : string) : string :=
  "<a href=`" +:+ href +:+ "` class=`nav__logo`>".

Definition nav_lang_link (href : string) : string :=
  "<a href=`" +:+ href +:+ "` class=`nav__lang`>".

(** The other of the two languages. *)
Definition other_lang (lang : string) : string :=
  if String.eqb lang "en" then "fr" else "en".

(** The opening tag of a recommended row and of the tag put after its
    title, each up to the name of its class. *)
Definition flag_markers : list string :=
  ["<tr class=`row--recommended"; "<span class=`tag-recommended"].

(** A tag that each block of a section has once: the icon of a path card
    and of a streaming card, the [div] of a FAQ item, the title of a
    comparison card. *)
Definition path_marker : string := "<span class=`path-card__icon".
Definition faq_marker : string := "<div class=`faq-item".
Definition compare_marker : string := "<div class=`compare-card__title".
Definition streaming_marker : string := "<span class=`streaming-card__icon".

(** * Proofs *)

(** ** Strings *)

Lemma str_app_cons (a : ascii) (s t : string) : String a s +:+ t = String a (s +:+ t).
Proof. reflexivity. Qed.

Lemma str_app_nil_l (s : string) : EmptyString +:+ s = s.
Proof. reflexivity. Qed.

Lemma str_app_nil_r (s : string) : s +:+ EmptyString = s.
Proof.
  induction s as [|a s IH]; [reflexivity|].
  now rewrite str_app_cons, IH.
Qed.

Lemma str_app_assoc (s t u : string) : (s +:+ t) +:+ u = s +:+ (t +:+ u).
Proof.
  induction s as [|a s IH]; [reflexivity|].
  now rewrite !str_app_cons, IH.
Qed.

Lemma str_length_app (s t : string) :
  String.length (s +:+ t) = String.length s + String.length t.
Proof.
  induction s as [|a s IH]; [reflexivity|].
  rewrite str_app_cons. simpl. now rewrite IH.
Qed.

Lemma starts_with_nil (s : string) : starts_with EmptyString s = true.
Proof. now destruct s. Qed.

Lemma starts_with_refl (s : string) : starts_with s s = true.
Proof.
  induction s as [|a s IH]; simpl; [reflexivity|].
  now rewrite Ascii.eqb_refl, IH.
Qed.

Lemma starts_with_app (p s : string) : starts_with p (p +:+ s) = true.
Proof.
  induction p as [|a p IH]; [apply starts_with_nil|].
  rewrite str_app_cons. simpl. now rewrite Ascii.eqb_refl, IH.
Qed.

(** A match found inside [u] is still there when text follows [u]. *)
Lemma starts_with_extend (p u t : string) :
  starts_with p u = true -> starts_with p (u +:+ t) = true.
Proof.
  revert u; induction p as [|c p IH]; intros u H; [apply starts_with_nil|].
  destruct u as [|a u]; simpl in H; [discriminate|].
  apply andb_true_iff in H as [H1 H]. rewrite str_app_cons. simpl.
  rewrite H1. now apply IH.
Qed.

Lemma settled_app (p u t : string) :
  settled p u = true -> starts_with p (u +:+ t) = starts_with p u.
Proof.
  unfold settled. revert u; induction p as [|c p IH]; intros u H.
  - now rewrite !starts_with_nil.
  - destruct u as [|a u]; simpl in H; [discriminate|].
    rewrite str_app_cons. simpl.
    destruct (Ascii.eqb c a) eqn:Eca; simpl; [|reflexivity].
    apply IH. rewrite (Ascii.eqb_sym a c), Eca in H. exact H.
Qed.

Lemma clash_app (r l t : string) :
  clash r l = true -> starts_with r (l +:+ t) = false.
Proof.
  unfold clash. revert l; induction r as [|c r IH]; intros l H.
  - now rewrite starts_with_nil in H.
  - destruct l as [|a l]; simpl in H.
    + discriminate.
    + rewrite str_app_cons. simpl.
      destruct (Ascii.eqb c a) eqn:Eca; simpl; [|reflexivity].
      apply IH. rewrite (Ascii.eqb_sym a c), Eca in H. exact H.
Qed.

Lemma tails_clash_reject (q l t : string) :
  tails_clash q l = true -> tails_reject q (l +:+ t).
Proof.
  induction q as [|c q IH]; simpl; [trivial|].
  intros H. apply andb_true_iff in H as [H1 H2].
  split; [now apply (clash_app (String c q)) | now apply IH].
Qed.

(** A field whose text does not start a match cannot complete one in
    the text [x] after it, when [x] rejects every end of the marker. *)
Lemma starts_with_through (q u x : string) :
  starts_with q u = false -> tails_reject q x -> starts_with q (u +:+ x) = false.
Proof.
  revert q; induction u as [|a u IH]; intros q H R.
  - destruct q as [|c q]; [discriminate|]. rewrite str_app_nil_l. apply R.
  - destruct q as [|c q]; [discriminate|]. rewrite str_app_cons. simpl in *.
    destruct (Ascii.eqb c a); simpl in *; [|reflexivity].
    apply IH; [exact H | apply R].
Qed.

Lemma occ_nil (p : string) : p <> EmptyString -> occ p EmptyString = 0.
Proof. destruct p; [congruence | reflexivity]. Qed.

Lemma occ_cons (p : string) (a : ascii) (s : string) :
  occ p (String a s) = (if starts_with p (String a s) then 1 else 0) + occ p s.
Proof. reflexivity. Qed.

(** Literal text that settles every match it starts. *)
Lemma occ_app_lit (p l t : string) :
  p <> EmptyString -> tail_ok p l = true ->
  occ p (l +:+ t) = occ p l + occ p t.
Proof.
  intros Hp. induction l as [|a l IH]; intros H.
  - now rewrite str_app_nil_l, occ_nil.
  - simpl in H. apply andb_true_iff in H as [H1 H2].
    rewrite str_app_cons, !occ_cons, <- str_app_cons.
    rewrite (settled_app _ _ _ H1), (IH H2). lia.
Qed.

(** A field free of the marker, before text that rejects its ends. *)
Lemma occ_app_hole (c : ascii) (p' h x : string) :
  occ (String c p') h = 0 -> tails_reject p' x ->
  occ (String c p') (h +:+ x) = occ (String c p') x.
Proof.
  intros H R. induction h as [|a h IH]; [reflexivity|].
  rewrite occ_cons in H.
  rewrite str_app_cons, occ_cons.
  destruct (starts_with (String c p') (String a h)) eqn:E; [discriminate|].
  rewrite IH by (simpl in H; lia).
  simpl in E |- *.
  destruct (Ascii.eqb c a); simpl in *; [|reflexivity].
  now rewrite (starts_with_through _ _ _ E R).
Qed.

Lemma occ_app_ge_l (p s t : string) : occ p s <= occ p (s +:+ t) + (if starts_with p EmptyString then 1 else 0).
Proof.
  induction s as [|a s IH].
  - rewrite str_app_nil_l. destruct p; simpl; lia.
  - rewrite str_app_cons, !occ_cons, <- str_app_cons.
    destruct (starts_with p (String a s)) eqn:E.
    + rewrite (starts_with_extend _ _ t E). lia.
    + destruct (starts_with p (String a s +:+ t)); lia.
Qed.

Lemma occ_app_ge_r (p s t : string) : occ p t <= occ p (s +:+ t).
Proof.
  induction s as [|a s IH]; [reflexivity|].
  rewrite str_app_cons, occ_cons. lia.
Qed.

(** A text free of the marker has no part that contains it. *)
Lemma occ_infix_free (p a m b : string) :
  p <> EmptyString -> occ p (a +:+ m +:+ b) = 0 -> occ p m = 0.
Proof.
  intros Hp H.
  pose proof (occ_app_ge_r p a (m +:+ b)).
  pose proof (occ_app_ge_l p m b).
  destruct p; [congruence|]. simpl in *. lia.
Qed.

(** A marker starts with [<]: text without that character is free of it. *)
Lemma marker_nonempty (p : string) : marker p -> p <> EmptyString.
Proof. unfold marker. now destruct p. Qed.

Lemma marker_head (p : string) : marker p -> exists p', p = String "<" p'.
Proof.
  unfold marker. destruct p as [|c p]; [discriminate|].
  cbn [starts_with]. rewrite andb_true_r.
  intros H. apply Ascii.eqb_eq in H. subst. now exists p.
Qed.

Lemma occ_no_lt (p s : string) : marker p -> has_char "<" s = false -> occ p s = 0.
Proof.
  intros [p' ->]%marker_head. induction s as [|a s IH]; intros H; [reflexivity|].
  cbn [has_char] in H. apply orb_false_iff in H as [H1 H2].
  rewrite occ_cons, (IH H2). cbn [starts_with].
  rewrite (Ascii.eqb_sym "<" a), H1. reflexivity.
Qed.

Lemma occ_app_no_lt (p s t : string) :
  marker p -> has_char "<" s = false -> occ p (s +:+ t) = occ p t.
Proof.
  intros [p' ->]%marker_head. induction s as [|a s IH]; intros H; [reflexivity|].
  cbn [has_char] in H. apply orb_false_iff in H as [H1 H2].
  rewrite str_app_cons, occ_cons, (IH H2). cbn [starts_with].
  rewrite (Ascii.eqb_sym "<" a), H1. reflexivity.
Qed.

Lemma has_char_app (c : ascii) (s t : string) :
  has_char c (s +:+ t) = has_char c s || has_char c t.
Proof.
  induction s as [|a s IH]; [reflexivity|].
  rewrite str_app_cons. cbn [has_char]. now rewrite IH, orb_assoc.
Qed.

(** ** Segments *)

Lemma flatten_cons (x : seg) (segs : list seg) :
  flatten (x :: segs) = seg_text x +:+ flatten segs.
Proof. reflexivity. Qed.

(** The count of a marker in a flattened template is its count in the
    literals, once the template passes the checks and its fields are
    free of the marker. *)
Theorem occ_flatten (p : string) (segs : list seg) :
  p <> EmptyString -> segs_ok p segs = true -> holes_free p segs ->
  occ p (flatten segs) = lit_occ p segs.
Proof.
  intros Hp. induction segs as [|x segs IH]; intros Hok Hfree.
  - now apply occ_nil.
  - destruct x as [s|h].
    + simpl in Hok. apply andb_true_iff in Hok as [H1 H2].
      rewrite flatten_cons. simpl seg_text. rewrite occ_app_lit by assumption.
      simpl. now rewrite IH.
    + destruct Hfree as [Hh Hfree]. rewrite flatten_cons. simpl seg_text.
      destruct segs as [|[l|h'] segs].
      * simpl. unfold flatten. simpl. now rewrite str_app_nil_r.
      * simpl in Hok. apply andb_true_iff in Hok as [H1 H2].
        destruct p as [|c p']; [congruence|].
        rewrite occ_app_hole; [| exact Hh |].
        -- exact (IH H2 Hfree).
        -- rewrite flatten_cons. simpl seg_text. now apply tails_clash_reject.
      * simpl in Hok. discriminate.
Qed.

(** ** f-strings *)

Lemma fstring_segs (ps : list part) (s : string) :
  fstring ps = Ok s -> exists segs, Forall2 part_seg ps segs /\ s = flatten segs.
Proof.
  revert s; induction ps as [|x ps IH]; intros s H.
  - injection H as <-. exists []. split; [constructor | reflexivity].
  - destruct x as [l|v|f]; simpl in H.
    + destruct (fstring ps) as [r|e]; simpl in H; [|discriminate]. injection H as <-.
      destruct (IH r eq_refl) as (segs & F & ->).
      exists (Lit l :: segs). split; [constructor; [constructor | exact F] | reflexivity].
    + destruct (fstring ps) as [r|e]; simpl in H; [|discriminate]. injection H as <-.
      destruct (IH r eq_refl) as (segs & F & ->).
      exists (Hole v :: segs). split; [constructor; [constructor | exact F] | reflexivity].
    + destruct f as [v|e]; simpl in H; [|discriminate].
      destruct (fstring ps) as [r|e]; simpl in H; [|discriminate]. injection H as <-.
      destruct (IH r eq_refl) as (segs & F & ->).
      exists (Hole v :: segs). split; [constructor; [constructor | exact F] | reflexivity].
Qed.

Lemma parts_segs_ok (p : string) (ps : list part) (segs : list seg) :
  Forall2 part_seg ps segs -> parts_ok p ps = true -> segs_ok p segs = true.
Proof.
  induction 1 as [|x y ps segs Hxy F IH]; intros H; [reflexivity|].
  destruct Hxy; simpl in H |- *.
  - apply andb_true_iff in H as [H1 H2]. now rewrite H1, IH.
  - destruct F as [|x' y' ps' segs' Hxy' F']; [reflexivity|].
    destruct Hxy'; try discriminate.
    apply andb_true_iff in H as [H1 H2]. rewrite H1. now apply IH.
  - destruct F as [|x' y' ps' segs' Hxy' F']; [reflexivity|].
    destruct Hxy'; try discriminate.
    apply andb_true_iff in H as [H1 H2]. rewrite H1. now apply IH.
Qed.

Lemma parts_segs_free (p : string) (ps : list part) (segs : list seg) :
  Forall2 part_seg ps segs -> Forall (part_free p) ps -> holes_free p segs.
Proof.
  induction 1 as [|x y ps segs Hxy F IH]; intros H; [exact I|].
  apply Forall_cons_1 in H as [H1 H2].
  destruct Hxy; simpl in *; auto.
Qed.

Lemma parts_segs_lit_occ (p : string) (ps : list part) (segs : list seg) :
  Forall2 part_seg ps segs -> parts_lit_occ p ps = lit_occ p segs.
Proof.
  induction 1 as [|x y ps segs Hxy F IH]; [reflexivity|].
  destruct Hxy; simpl; now rewrite IH.
Qed.

Theorem fstring_occ (p : string) (ps : list part) (s : string) :
  p <> EmptyString -> parts_ok p ps = true -> Forall (part_free p) ps ->
  fstring ps = Ok s -> occ p s = parts_lit_occ p ps.
Proof.
  intros Hp Hok Hfree H.
  destruct (fstring_segs _ _ H) as (segs & F & ->).
  rewrite (parts_segs_lit_occ p _ _ F).
  apply occ_flatten; eauto using parts_segs_ok, parts_segs_free.
Qed.

(** ** Results *)

Lemma bind_ok {A B : Type} (m : result A) (k : A -> result B) (b : B) :
  bind m k = Ok b -> exists a, m = Ok a /\ k a = Ok b.
Proof. destruct m as [a|e]; simpl; [eauto | discriminate]. Qed.

Ltac bind_inv H :=
  lazymatch type of H with
  | bind _ _ = Ok _ =>
      let a := fresh "v" in
      let E := fresh "Eq" in
      apply bind_ok in H as (a & E & H); cbv beta in H
  end.

Ltac binds_inv H := repeat bind_inv H.

Lemma traverse_ok {A B : Type} (f : A -> result B) (l : list A) (ys : list B) :
  traverse f l = Ok ys -> Forall2 (fun x y => f x = Ok y) l ys.
Proof.
  revert ys; induction l as [|x l IH]; intros ys H; simpl in H.
  - injection H as <-. constructor.
  - bind_inv H. bind_inv H. injection H as <-. constructor; auto.
Qed.

Lemma traverse_from_ok {A B : Type} (f : nat -> A -> result B) (l : list A) :
  forall (i : nat) (ys : list B),
  traverse_from i f l = Ok ys ->
  length ys = length l /\
  forall k y, ys !! k = Some y -> exists x, l !! k = Some x /\ f (i + k) x = Ok y.
Proof.
  induction l as [|x l IH]; intros i ys H; simpl in H.
  - injection H as <-. split; [reflexivity|]. intros k y Hk. destruct k; discriminate.
  - bind_inv H. bind_inv H. injection H as <-.
    destruct (IH _ _ Eq0) as [Hlen Hk]. split; [simpl; now rewrite Hlen|].
    intros [|k] y Hy; simpl in Hy.
    + injection Hy as <-. exists x. split; [reflexivity|]. now rewrite Nat.add_0_r.
    + destruct (Hk k y Hy) as (x' & Hx' & Hf). exists x'. split; [exact Hx'|].
      now rewrite <- Nat.add_succ_comm.
Qed.

Lemma fstring_flatten (ps : list part) (s : string) :
  fstring ps = Ok s -> exists segs, Forall2 part_seg ps segs /\ s = flatten segs.
Proof. apply fstring_segs. Qed.

Lemma part_seg_L (s : string) (y : seg) : part_seg (L s) y -> y = Lit s.
Proof. now inversion 1. Qed.

Lemma part_seg_V (s : string) (y : seg) : part_seg (V s) y -> y = Hole s.
Proof. now inversion 1. Qed.

Lemma part_seg_E (f : result string) (y : seg) :
  part_seg (E f) y -> exists v, f = Ok v /\ y = Hole v.
Proof. inversion 1; eauto. Qed.

(** Turns [H : fstring [...] = Ok s] into an equation for [s], with one
    equation per field. *)
Ltac part_seg_inv :=
  repeat match goal with
  | F : Forall2 part_seg (_ :: _) _ |- _ =>
      let x := fresh "x" in let l := fresh "l" in
      let Hx := fresh "Hx" in let Hl := fresh "Hl" in
      apply Forall2_cons_inv_l in F as (x & l & Hx & Hl & ->);
      lazymatch type of Hx with
      | part_seg (L _) _ => apply part_seg_L in Hx; subst x
      | part_seg (V _) _ => apply part_seg_V in Hx; subst x
      | part_seg (E _) _ =>
          let v := fresh "s" in
          let Hv := fresh "Hf" in
          apply part_seg_E in Hx as (v & Hv & ->)
      end
  | F : Forall2 part_seg [] _ |- _ => apply Forall2_nil_inv_l in F; subst
  end.

Ltac fstring_inv H :=
  let segs := fresh "segs" in
  let F := fresh "F" in
  apply fstring_segs in H as (segs & F & H); part_seg_inv; subst.

(** ** Dicts *)

Lemma has_keys_getitem (keys : list string) (ui : json) (k : string) :
  has_keys keys ui = true -> In k keys -> exists v, ui @ k = Ok v.
Proof.
  destruct ui; try discriminate. simpl. intros H Hk.
  rewrite forallb_forall in H. specialize (H k Hk).
  destruct (dict_lookup k fields); [eauto | discriminate].
Qed.

Lemma mapping_get_outside {A : Type} (mapping : list (string * A)) (key : json) (d : A) :
  outside (map fst mapping) key -> mapping_get mapping key d = Ok d.
Proof.
  intros [Hh Hout]. destruct key; try discriminate; try reflexivity.
  simpl. replace (dict_lookup s mapping) with (@None A); [reflexivity|].
  symmetry. induction mapping as [|[k v] m IH]; [reflexivity|].
  simpl. destruct (String.eqb_spec k s) as [->|Hne].
  - exfalso. apply (Hout s); [now left | reflexivity].
  - apply IH. intros k' Hk'. apply Hout. now right.
Qed.

(** ** Field formatters *)

(** C1 (as amended): for a key outside the closed set, [badge_class] and
    [verdict_class] return the style of the canon and watchable
    categories, while [type_label] and [verdict_label] return the key
    itself, not the label of a default category; no formatter raises
    when [ui] has the labels the formatter reads. *)
Theorem formatters_fallback (key ui : json) :
  has_keys label_keys ui = true ->
  (outside type_keys key ->
     badge_class key = Ok "badge--canon" /\ type_label key ui = Ok key) /\
  (outside verdict_keys key ->
     verdict_class key = Ok "verdict--watchable" /\ verdict_label key ui = Ok key).
Proof.
  intros Hui.
  assert (Hget : forall k, In k label_keys -> exists v, ui @ k = Ok v)
    by (intros k Hk; eapply has_keys_getitem; eauto).
  split; intros Hout.
  - split; [now apply mapping_get_outside|].
    unfold type_label.
    destruct (Hget "canon") as [v1 ->]; [simpl; tauto|].
    destruct (Hget "mixed") as [v2 ->]; [simpl; tauto|].
    destruct (Hget "film_canon") as [v3 ->]; [simpl; tauto|].
    destruct (Hget "non_canon") as [v4 ->]; [simpl; tauto|].
    cbn [bind].
    assert (Hf : exists v5, py_get ui "filler" (JStr "Filler") = Ok v5).
    { destruct ui; try discriminate. simpl. destruct (dict_lookup "filler" fields); eauto. }
    destruct Hf as [v5 ->]. cbn [bind].
    now apply mapping_get_outside.
  - split; [now apply mapping_get_outside|].
    unfold verdict_label.
    destruct (Hget "must_watch") as [v1 ->]; [simpl; tauto|].
    destruct (Hget "watchable") as [v2 ->]; [simpl; tauto|].
    destruct (Hget "skip") as [v3 ->]; [simpl; tauto|].
    cbn [bind].
    now apply mapping_get_outside.
Qed.

Lemma formatters_fallback_witness :
  has_keys label_keys sample_ui = true /\
  outside type_keys (JStr "ova") /\ outside verdict_keys (JStr "ova") /\
  badge_class (JStr "ova") = Ok "badge--canon" /\
  type_label (JStr "ova") sample_ui = Ok (JStr "ova") /\
  verdict_class (JStr "ova") = Ok "verdict--watchable" /\
  verdict_label (JStr "ova") sample_ui = Ok (JStr "ova").
Proof.
  assert (Ht : outside type_keys (JStr "ova")).
  { split; [reflexivity|]. intros k Hk. simpl in Hk.
    repeat (destruct Hk as [<-|Hk]; [discriminate|]). contradiction. }
  assert (Hv : outside verdict_keys (JStr "ova")).
  { split; [reflexivity|]. intros k Hk. simpl in Hk.
    repeat (destruct Hk as [<-|Hk]; [discriminate|]). contradiction. }
  pose proof (formatters_fallback (JStr "ova") sample_ui eq_refl) as [H1 H2].
  destruct (H1 Ht) as [Ha Hb]. destruct (H2 Hv) as [Hc Hd].
  exact (conj eq_refl (conj Ht (conj Hv (conj Ha (conj Hb (conj Hc Hd)))))).
Defined.

(** C1, as stated, fails: on the key ["ova"], which is no verdict and no
    type, the label formatters return ["ova"], and neither the label of
    the watchable verdict nor the label of the canon type. *)
Lemma formatters_label_counterexample :
  verdict_label (JStr "ova") sample_ui = Ok (JStr "ova") /\
  sample_ui @ "watchable" = Ok (JStr "Watchable") /\
  verdict_label (JStr "ova") sample_ui <> sample_ui @ "watchable" /\
  type_label (JStr "ova") sample_ui = Ok (JStr "ova") /\
  sample_ui @ "canon" = Ok (JStr "Canon") /\
  type_label (JStr "ova") sample_ui <> sample_ui @ "canon".
Proof. repeat split; try reflexivity; vm_compute; discriminate. Qed.

(** ** Occurrence as a part *)

Lemma infix_of_app_r (x a t : string) : infix_of x t -> infix_of x (a +:+ t).
Proof.
  intros (u & v & ->). exists (a +:+ u), v. now rewrite str_app_assoc.
Qed.

Lemma infix_of_app_l (x t b : string) : infix_of x t -> infix_of x (t +:+ b).
Proof.
  intros (u & v & ->). exists u, (v +:+ b). now rewrite !str_app_assoc.
Qed.

Lemma infix_of_refl (x : string) : infix_of x x.
Proof. exists EmptyString, EmptyString. now rewrite str_app_nil_r. Qed.

Lemma infix_of_skip (x : string) (s : seg) (segs : list seg) :
  infix_of x (flatten segs) -> infix_of x (flatten (s :: segs)).
Proof. rewrite flatten_cons. apply infix_of_app_r. Qed.

Lemma ends_with_split (x s : string) : ends_with x s = true -> exists a, s = a +:+ x.
Proof.
  induction s as [|c s IH]; cbn [ends_with]; intros H.
  - rewrite orb_false_r in H. apply String.eqb_eq in H. subst. now exists EmptyString.
  - apply orb_true_iff in H as [H|H].
    + apply String.eqb_eq in H. subst. now exists EmptyString.
    + destruct (IH H) as [a ->]. now exists (String c a).
Qed.

Lemma starts_with_split (x s : string) : starts_with x s = true -> exists b, s = x +:+ b.
Proof.
  revert s; induction x as [|c x IH]; intros s H.
  - now exists s.
  - destruct s as [|a s]; [discriminate|]. cbn [starts_with] in H.
    apply andb_true_iff in H as [H1 H2]. apply Ascii.eqb_eq in H1. subst.
    destruct (IH _ H2) as [b ->]. now exists b.
Qed.

(** A field between two literals: the field and the text around it. *)
Lemma infix_of_field (x y h l r : string) (segs : list seg) :
  ends_with x l = true -> starts_with y r = true ->
  infix_of (x +:+ h +:+ y) (flatten (Lit l :: Hole h :: Lit r :: segs)).
Proof.
  intros [a ->]%ends_with_split [b ->]%starts_with_split.
  rewrite !flatten_cons. cbn [seg_text].
  exists a, (b +:+ flatten segs). now rewrite !str_app_assoc.
Qed.

Lemma infix_of_occ (p x t : string) :
  infix_of x t -> occ p x <= occ p t + (if starts_with p EmptyString then 1 else 0).
Proof.
  intros (a & b & ->).
  pose proof (occ_app_ge_r p a (x +:+ b)). pose proof (occ_app_ge_l p x b). lia.
Qed.

(** ** Timeline rows *)

Lemma type_label_known (k : string) (ui v : json) :
  In k ["canon"; "mixed"; "film_canon"; "non_canon"] ->
  type_label (JStr k) ui = Ok v -> ui @ k = Ok v.
Proof.
  intros Hk H. unfold type_label in H. binds_inv H.
  simpl in Hk.
  repeat (destruct Hk as [<-|Hk]; [vm_compute in H; congruence|]). contradiction.
Qed.

Lemma verdict_label_known (k : string) (ui v : json) :
  In k verdict_keys ->
  verdict_label (JStr k) ui = Ok v -> ui @ k = Ok v.
Proof.
  intros Hk H. unfold verdict_label in H. binds_inv H.
  simpl in Hk.
  repeat (destruct Hk as [<-|Hk]; [vm_compute in H; congruence|]). contradiction.
Qed.








(** ** Streaming cards *)

Lemma streaming_card_cta (i : nat) (s : json) (card : string) :
  streaming_card i s = Ok card ->
  exists url cta body,
    fmt (s @ "url") = Ok url /\ fmt (s @ "cta") = Ok cta /\
    card = body +:+ cta_anchor url (cta_extra_class i) cta.
Proof.
  intros H. unfold streaming_card in H. binds_inv H. fstring_inv H.
  eexists _, _, _. split; [eassumption|]. split; [eassumption|].
  unfold cta_anchor, flatten. cbn [map seg_text concat_str].
  rewrite str_app_nil_r.
  replace (if i =? 0 then "streaming-card__cta--primary" else EmptyString)
    with (cta_extra_class i) by now destruct i.
  repeat rewrite <- str_app_assoc. reflexivity.
Qed.

(** C9: the cards of the streaming section are one per platform, in
    order; the CTA anchor of the first carries the class
    [streaming-card__cta--primary], the anchor of every later card
    carries no extra class. *)
Theorem streaming_primary_cta (data ui : json) (html : string) :
  build_streaming_html data ui = Ok html ->
  exists (platforms : list json) (cards : list string),
    (let! streaming := data @ "streaming" in py_iter streaming) = Ok platforms /\
    html = join "
" cards /\
    length cards = length platforms /\
    forall i card, cards !! i = Some card ->
      exists s url cta body,
        platforms !! i = Some s /\
        fmt (s @ "url") = Ok url /\ fmt (s @ "cta") = Ok cta /\
        card = body +:+ cta_anchor url (cta_extra_class i) cta.
Proof.
  intros H. unfold build_streaming_html in H. bind_inv H. injection H as <-.
  unfold streaming_cards_list in Eq. binds_inv Eq.
  destruct (traverse_from_ok _ _ _ _ Eq) as [Hlen Hcards].
  exists v1, v. split; [now rewrite Eq0|]. split; [reflexivity|]. split; [exact Hlen|].
  intros i card Hi. destruct (Hcards i card Hi) as (s & Hs & Hcard).
  destruct (streaming_card_cta _ _ _ Hcard) as (url & cta & body & Hu & Hc & ->).
  now exists s, url, cta, body.
Qed.

Lemma streaming_primary_cta_witness :
  exists html, build_streaming_html sample_guide sample_ui = Ok html /\
  exists cards, html = join "
" cards /\ length cards = 2 /\
    (exists body, cards !! 0 = Some (body +:+ cta_anchor "https://www.crunchyroll.com/"
                                              "streaming-card__cta--primary" "Watch")) /\
    (exists body, cards !! 1 = Some (body +:+ cta_anchor "https://www.netflix.com/"
                                              EmptyString "Watch")).
Proof.
  destruct (build_streaming_html sample_guide sample_ui) as [html|e] eqn:H;
    [|vm_compute in H; discriminate].
  exists html. split; [reflexivity|].
  destruct (streaming_primary_cta _ _ _ H) as (platforms & cards & Hp & -> & Hlen & Hc).
  vm_compute in Hp. injection Hp as <-.
  exists cards. split; [reflexivity|]. split; [exact Hlen|].
  destruct cards as [|c0 [|c1 cards]]; try discriminate.
  split.
  - destruct (Hc 0 c0 eq_refl) as (s & url & cta & body & Hs & Hu & Hct & ->).
    injection Hs as <-. vm_compute in Hu, Hct. injection Hu as <-. injection Hct as <-.
    now exists body.
  - destruct (Hc 1 c1 eq_refl) as (s & url & cta & body & Hs & Hu & Hct & ->).
    injection Hs as <-. vm_compute in Hu, Hct. injection Hu as <-. injection Hct as <-.
    now exists body.
Defined.

(** ** Fields of an f-string in the built text *)

Lemma fstring_cons (x : part) (ps : list part) (s : string) :
  fstring (x :: ps) = Ok s ->
  exists v r, part_seg x (Hole v) \/ x = L v /\ True /\ fstring ps = Ok r /\ s = v +:+ r.
Proof.
  intros H. destruct x as [l|h|f]; cbn [fstring] in H.
  - bind_inv H. injection H as <-. exists l, v. right. auto.
  - bind_inv H. injection H as <-. exists h, v. left. constructor.
  - bind_inv H. bind_inv H. injection H as <-. exists v, v0. left.
    rewrite Eq. constructor.
Qed.

Lemma fstring_tail (x : part) (ps : list part) (s : string) :
  fstring (x :: ps) = Ok s -> exists v r, fstring ps = Ok r /\ s = v +:+ r.
Proof.
  intros H. destruct x as [l|h|f]; cbn [fstring] in H.
  - bind_inv H. injection H as <-. eauto.
  - bind_inv H. injection H as <-. eauto.
  - bind_inv H. bind_inv H. injection H as <-. eauto.
Qed.

Lemma fstring_L (l : string) (ps : list part) (s : string) :
  fstring (L l :: ps) = Ok s -> exists r, fstring ps = Ok r /\ s = l +:+ r.
Proof. intros H. cbn [fstring] in H. bind_inv H. injection H as <-. eauto. Qed.

Lemma fstring_V (h : string) (ps : list part) (s : string) :
  fstring (V h :: ps) = Ok s -> exists r, fstring ps = Ok r /\ s = h +:+ r.
Proof. intros H. cbn [fstring] in H. bind_inv H. injection H as <-. eauto. Qed.

Lemma fstring_field (n : nat) (ps : list part) (s l h r x y : string) :
  fstring ps = Ok s -> field_context n ps = Some (l, h, r) ->
  ends_with x l = true -> starts_with y r = true ->
  infix_of (x +:+ h +:+ y) s.
Proof.
  intros H Hc Hx Hy. revert ps s H Hc; induction n as [|n IH]; intros ps s H Hc.
  - destruct ps as [|[l0| |] [|[|h0|] [|[r0| |] ps]]]; try discriminate.
    injection Hc as -> -> ->.
    apply fstring_L in H as (s1 & H & ->).
    apply fstring_V in H as (s2 & H & ->).
    apply fstring_L in H as (s3 & H & ->).
    apply ends_with_split in Hx as [a ->]. apply starts_with_split in Hy as [b ->].
    exists a, (b +:+ s3). now rewrite !str_app_assoc.
  - destruct ps as [|p ps]; [discriminate|]. cbn [field_context] in Hc.
    apply fstring_tail in H as (v & r' & H & ->).
    apply infix_of_app_r. eapply IH; eauto.
Qed.

Lemma occ_pos_infix (x s : string) : occ x s <> 0 -> infix_of x s.
Proof.
  induction s as [|a s IH]; intros H.
  - destruct x; [apply infix_of_refl | simpl in H; congruence].
  - rewrite occ_cons in H.
    destruct (starts_with x (String a s)) eqn:E.
    + apply starts_with_split in E as [b ->]. exists EmptyString, b. reflexivity.
    + apply (infix_of_app_r x (String a EmptyString) s). apply IH. simpl in H. lia.
Qed.

Lemma fstring_literal_has (x : string) (ps : list part) (s : string) :
  fstring ps = Ok s -> literal_has x ps = true -> infix_of x s.
Proof.
  revert s; induction ps as [|p ps IH]; intros s H Hl; [discriminate|].
  destruct p as [l|h|f]; cbn [literal_has] in Hl.
  - apply fstring_L in H as (r & H & ->).
    apply orb_true_iff in Hl as [Hl|Hl].
    + apply infix_of_app_l, occ_pos_infix. apply negb_true_iff, Nat.eqb_neq in Hl. exact Hl.
    + apply infix_of_app_r. eauto.
  - apply fstring_tail in H as (v & r & H & ->). apply infix_of_app_r. eauto.
  - apply fstring_tail in H as (v & r & H & ->). apply infix_of_app_r. eauto.
Qed.

(** ** The example row *)

Lemma example_row_of_entry (ui : json) (row : string) :
  timeline_row ui sample_entry = Ok row ->
  exists rec canon mw,
    fmt (ui @ "recommended_label") = Ok rec /\
    fmt (ui @ "canon") = Ok canon /\
    fmt (ui @ "must_watch") = Ok mw /\
    row = example_row rec canon mw.
Proof.
  intros H. unfold timeline_row in H.
  change (py_get sample_entry "recommended" JNull) with (Ok (JBool true)) in H.
  change (py_get sample_entry "watch_url" (JStr "#")) with (Ok (JStr "#")) in H.
  cbn [bind py_truthy] in H.
  bind_inv H. bind_inv Eq. injection Eq as <-. fstring_inv Eq0.
  cbn [bind fst snd] in H. fstring_inv H.
  vm_compute in Hf0, Hf1, Hf2, Hf3, Hf5, Hf6, Hf7, Hf8, Hf10.
  injection Hf0 as <-. injection Hf1 as <-. injection Hf2 as <-. injection Hf3 as <-.
  injection Hf5 as <-. injection Hf6 as <-. injection Hf7 as <-. injection Hf8 as <-.
  injection Hf10 as <-.
  change (sample_entry @ "type") with (Ok (JStr "canon")) in Hf4.
  change (sample_entry @ "verdict") with (Ok (JStr "must_watch")) in Hf9.
  cbn [bind] in Hf4, Hf9. unfold fmt in Hf4, Hf9. bind_inv Hf4. bind_inv Hf9.
  apply type_label_known in Eq; [|simpl; tauto].
  apply verdict_label_known in Eq0; [|simpl; tauto].
  exists s, s4, s9. unfold fmt. rewrite Eq, Eq0. cbn [bind].
  split; [assumption|]. split; [assumption|]. split; [assumption|].
  unfold example_row, flatten. cbn [map seg_text concat_str].
  rewrite !str_app_assoc. reflexivity.
Qed.

Lemma flatten_app (a b : list seg) : flatten (a ++ b) = flatten a +:+ flatten b.
Proof.
  induction a as [|x a IH]; [reflexivity|].
  cbn [app]. now rewrite !flatten_cons, IH, str_app_assoc.
Qed.

Lemma flatten_wrap (a b : string) (segs : list seg) :
  a +:+ flatten segs +:+ b = flatten (Lit a :: segs ++ [Lit b]).
Proof.
  rewrite flatten_cons, flatten_app. cbn [seg_text]. f_equal. f_equal.
  unfold flatten. cbn [map seg_text concat_str]. now rewrite str_app_nil_r.
Qed.

(** C7: for a guide whose timeline is the example entry, the body of the
    timeline table of the English page is exactly one row, the row of
    that entry: it has class [row--recommended], the recommended tag, a
    badge of class [badge--canon] and a verdict of class
    [verdict--must-watch] whose text is [ui["must_watch"]]. *)
Theorem example_row_rendered (slug : string) (data : json) (html : string) :
  data @ "timeline" = Ok (JArr [sample_entry]) ->
  generate_series_page slug data "en" = Ok html ->
  exists ui rec canon mw,
    data @ "ui" = Ok ui /\
    fmt (ui @ "recommended_label") = Ok rec /\
    fmt (ui @ "canon") = Ok canon /\
    fmt (ui @ "must_watch") = Ok mw /\
    timeline_rows_list data ui = Ok [example_row rec canon mw] /\
    infix_of (timeline_tbody (example_row rec canon mw)) html /\
    (occ "<tr" rec = 0 -> occ "<tr" canon = 0 -> occ "<tr" mw = 0 ->
     occ "<tr" (timeline_tbody (example_row rec canon mw)) = 1).
Proof.
  intros Htl H. unfold generate_series_page in H. binds_inv H.
  pose proof Eq3 as Hrows. unfold build_timeline_rows in Hrows. bind_inv Hrows.
  injection Hrows as <-.
  pose proof Eq8 as Hlist. unfold timeline_rows_list in Hlist.
  rewrite Htl in Hlist. cbn [bind py_iter traverse] in Hlist.
  bind_inv Hlist. injection Hlist as <-.
  destruct (example_row_of_entry _ _ Eq9) as (rec & canon & mw & Hr & Hc & Hm & ->).
  exists v, rec, canon, mw. do 5 (split; [assumption|]). split.
  - unfold timeline_tbody.
    eapply (fstring_field 86); [exact H | reflexivity | vm_compute; reflexivity
                               | vm_compute; reflexivity].
  - intros Fr Fc Fm. unfold timeline_tbody, example_row.
    rewrite flatten_wrap. cbn [app].
    rewrite occ_flatten; [reflexivity | discriminate | vm_compute; reflexivity |].
    cbn [holes_free]. auto.
Qed.

Lemma example_row_rendered_witness :
  exists html,
    generate_series_page "dragon-ball" sample_guide "en" = Ok html /\
    infix_of (timeline_tbody (example_row "Recommended" "Canon" "Must Watch")) html /\
    occ "<tr" (timeline_tbody (example_row "Recommended" "Canon" "Must Watch")) = 1.
Proof.
  destruct (generate_series_page "dragon-ball" sample_guide "en") as [html|e] eqn:H;
    [|vm_compute in H; discriminate].
  exists html. split; [reflexivity|].
  destruct (example_row_rendered "dragon-ball" sample_guide html eq_refl H)
    as (ui & rec & canon & mw & Hui & Hr & Hc & Hm & _ & Hin & Hocc).
  vm_compute in Hui. injection Hui as <-.
  vm_compute in Hr, Hc, Hm. injection Hr as <-. injection Hc as <-. injection Hm as <-.
  split; [exact Hin | apply Hocc; reflexivity].
Defined.

(** ** Head snippets *)

Lemma in_head_occ (x html : string) : x <> EmptyString -> in_head x html -> occ x html <> 0.
Proof.
  intros Hx (a & b & c & -> & _ & _).
  assert (H1 : occ x (x +:+ c) <> 0).
  { destruct x as [|ch x]; [congruence|].
    rewrite str_app_cons, occ_cons, <- str_app_cons, starts_with_app. lia. }
  pose proof (occ_app_ge_r x b (x +:+ c)).
  pose proof (occ_app_ge_r x "<head>" (b +:+ x +:+ c)).
  pose proof (occ_app_ge_r x a ("<head>" +:+ b +:+ x +:+ c)).
  lia.
Qed.

Lemma series_page_gtm (slug : string) (data : json) (lang html : string) :
  In lang ["en"; "fr"] ->
  generate_series_page slug data lang = Ok html -> in_head GTM_HEAD html.
Proof.
  intros Hlang H. unfold generate_series_page in H. binds_inv H.
  apply fstring_L in H as (r0 & H & ->). apply fstring_V in H as (r1 & H & ->).
  apply fstring_L in H as (r2 & H & ->). apply fstring_V in H as (r3 & H & ->).
  exists ("<!DOCTYPE html>
<html lang=`" +:+ lang +:+ "`>
"), "
  <meta charset=`UTF-8`>
  ", r3.
  split; [|split].
  - rewrite !str_app_assoc. reflexivity.
  - simpl in Hlang. destruct Hlang as [<-|[<-|[]]]; vm_compute; reflexivity.
  - eapply fstring_literal_has; [exact H | vm_compute; reflexivity].
Qed.

Lemma homepage_snippets (lang : string) (series_list : list series) (html : string) :
  In lang ["en"; "fr"] ->
  generate_homepage lang series_list = Ok html ->
  in_head GTM_HEAD html /\ in_head GOOGLE_SITE_VERIFICATION html.
Proof.
  intros Hlang H. unfold generate_homepage in H. binds_inv H.
  apply fstring_L in H as (r0 & H & ->). apply fstring_V in H as (r1 & H & ->).
  apply fstring_L in H as (r2 & H & ->). apply fstring_V in H as (r3 & H & ->).
  split.
  - exists ("<!DOCTYPE html>
<html lang=`" +:+ lang +:+ "`>
"), "
  <meta charset=`UTF-8`>
  ", r3.
    split; [|split].
    + rewrite !str_app_assoc. reflexivity.
    + simpl in Hlang. destruct Hlang as [<-|[<-|[]]]; vm_compute; reflexivity.
    + eapply fstring_literal_has; [exact H | vm_compute; reflexivity].
  - apply fstring_L in H as (r4 & H & ->). apply fstring_V in H as (r5 & H & ->).
    exists ("<!DOCTYPE html>
<html lang=`" +:+ lang +:+ "`>
"), ("
  <meta charset=`UTF-8`>
  " +:+ GTM_HEAD +:+ "
  "), r5.
    split; [|split].
    + rewrite !str_app_assoc. reflexivity.
    + simpl in Hlang. destruct Hlang as [<-|[<-|[]]]; vm_compute; reflexivity.
    + eapply fstring_literal_has; [exact H | vm_compute; reflexivity].
Qed.

(** C2 (as amended): the analytics bootstrap script stands in the head
    of every series page and of both homepages; the site-verification
    meta tag stands in the head of both homepages.  The template of the
    series page does not have the verification tag. *)
Theorem head_snippets :
  (forall slug data lang html,
     In lang ["en"; "fr"] ->
     generate_series_page slug data lang = Ok html -> in_head GTM_HEAD html) /\
  (forall lang series_list html,
     In lang ["en"; "fr"] ->
     generate_homepage lang series_list = Ok html ->
     in_head GTM_HEAD html /\ in_head GOOGLE_SITE_VERIFICATION html).
Proof.
  split.
  - apply series_page_gtm.
  - apply homepage_snippets.
Qed.

Lemma head_snippets_witness :
  (exists html, generate_series_page "naruto" sample_guide "fr" = Ok html /\
                in_head GTM_HEAD html) /\
  (exists html, generate_homepage "fr" [sample_series "dragon-ball"; sample_series "naruto"]
                = Ok html /\
                in_head GTM_HEAD html /\ in_head GOOGLE_SITE_VERIFICATION html).
Proof.
  destruct head_snippets as [Hs Hh]. split.
  - destruct (generate_series_page "naruto" sample_guide "fr") as [html|e] eqn:H;
      [|vm_compute in H; discriminate].
    exists html. split; [reflexivity|]. apply (Hs "naruto" sample_guide "fr"); [|exact H].
    simpl. tauto.
  - destruct (generate_homepage "fr" [sample_series "dragon-ball"; sample_series "naruto"])
      as [html|e] eqn:H; [|vm_compute in H; discriminate].
    exists html. split; [reflexivity|]. eapply (Hh "fr"); [|exact H].
    simpl. tauto.
Defined.

(** C2, as stated, fails: the English page of the sample guide has no
    site-verification meta tag, in its head or anywhere else. *)
Lemma series_page_verification_counterexample :
  exists html,
    generate_series_page "dragon-ball" sample_guide "en" = Ok html /\
    occ GOOGLE_SITE_VERIFICATION html = 0 /\
    ~ in_head GOOGLE_SITE_VERIFICATION html.
Proof.
  destruct (generate_series_page "dragon-ball" sample_guide "en") as [html|e] eqn:H;
    [|vm_compute in H; discriminate].
  exists html. split; [reflexivity|].
  assert (Hocc : occ GOOGLE_SITE_VERIFICATION html = 0).
  { revert H. vm_compute. intros H. injection H as <-. reflexivity. }
  split; [exact Hocc|].
  intros Hin. apply in_head_occ in Hin; [congruence | discriminate].
Qed.

(** ** Templates followed by text *)

Lemma segs_closed_ok (p : string) (segs : list seg) :
  segs_closed p segs = true -> segs_ok p segs = true.
Proof.
  induction segs as [|[s|h] segs IH]; cbn [segs_closed segs_ok]; intros H.
  - reflexivity.
  - apply andb_true_iff in H as [H1 H2]. now rewrite H1, IH.
  - destruct segs as [|[l|h'] segs]; try discriminate.
    apply andb_true_iff in H as [H1 H2]. now rewrite H1, IH.
Qed.

Theorem occ_flatten_app (p : string) (segs : list seg) (t : string) :
  p <> EmptyString -> segs_closed p segs = true -> holes_free p segs ->
  occ p (flatten segs +:+ t) = lit_occ p segs + occ p t.
Proof.
  intros Hp. induction segs as [|x segs IH]; intros Hok Hfree; [reflexivity|].
  destruct x as [s|h].
  - cbn [segs_closed] in Hok. apply andb_true_iff in Hok as [H1 H2].
    rewrite flatten_cons. cbn [seg_text lit_occ].
    rewrite str_app_assoc, occ_app_lit, IH by assumption. lia.
  - destruct Hfree as [Hh Hfree]. cbn [segs_closed] in Hok.
    destruct segs as [|[l|h'] segs]; try discriminate.
    apply andb_true_iff in Hok as [H1 H2].
    rewrite flatten_cons. cbn [seg_text lit_occ].
    destruct p as [|c p']; [congruence|].
    rewrite str_app_assoc, occ_app_hole; [exact (IH H2 Hfree) | exact Hh |].
    rewrite flatten_cons, str_app_assoc. cbn [seg_text]. now apply tails_clash_reject.
Qed.

Lemma join_cons2 (sep x y : string) (l : list string) :
  join sep (x :: y :: l) = x +:+ sep +:+ join sep (y :: l).
Proof. reflexivity. Qed.

(** Elements that each bring [k] occurrences, joined by a separator that
    brings none. *)
Lemma occ_join (p sep : string) (k : nat) (l : list string) (t : string) :
  (forall u, occ p (sep +:+ u) = occ p u) ->
  Forall (fun e => forall u, occ p (e +:+ u) = k + occ p u) l ->
  occ p (join sep l +:+ t) = k * length l + occ p t.
Proof.
  intros Hsep. induction 1 as [|e l He Hl IH].
  { cbn [join length]. rewrite str_app_nil_l. lia. }
  destruct l as [|e' l].
  - cbn [join length]. rewrite He. lia.
  - rewrite join_cons2, !str_app_assoc, He, Hsep, IH. cbn [length]. lia.
Qed.


(** ** Sitemap *)

Lemma url_safe_no_lt (s : string) : url_safe s = true -> has_char "<" s = false.
Proof.
  induction s as [|c s IH]; [reflexivity|]. cbn [url_safe has_char].
  intros H. apply andb_true_iff in H as [H1 H2]. rewrite (IH H2), orb_false_r.
  destruct (Ascii.eqb_spec c "<") as [->|]; [discriminate | reflexivity].
Qed.

Lemma sitemap_structure (slugs : list string) :
  generate_sitemap slugs = sitemap_of_blocks (sitemap_blocks slugs).
Proof.
  unfold generate_sitemap, sitemap_of_blocks, flatten. cbn [map seg_text concat_str].
  rewrite str_app_nil_r. f_equal. f_equal.
  unfold sitemap_blocks. induction (sitemap_urls slugs) as [|[en fr] urls IH]; [reflexivity|].
  cbn [map flat_map app fst snd].
  assert (He : sitemap_entry (en, fr)
               = url_block en en fr "1.0" +:+ "
" +:+ url_block fr en fr "0.9").
  { unfold sitemap_entry, url_block, alternate_link, flatten.
    cbn [map seg_text concat_str fst snd]. rewrite !str_app_assoc. reflexivity. }
  rewrite He. destruct urls as [|u urls]; [reflexivity|].
  cbn [map] in IH |- *. rewrite join_cons2, IH.
  cbn [flat_map app fst snd]. rewrite !join_cons2, !str_app_assoc. reflexivity.
Qed.

Section SitemapCount.

(** A marker [p] of which every pair of entries has [k] occurrences, and
    the text around the entries none. *)
Variable p : string.
Variable k : nat.
Hypothesis p_marker : marker p.
Hypothesis entry_count :
  forall en fr t, occ p en = 0 -> occ p fr = 0 ->
    occ p (sitemap_entry (en, fr) +:+ t) = k + occ p t.
Hypothesis header_free :
  forall u, occ p ("<?xml version=`1.0` encoding=`UTF-8`?>
<urlset xmlns=`http://www.sitemaps.org/schemas/sitemap/0.9`
        xmlns:xhtml=`http://www.w3.org/1999/xhtml`>
" +:+ u) = occ p u.
Hypothesis footer_free : occ p ("
</urlset>" +:+ EmptyString) = 0.

Lemma sitemap_url_free (slug : string) :
  url_safe slug = true ->
  occ p (SITE_URL +:+ "/" +:+ slug +:+ "/") = 0 /\
  occ p (SITE_URL +:+ "/fr/" +:+ slug +:+ "/") = 0.
Proof.
  intros Hs%url_safe_no_lt.
  split; apply occ_no_lt; try exact p_marker;
    rewrite !has_char_app, Hs; reflexivity.
Qed.

Lemma sitemap_occ (slugs : list string) :
  Forall (fun s => url_safe s = true) slugs ->
  occ p (generate_sitemap slugs) = k * (length slugs + 1).
Proof.
  intros Hsafe. unfold generate_sitemap, flatten. cbn [map seg_text concat_str].
  rewrite header_free, (occ_join p _ k).
  - rewrite footer_free, length_map. unfold sitemap_urls. cbn [length].
    rewrite length_map. lia.
  - intros u. apply occ_app_no_lt; [exact p_marker | reflexivity].
  - apply Forall_map. unfold sitemap_urls. constructor.
    + intros u. apply entry_count; apply occ_no_lt; try exact p_marker; reflexivity.
    + apply Forall_map. eapply Forall_impl; [exact Hsafe|].
      intros slug Hs u. cbn beta. destruct (sitemap_url_free slug Hs).
      now apply entry_count.
Qed.

End SitemapCount.

Ltac sitemap_marker :=
  apply sitemap_occ;
  [ reflexivity
  | intros en fr t Hen Hfr; unfold sitemap_entry; cbn [fst snd];
    rewrite occ_flatten_app;
    [ reflexivity | discriminate | vm_compute; reflexivity | cbn [holes_free]; tauto ]
  | intros u; apply occ_app_lit; [discriminate | vm_compute; reflexivity]
  | vm_compute; reflexivity
  | assumption ].

(** The URL pairs of the generator are the English and the French URL
    of the pages of the site, in order. *)
Lemma sitemap_urls_pages (slugs : list string) :
  sitemap_urls slugs = map (fun p => (page_url "en" p, page_url "fr" p)) (site_pages slugs).
Proof.
  unfold sitemap_urls, site_pages. cbn [map page_url]. rewrite map_map. reflexivity.
Qed.

Lemma sitemap_blocks_expected (slugs : list string) :
  sitemap_blocks slugs = expected_entries slugs.
Proof.
  unfold sitemap_blocks, expected_entries. rewrite sitemap_urls_pages.
  induction (site_pages slugs) as [|p pages IH]; [reflexivity|].
  cbn [map flat_map fst snd]. now rewrite IH.
Qed.

(** C6: the sitemap is made of the entries owed to the pages of the
    site, the homepage first and then each series in the order of the
    list: for each page the entry at its English URL, then the entry at
    its French URL, [2 * (n + 1)] entries in all; each entry has the
    three alternate links [en], [fr] and [x-default], and its
    [x-default] link is the English URL of the page, which is the
    canonical URL of the English page and never the French one.  For
    URL-safe slugs these are the only [<url>] elements and alternate
    links of the text. *)
Theorem sitemap_entries (slugs : list string) :
  generate_sitemap slugs = sitemap_of_blocks (expected_entries slugs) /\
  length (expected_entries slugs) = 2 * (length slugs + 1) /\
  (Forall (fun s => url_safe s = true) slugs ->
   occ "<url>" (generate_sitemap slugs) = 2 * (length slugs + 1) /\
   occ "<xhtml:link rel=`alternate` hreflang=" (generate_sitemap slugs)
     = 6 * (length slugs + 1) /\
   occ "<xhtml:link rel=`alternate` hreflang=`en` href=" (generate_sitemap slugs)
     = 2 * (length slugs + 1) /\
   occ "<xhtml:link rel=`alternate` hreflang=`fr` href=" (generate_sitemap slugs)
     = 2 * (length slugs + 1) /\
   occ "<xhtml:link rel=`alternate` hreflang=`x-default` href=" (generate_sitemap slugs)
     = 2 * (length slugs + 1)).
Proof.
  split; [now rewrite sitemap_structure, sitemap_blocks_expected|].
  split.
  { unfold expected_entries, site_pages. cbn [flat_map page_entries app length].
    induction slugs as [|s slugs IH]; [reflexivity|].
    cbn [map flat_map page_entries app length]. rewrite IH. lia. }
  intros Hsafe.
  split; [sitemap_marker|]. split; [sitemap_marker|]. split; [sitemap_marker|].
  split; sitemap_marker.
Qed.

(** The configured list: six entries, each with the English URL of its
    page as [x-default]. *)
Lemma sitemap_entries_witness :
  generate_sitemap ["dragon-ball"; "naruto"]
  = sitemap_of_blocks
      [ url_block "https://animewatchorder.com/"
          "https://animewatchorder.com/" "https://animewatchorder.com/fr/" "1.0";
        url_block "https://animewatchorder.com/fr/"
          "https://animewatchorder.com/" "https://animewatchorder.com/fr/" "0.9";
        url_block "https://animewatchorder.com/dragon-ball/"
          "https://animewatchorder.com/dragon-ball/"
          "https://animewatchorder.com/fr/dragon-ball/" "1.0";
        url_block "https://animewatchorder.com/fr/dragon-ball/"
          "https://animewatchorder.com/dragon-ball/"
          "https://animewatchorder.com/fr/dragon-ball/" "0.9";
        url_block "https://animewatchorder.com/naruto/"
          "https://animewatchorder.com/naruto/"
          "https://animewatchorder.com/fr/naruto/" "1.0";
        url_block "https://animewatchorder.com/fr/naruto/"
          "https://animewatchorder.com/naruto/"
          "https://animewatchorder.com/fr/naruto/" "0.9" ] /\
  Forall (fun s => url_safe s = true) ["dragon-ball"; "naruto"] /\
  occ "<url>" (generate_sitemap ["dragon-ball"; "naruto"]) = 6 /\
  occ "<xhtml:link rel=`alternate` hreflang=`x-default` href=" 
      (generate_sitemap ["dragon-ball"; "naruto"]) = 6.
Proof.
  assert (Hs : Forall (fun s => url_safe s = true) ["dragon-ball"; "naruto"])
    by (repeat constructor).
  destruct (sitemap_entries ["dragon-ball"; "naruto"]) as (H1 & _ & H3).
  destruct (H3 Hs) as (H4 & _ & _ & _ & H5).
  split; [exact H1|]. split; [exact Hs|]. split; [exact H4 | exact H5].
Defined.

(** ** JSON text: reading back what [dumps] writes *)

(** Induction on documents, with the hypothesis for every element. *)
Lemma json_induction (P : json -> Prop) :
  P JNull -> (forall b, P (JBool b)) -> (forall n, P (JNum n)) -> (forall s, P (JStr s)) ->
  (forall items, Forall P items -> P (JArr items)) ->
  (forall fields, Forall (fun kv => P (snd kv)) fields -> P (JObj fields)) ->
  (forall x, P (JFloat x)) ->
  forall v, P v.
Proof.
  intros Hnull Hbool Hnum Hstr Harr Hobj Hfloat.
  fix IH 1. intros [| b | n | s | items | fields | x].
  - exact Hnull.
  - apply Hbool.
  - apply Hnum.
  - apply Hstr.
  - apply Harr. induction items as [|x items IHl]; constructor; [apply IH | exact IHl].
  - apply Hobj. induction fields as [|[k x] fields IHl]; constructor; [apply IH | exact IHl].
  - apply Hfloat.
Qed.

(** What holds of the finite elements holds of all of them, in a list
    that is finite. *)
Lemma Forall_finite {A : Type} (f : A -> json) (P : json -> Prop) (l : list A) :
  Forall (fun a => finite (f a) = true -> P (f a)) l ->
  forallb (fun a => finite (f a)) l = true -> Forall (fun a => P (f a)) l.
Proof.
  induction 1 as [|a l Ha Hl IH]; intros Hfin; [constructor|].
  cbn [forallb] in Hfin. apply andb_prop in Hfin as [H1 H2].
  constructor; [exact (Ha H1) | exact (IH H2)].
Qed.

Lemma read_string_escape_char (c : ascii) (t : string) :
  read_string (escape_char c +:+ t) =
  match read_string t with
  | Some (s, r) => Some (String c s, r)
  | None => None
  end.
Proof. destruct c as [[] [] [] [] [] [] [] []]; reflexivity. Qed.

Lemma read_string_escape (s rest : string) :
  read_string (escape s +:+ String dquote rest) = Some (s, rest).
Proof.
  induction s as [|c s IH]; [reflexivity|].
  cbn [escape]. now rewrite str_app_assoc, read_string_escape_char, IH.
Qed.

Lemma skip_ws_spaces (n : nat) (t : string) : skip_ws (repeat_str " " n +:+ t) = skip_ws t.
Proof. induction n as [|n IH]; [reflexivity | exact IH]. Qed.

Lemma skip_ws_indent (level : nat) (t : string) :
  skip_ws (newline_indent level +:+ t) = skip_ws t.
Proof. unfold newline_indent. rewrite str_app_cons. exact (skip_ws_spaces _ t). Qed.

Lemma skip_ws_idem (s : string) : skip_ws (skip_ws s) = skip_ws s.
Proof.
  induction s as [|c s IH]; [reflexivity|].
  cbn [skip_ws]. destruct (is_ws c) eqn:E; [exact IH|].
  cbn [skip_ws]. now rewrite E.
Qed.

Lemma read_value_skip (fuel : nat) (s : string) :
  read_value fuel (skip_ws s) = read_value fuel s.
Proof. destruct fuel; [reflexivity|]. cbn [read_value]. now rewrite skip_ws_idem. Qed.

Lemma read_value_ws (fuel : nat) (s t : string) :
  skip_ws s = skip_ws t -> read_value fuel s = read_value fuel t.
Proof. intros H. now rewrite <- (read_value_skip fuel s), H, read_value_skip. Qed.

(** *** Numbers *)

Lemma digit_val_char (d : nat) : d < 10 -> digit_val (digit_char d) = Some d.
Proof.
  intros H. do 10 (destruct d as [|d]; [reflexivity|]). lia.
Qed.

Lemma read_digits_uint (u : Decimal.uint) (rest : string) :
  no_digit_head rest -> read_digits (uint_str u +:+ rest) = (u, rest).
Proof.
  intros Hr. induction u; cbn [uint_str];
    try (rewrite str_app_cons; cbn [read_digits];
         rewrite digit_val_char by lia; rewrite IHu; reflexivity).
  rewrite str_app_nil_l. destruct rest as [|c rest]; [reflexivity|].
  cbn [read_digits]. cbn in Hr. now rewrite Hr.
Qed.

Lemma pos_to_uint_unorm (p : positive) : Decimal.unorm (Pos.to_uint p) = Pos.to_uint p.
Proof.
  rewrite <- (DecimalPos.Unsigned.to_of (Pos.to_uint p)).
  now rewrite DecimalPos.Unsigned.of_to.
Qed.

Lemma nzhead_digits (u : Decimal.uint) :
  Decimal.nb_digits (Decimal.nzhead u) <= Decimal.nb_digits u.
Proof. induction u; simpl; lia. Qed.

Lemma unorm_canonical (u : Decimal.uint) :
  Decimal.unorm u = u -> canonical_digits u = true.
Proof.
  destruct u; try reflexivity.
  - discriminate.
  - intros H. unfold Decimal.unorm in H. cbn [Decimal.nzhead] in H.
    pose proof (nzhead_digits u) as Hn.
    destruct (Decimal.nzhead u) eqn:E; try discriminate.
    + injection H as <-. reflexivity.
    + injection H as ->. simpl in Hn. lia.
Qed.

Lemma pos_to_uint_canonical (p : positive) : canonical_digits (Pos.to_uint p) = true.
Proof. apply unorm_canonical, pos_to_uint_unorm. Qed.

Lemma uint_str_head (u : Decimal.uint) :
  u <> Decimal.Nil -> exists c s, uint_str u = String c s /\ digit_val c <> None.
Proof.
  destruct u; [congruence| | | | | | | | | |]; intros _; cbn [uint_str];
    eexists _, _; (split; [reflexivity | discriminate]).
Qed.

Lemma read_number_str (n : Z) (rest : string) :
  no_digit_head rest -> read_number (str_of_Z n +:+ rest) = Some (n, rest).
Proof.
  intros Hr. unfold str_of_Z.
  assert (Hcanon : match Z.to_int n with
                   | Decimal.Pos d | Decimal.Neg d => canonical_digits d = true
                   end).
  { destruct n; cbn; [reflexivity | apply pos_to_uint_canonical
                                  | apply pos_to_uint_canonical]. }
  pose proof (DecimalZ.of_to n) as Hof.
  destruct (Z.to_int n) as [d|d]; unfold read_number.
  - assert (Hd : d <> Decimal.Nil) by (destruct d; [discriminate | congruence ..]).
    destruct (uint_str_head d Hd) as (c & s & Hs & Hc).
    assert (Hneg : starts_with "-" (uint_str d +:+ rest) = false).
    { rewrite Hs, str_app_cons. cbn [starts_with].
      destruct (Ascii.eqb_spec "-" c) as [<-|]; [now destruct Hc | reflexivity]. }
    rewrite Hneg. cbv zeta. rewrite read_digits_uint by assumption.
    cbn [fst snd]. now rewrite Hcanon, Hof.
  - rewrite str_app_cons, str_app_nil_l, str_app_cons. cbn [starts_with string_drop].
    rewrite Ascii.eqb_refl. cbn [andb]. cbv zeta.
    rewrite read_digits_uint by assumption. cbn [fst snd]. now rewrite Hcanon, Hof.
Qed.

(** *** Values *)

Lemma read_value_null (f : nat) (rest : string) :
  read_value (S f) ("null" +:+ rest) = Some (JNull, rest).
Proof. reflexivity. Qed.

Lemma read_value_true (f : nat) (rest : string) :
  read_value (S f) ("true" +:+ rest) = Some (JBool true, rest).
Proof. reflexivity. Qed.

Lemma read_value_false (f : nat) (rest : string) :
  read_value (S f) ("false" +:+ rest) = Some (JBool false, rest).
Proof. reflexivity. Qed.

Lemma read_value_string (f : nat) (t : string) :
  read_value (S f) (String dquote t) =
  match read_string t with
  | Some (s, r) => Some (JStr s, r)
  | None => None
  end.
Proof. reflexivity. Qed.

Lemma read_value_number (f : nat) (c : ascii) (t : string) :
  number_head c = true ->
  read_value (S f) (String c t) =
  match read_number (String c t) with
  | Some (n, r) => Some (JNum n, r)
  | None => None
  end.
Proof.
  intros H. destruct c as [[] [] [] [] [] [] [] []];
    try reflexivity; vm_compute in H; discriminate.
Qed.

Lemma read_value_empty_list (f : nat) (rest : string) :
  read_value (S f) ("[]" +:+ rest) = Some (JArr [], rest).
Proof. reflexivity. Qed.

Lemma read_value_empty_dict (f : nat) (rest : string) :
  read_value (S f) ("{}" +:+ rest) = Some (JObj [], rest).
Proof. reflexivity. Qed.

Lemma read_value_list (f : nat) (t : string) (c : ascii) (t' : string) :
  skip_ws t = String c t' -> value_head c = true ->
  read_value (S f) (String "[" t) =
  match read_items f t with
  | Some (items, r) => Some (JArr items, r)
  | None => None
  end.
Proof.
  intros Hs Hc.
  change (read_value (S f) (String "[" t))
    with (match skip_ws t with
          | String "]" r => Some (JArr [], r)
          | _ => match read_items f t with
                 | Some (items, r) => Some (JArr items, r)
                 | None => None
                 end
          end).
  rewrite Hs. destruct c as [[] [] [] [] [] [] [] []]; try reflexivity.
  vm_compute in Hc. discriminate.
Qed.

Lemma read_value_dict (f : nat) (t : string) (c : ascii) (t' : string) :
  skip_ws t = String c t' -> value_head c = true ->
  read_value (S f) (String "{" t) =
  match read_members f t with
  | Some (fields, r) => Some (JObj fields, r)
  | None => None
  end.
Proof.
  intros Hs Hc.
  change (read_value (S f) (String "{" t))
    with (match skip_ws t with
          | String "}" r => Some (JObj [], r)
          | _ => match read_members f t with
                 | Some (fields, r) => Some (JObj fields, r)
                 | None => None
                 end
          end).
  rewrite Hs. destruct c as [[] [] [] [] [] [] [] []]; try reflexivity.
  vm_compute in Hc. discriminate.
Qed.

Lemma read_items_step (f : nat) (s : string) :
  read_items (S f) s =
  match read_value f s with
  | Some (v, r) =>
      match skip_ws r with
      | String "," r' =>
          match read_items f r' with
          | Some (vs, r'') => Some (v :: vs, r'')
          | None => None
          end
      | String "]" r' => Some ([v], r')
      | _ => None
      end
  | None => None
  end.
Proof. reflexivity. Qed.

Lemma read_members_step (f : nat) (k : string) (t : string) :
  read_members (S f) (String dquote t) =
  match read_string t with
  | Some (k, r) =>
      match skip_ws r with
      | String ":" r1 =>
          match read_value f r1 with
          | Some (v, r2) =>
              match skip_ws r2 with
              | String "," r3 =>
                  match read_members f r3 with
                  | Some (kvs, r4) => Some ((k, v) :: kvs, r4)
                  | None => None
                  end
              | String "}" r3 => Some ([(k, v)], r3)
              | _ => None
              end
          | None => None
          end
      | _ => None
      end
  | None => None
  end.
Proof. reflexivity. Qed.

Lemma read_members_skip (f : nat) (s : string) :
  read_members f (skip_ws s) = read_members f s.
Proof. destruct f; [reflexivity|]. cbn [read_members]. now rewrite skip_ws_idem. Qed.

Lemma str_of_Z_head (n : Z) :
  exists c s, str_of_Z n = String c s /\ number_head c = true.
Proof.
  unfold str_of_Z. destruct (Z.to_int n) as [d|d] eqn:E.
  - assert (Hd : d <> Decimal.Nil).
    { destruct n; unfold Z.to_int in E; try discriminate; injection E as <-.
      - discriminate.
      - apply DecimalPos.Unsigned.to_uint_nonnil. }
    destruct (uint_str_head d Hd) as (c & s & -> & Hc). exists c, s.
    split; [reflexivity|]. unfold number_head. now destruct (digit_val c).
  - eexists _, _. split; [reflexivity | reflexivity].
Qed.

Lemma dumps_head (level : nat) (v : json) :
  exists c s, dumps level v = String c s /\ value_head c = true.
Proof.
  destruct v as [|[]|n|s|[|x items]|[|kv fields]|[]]; cbn [dumps];
    try (eexists _, _; split; reflexivity).
  destruct (str_of_Z_head n) as (c & s & -> & Hc). exists c, s. split; [reflexivity|].
  destruct c as [[] [] [] [] [] [] [] []]; try reflexivity; vm_compute in Hc; discriminate.
Qed.

Lemma skip_ws_dumps (level : nat) (v : json) (t : string) :
  skip_ws (dumps level v +:+ t) = dumps level v +:+ t.
Proof.
  destruct (dumps_head level v) as (c & s & -> & Hc). rewrite str_app_cons.
  cbn [skip_ws]. unfold value_head in Hc.
  destruct (is_ws c); [discriminate | reflexivity].
Qed.

Lemma join_head (sep : string) (level : nat) (x : json) (xs : list json) (t : string) :
  exists c s,
    join sep (map (dumps level) (x :: xs)) +:+ t = String c s /\ value_head c = true.
Proof.
  destruct (dumps_head level x) as (c & s & Hd & Hc).
  destruct xs as [|y ys]; cbn [map].
  - cbn [join]. rewrite Hd, str_app_cons. eauto.
  - rewrite join_cons2, Hd, str_app_cons. eauto.
Qed.

Lemma read_items_dumps (level : nat) (rest : string) (items : list json) :
  Forall reads_back items -> items <> [] ->
  forall fuel, list_sum (map (fun x => S (json_size x)) items) <= fuel ->
  read_items fuel
    (newline_indent (S level)
     +:+ join ("," +:+ newline_indent (S level)) (map (dumps (S level)) items)
     +:+ newline_indent level +:+ "]" +:+ rest) = Some (items, rest).
Proof.
  induction 1 as [|x items Hx Hitems IH]; [congruence|]. intros _ fuel Hfuel.
  simpl in Hfuel. destruct fuel as [|f]; [lia|].
  rewrite read_items_step.
  rewrite (read_value_ws f _ _ (skip_ws_indent _ _)).
  destruct items as [|y ys].
  - cbn [map join].
    rewrite (Hx (S level) f); [| lia | reflexivity].
    rewrite skip_ws_indent. reflexivity.
  - cbn [map]. rewrite join_cons2, !str_app_assoc, !str_app_cons, str_app_nil_l.
    rewrite (Hx (S level) f); [| lia | reflexivity].
    cbn [skip_ws]. change (is_ws ",") with false. cbv iota beta.
    rewrite <- !str_app_assoc.
    change (dumps (S level) y :: map (dumps (S level)) ys)
      with (map (dumps (S level)) (y :: ys)).
    rewrite !str_app_assoc.
    rewrite IH; [reflexivity | discriminate | lia].
Qed.

Lemma str_app_char (c : ascii) (t : string) : String c EmptyString +:+ t = String c t.
Proof. reflexivity. Qed.

Lemma encode_app (s t : string) :
  encode_basestring s +:+ t = String dquote (escape s +:+ String dquote t).
Proof.
  unfold encode_basestring. now rewrite str_app_cons, str_app_assoc, str_app_cons.
Qed.

Lemma read_members_dumps (level : nat) (rest : string) (fields : list (string * json)) :
  Forall (fun kv => reads_back (snd kv)) fields -> fields <> [] ->
  forall fuel, list_sum (map (fun kv => S (json_size (snd kv))) fields) <= fuel ->
  read_members fuel
    (newline_indent (S level)
     +:+ join ("," +:+ newline_indent (S level)) (map (member_text (S level)) fields)
     +:+ newline_indent level +:+ "}" +:+ rest) = Some (fields, rest).
Proof.
  induction 1 as [|[k x] fields Hx Hfields IH]; [congruence|]. intros _ fuel Hfuel.
  simpl in Hfuel. destruct fuel as [|f]; [lia|]. cbn [snd] in Hx.
  rewrite <- read_members_skip, skip_ws_indent.
  assert (Hmember : forall t, no_digit_head t ->
            read_members (S f) (skip_ws (member_text (S level) (k, x) +:+ t)) =
            match skip_ws t with
            | String "," r3 =>
                match read_members f r3 with
                | Some (kvs, r4) => Some ((k, x) :: kvs, r4)
                | None => None
                end
            | String "}" r3 => Some ([(k, x)], r3)
            | _ => None
            end).
  { intros t Ht. unfold member_text. cbn [fst snd].
    rewrite !str_app_assoc, encode_app. cbn [skip_ws]. change (is_ws dquote) with false.
    cbv iota. rewrite (read_members_step f k), read_string_escape.
    rewrite !str_app_cons, str_app_nil_l. cbn [skip_ws]. change (is_ws ":") with false.
    cbv iota beta.
    rewrite (read_value_ws f (String " " (dumps (S level) x +:+ t)) (dumps (S level) x +:+ t))
      by reflexivity.
    rewrite (Hx (S level) f); [reflexivity | lia | exact Ht]. }
  destruct fields as [|kv kvs].
  - cbn [map join]. rewrite Hmember by reflexivity.
    rewrite skip_ws_indent. reflexivity.
  - cbn [map]. rewrite join_cons2, !str_app_assoc, Hmember by reflexivity.
    rewrite !str_app_cons, str_app_nil_l.
    cbn [skip_ws]. change (is_ws ",") with false. cbv iota beta.
    rewrite <- !str_app_assoc.
    change (member_text (S level) kv :: map (member_text (S level)) kvs)
      with (map (member_text (S level)) (kv :: kvs)).
    rewrite !str_app_assoc.
    rewrite IH; [reflexivity | discriminate | lia].
Qed.

(** Every finite document is read back from its text, at any nesting level and
    before any text that does not continue a number. *)
Theorem read_dumps (v : json) : finite v = true -> reads_back v.
Proof.
  induction v as [| b | n | s | items IH | fields IH | x] using json_induction;
    intros Hfin; [| | | | | | discriminate];
    cbn [finite] in Hfin;
    [| | | | apply (Forall_finite (fun x => x) reads_back) in IH; [|exact Hfin]
         | apply (Forall_finite snd reads_back) in IH; [|exact Hfin]];
    intros level fuel rest Hfuel Hrest;
    (destruct fuel as [|f]; [cbn in Hfuel; lia|]).
  - apply read_value_null.
  - destruct b; [apply read_value_true | apply read_value_false].
  - cbn [dumps]. destruct (str_of_Z_head n) as (c & s & Hs & Hc).
    rewrite Hs, str_app_cons, read_value_number by exact Hc.
    rewrite <- str_app_cons, <- Hs, read_number_str by exact Hrest. reflexivity.
  - cbn [dumps]. rewrite encode_app, read_value_string, read_string_escape. reflexivity.
  - destruct items as [|x items]; [apply read_value_empty_list|].
    cbn [dumps]. rewrite !str_app_assoc, (str_app_char "[").
    destruct (join_head ("," +:+ newline_indent (S level)) (S level) x items
                (newline_indent level +:+ "]" +:+ rest)) as (c & s & Hj & Hc).
    erewrite read_value_list; [| rewrite skip_ws_indent, Hj; cbn [skip_ws];
                                 unfold value_head in Hc; destruct (is_ws c);
                                 [discriminate | reflexivity] | exact Hc].
    rewrite read_items_dumps; [reflexivity | exact IH | discriminate |].
    cbn [json_size] in Hfuel. lia.
  - destruct fields as [|kv fields]; [apply read_value_empty_dict|].
    cbn [dumps]. rewrite !str_app_assoc, (str_app_char "{").
    change (map (fun kv0 : string * json =>
                   encode_basestring (fst kv0) +:+ ": " +:+ dumps (S level) (snd kv0))
                (kv :: fields))
      with (map (member_text (S level)) (kv :: fields)).
    match goal with |- read_value _ (String _ ?t) = _ =>
      assert (Hhead : exists t', skip_ws t = String dquote t') end.
    { rewrite skip_ws_indent. cbn [map]. destruct fields as [|kv' fields].
      - cbn [join]. unfold member_text. rewrite !str_app_assoc, encode_app.
        eexists. reflexivity.
      - cbn [map]. rewrite join_cons2. unfold member_text at 1.
        rewrite !str_app_assoc, encode_app. eexists. reflexivity. }
    destruct Hhead as [t' Ht'].
    rewrite (read_value_dict f _ dquote t' Ht' eq_refl).
    rewrite read_members_dumps; [reflexivity | exact IH | discriminate |].
    cbn [json_size] in Hfuel. lia.
Qed.

(** *** Fuel *)

Lemma join_length (sep : string) (l : list string) :
  sep <> EmptyString ->
  list_sum (map (fun s => S (String.length s)) l) <= S (String.length (join sep l)).
Proof.
  intros Hsep. induction l as [|x l IH]; [simpl; lia|].
  destruct l as [|y l].
  - simpl. lia.
  - rewrite join_cons2, !str_length_app. simpl map in *. simpl list_sum in *.
    destruct sep as [|a sep]; [congruence|].
    change (String.length (String a sep)) with (S (String.length sep)). lia.
Qed.

Lemma list_sum_double {A : Type} (f g : A -> nat) (l : list A) :
  Forall (fun x => f x <= 2 * g x) l ->
  list_sum (map (fun x => S (f x)) l) <= 2 * list_sum (map (fun x => S (g x)) l).
Proof. induction 1; simpl; lia. Qed.

Lemma str_of_Z_nonempty (n : Z) : 1 <= String.length (str_of_Z n).
Proof. destruct (str_of_Z_head n) as (c & s & -> & _). simpl. lia. Qed.

Lemma newline_indent_length (level : nat) : 1 <= String.length (newline_indent level).
Proof. unfold newline_indent. simpl. lia. Qed.

Lemma json_size_dumps (v : json) :
  forall level, json_size v <= 2 * String.length (dumps level v).
Proof.
  induction v as [| b | n | s | items IH | fields IH | x] using json_induction;
    intros level; [| | | | | | destruct x; simpl; lia].
  - simpl. lia.
  - destruct b; simpl; lia.
  - pose proof (str_of_Z_nonempty n). simpl. lia.
  - simpl. lia.
  - destruct items as [|x items]; [simpl; lia|].
    cbn [dumps json_size]. rewrite !str_length_app.
    pose proof (join_length ("," +:+ newline_indent (S level))
                  (map (dumps (S level)) (x :: items))) as Hj.
    rewrite map_map in Hj.
    assert (Hd : list_sum (map (fun y => S (json_size y)) (x :: items))
                 <= 2 * list_sum (map (fun y => S (String.length (dumps (S level) y)))
                                      (x :: items))).
    { apply list_sum_double. eapply Forall_impl; [exact IH|]. intros y Hy. apply Hy. }
    specialize (Hj ltac:(discriminate)).
    pose proof (newline_indent_length (S level)). pose proof (newline_indent_length level).
    cbn [map] in *. change (String.length "[") with 1. change (String.length "]") with 1.
    change (String.length "{") with 1. change (String.length "}") with 1. lia.
  - destruct fields as [|kv fields]; [simpl; lia|].
    cbn [dumps json_size]. rewrite !str_length_app.
    pose proof (join_length ("," +:+ newline_indent (S level))
                  (map (fun kv0 : string * json =>
                          encode_basestring (fst kv0) +:+ ": " +:+ dumps (S level) (snd kv0))
                       (kv :: fields))) as Hj.
    rewrite map_map in Hj.
    assert (Hd : list_sum (map (fun y => S (json_size (snd y))) (kv :: fields))
                 <= 2 * list_sum
                          (map (fun y => S (String.length
                                  (encode_basestring (fst y) +:+ ": "
                                   +:+ dumps (S level) (snd y))))
                               (kv :: fields))).
    { apply (list_sum_double (fun y => json_size (snd y))).
      eapply Forall_impl; [exact IH|]. intros y Hy. cbn beta in Hy |- *.
      rewrite !str_length_app. specialize (Hy (S level)). lia. }
    specialize (Hj ltac:(discriminate)).
    pose proof (newline_indent_length (S level)). pose proof (newline_indent_length level).
    cbn [map] in *. change (String.length "[") with 1. change (String.length "]") with 1.
    change (String.length "{") with 1. change (String.length "}") with 1. lia.
Qed.

(** The text of a document in which every number is finite is JSON, and
    it is the JSON of that document. *)
Theorem json_loads_dumps (v : json) :
  finite v = true -> json_loads (json_dumps v) = Some v.
Proof.
  intros Hfin. unfold json_loads, json_dumps.
  pose proof (json_size_dumps v 0) as Hsize.
  pose proof (read_dumps v Hfin 0 (2 * String.length (dumps 0 v) + 2) EmptyString) as Hread.
  rewrite str_app_nil_r in Hread. rewrite Hread; [reflexivity | lia | exact I].
Qed.

(** ** Structured data *)

Lemma howto_step_fields (item step : json) :
  howto_step item = Ok step ->
  exists title, item @ "title" = Ok title /\
                step @ "@type" = Ok (JStr "HowToStep") /\ step @ "name" = Ok title.
Proof.
  intros H. unfold howto_step in H. binds_inv H. injection H as <-.
  exists v. split; [assumption|]. split; reflexivity.
Qed.

Lemma faq_entity_fields (faq entity : json) :
  faq_entity faq = Ok entity ->
  exists question answer,
    faq @ "question" = Ok question /\ faq @ "answer" = Ok answer /\
    entity @ "@type" = Ok (JStr "Question") /\
    entity @ "name" = Ok question /\
    (entity @ "acceptedAnswer" @@ "text") = Ok answer.
Proof.
  intros H. unfold faq_entity in H. binds_inv H. injection H as <-.
  exists v, v0. repeat (split; [assumption || reflexivity|]). reflexivity.
Qed.

(** *** Values that hold no float that is not finite *)

Lemma finite_lookup (k : string) (fields : list (string * json)) (v : json) :
  forallb (fun kv => finite (snd kv)) fields = true ->
  dict_lookup k fields = Some v -> finite v = true.
Proof.
  induction fields as [|[k' x] fields IH]; cbn [forallb dict_lookup snd]; [discriminate|].
  intros [Hx Hf]%andb_prop H. destruct (String.eqb k' k); [congruence | now apply IH].
Qed.

Lemma finite_getitem (obj : json) (k : string) (v : json) :
  finite obj = true -> obj @ k = Ok v -> finite v = true.
Proof.
  destruct obj as [| | | | |fields|]; try discriminate. cbn [finite py_getitem].
  intros Hf H. destruct (dict_lookup k fields) as [x|] eqn:E; [|discriminate].
  injection H as <-. exact (finite_lookup k fields x Hf E).
Qed.

Lemma finite_get (obj : json) (k : string) (default v : json) :
  finite obj = true -> finite default = true -> py_get obj k default = Ok v ->
  finite v = true.
Proof.
  destruct obj as [| | | | |fields|]; try discriminate. cbn [finite py_get].
  intros Hf Hd H. destruct (dict_lookup k fields) as [x|] eqn:E; injection H as <-.
  - exact (finite_lookup k fields x Hf E).
  - exact Hd.
Qed.

Lemma finite_iter (v : json) (items : list json) :
  finite v = true -> py_iter v = Ok items -> Forall (fun x => finite x = true) items.
Proof.
  destruct v as [| | |s|l|fields|]; try discriminate; cbn [finite py_iter];
    intros Hf H; injection H as <-.
  - apply Forall_map. apply List.Forall_forall. reflexivity.
  - apply List.Forall_forall. exact (proj1 (forallb_forall finite l) Hf).
  - apply Forall_map. apply List.Forall_forall. reflexivity.
Qed.

Lemma finite_field_getitem (k : string) (data v : json) :
  finite_field k data = true -> data @ k = Ok v -> finite v = true.
Proof. unfold finite_field. intros H E. now rewrite E in H. Qed.

Lemma finite_traverse (f : json -> result json) (items out : list json) :
  (forall x y, finite x = true -> f x = Ok y -> finite y = true) ->
  Forall (fun x => finite x = true) items -> traverse f items = Ok out ->
  forallb finite out = true.
Proof.
  intros Hf Hitems H. apply traverse_ok in H.
  induction H as [|x y items out Hxy _ IH]; [reflexivity|].
  apply Forall_cons_1 in Hitems as [Hx Hitems]. cbn [forallb].
  now rewrite (Hf x y Hx Hxy), IH.
Qed.

Lemma finite_howto_step (item step : json) :
  finite item = true -> howto_step item = Ok step -> finite step = true.
Proof.
  intros Hi H. unfold howto_step in H. binds_inv H. injection H as <-.
  cbn [finite forallb snd].
  rewrite (finite_getitem _ _ _ Hi Eq), (finite_get item "notes" (JStr EmptyString) v0 Hi eq_refl Eq0). reflexivity.
Qed.

Lemma finite_faq_entity (faq entity : json) :
  finite faq = true -> faq_entity faq = Ok entity -> finite entity = true.
Proof.
  intros Hi H. unfold faq_entity in H. binds_inv H. injection H as <-.
  cbn [finite forallb snd].
  rewrite (finite_getitem _ _ _ Hi Eq), (finite_getitem _ _ _ Hi Eq0). reflexivity.
Qed.

(** C4: both JSON-LD texts of a guide are JSON, as long as no number
    that reaches them is [NaN] or infinite: none in the
    [meta_description] and the [timeline] for the HowTo schema, none in
    the [faq] for the FAQ schema.  Read back, the HowTo schema has one
    step per timeline entry, in the order of the timeline and named by the
    entry's title, and the FAQ schema has one Question per FAQ entry, in
    order, with the entry's question and answer. *)
Theorem jsonld_roundtrip (data : json) (slug lang : string) :
  (finite_field "meta_description" data = true ->
   finite_field "timeline" data = true ->
   forall text, build_schema_json data slug lang = Ok text ->
     exists schema items steps,
       json_loads text = Some schema /\
       (let! timeline := data @ "timeline" in py_iter timeline) = Ok items /\
       schema @ "@type" = Ok (JStr "HowTo") /\
       schema @ "step" = Ok (JArr steps) /\
       Forall2 (fun item step =>
                  exists title,
                    item @ "title" = Ok title /\
                    step @ "@type" = Ok (JStr "HowToStep") /\
                    step @ "name" = Ok title)
               items steps) /\
  (finite_field "faq" data = true ->
   forall text, build_faq_schema data = Ok text ->
     exists schema entries entities,
       json_loads text = Some schema /\
       (let! faqs := data @ "faq" in py_iter faqs) = Ok entries /\
       schema @ "@type" = Ok (JStr "FAQPage") /\
       schema @ "mainEntity" = Ok (JArr entities) /\
       Forall2 (fun faq entity =>
                  exists question answer,
                    faq @ "question" = Ok question /\ faq @ "answer" = Ok answer /\
                    entity @ "@type" = Ok (JStr "Question") /\
                    entity @ "name" = Ok question /\
                    (entity @ "acceptedAnswer" @@ "text") = Ok answer)
               entries entities).
Proof.
  split.
  - intros Hdesc Htl text H.
    unfold build_schema_json in H. bind_inv H. injection H as <-.
    unfold build_schema in Eq. binds_inv Eq. injection Eq as <-.
    eexists _, v3, v4. split.
    { apply json_loads_dumps. cbn [finite forallb snd].
      rewrite (finite_field_getitem _ _ _ Hdesc Eq1).
      rewrite (finite_traverse howto_step v3 v4 finite_howto_step
                 (finite_iter _ _ (finite_field_getitem _ _ _ Htl Eq2) Eq3) Eq4).
      reflexivity. }
    split; [rewrite Eq2; exact Eq3|]. split; [reflexivity|]. split; [reflexivity|].
    apply traverse_ok in Eq4. eapply Forall2_impl; [exact Eq4|].
    intros item step Hs. now apply howto_step_fields.
  - intros Hfaq text H.
    unfold build_faq_schema in H. bind_inv H. injection H as <-.
    unfold build_faq in Eq. binds_inv Eq. injection Eq as <-.
    eexists _, v1, v2. split.
    { apply json_loads_dumps. cbn [finite forallb snd].
      rewrite (finite_traverse faq_entity v1 v2 finite_faq_entity
                 (finite_iter _ _ (finite_field_getitem _ _ _ Hfaq Eq0) Eq1) Eq2).
      reflexivity. }
    split; [rewrite Eq0; exact Eq1|]. split; [reflexivity|]. split; [reflexivity|].
    apply traverse_ok in Eq2. eapply Forall2_impl; [exact Eq2|].
    intros faq entity Hs. now apply faq_entity_fields.
Qed.

Lemma jsonld_roundtrip_witness :
  (exists text schema,
     build_schema_json sample_guide "dragon-ball" "en" = Ok text /\
     json_loads text = Some schema /\
     schema @ "step"
       = Ok (JArr [JObj [("@type", JStr "HowToStep"); ("name", JStr "Dragon Ball");
                         ("text", JStr EmptyString)]])) /\
  (exists text schema,
     build_faq_schema sample_guide = Ok text /\
     json_loads text = Some schema /\
     schema @ "mainEntity"
       = Ok (JArr [JObj [("@type", JStr "Question"); ("name", JStr "Is GT canon?");
                         ("acceptedAnswer",
                          JObj [("@type", JStr "Answer");
                                ("text", JStr "No, `GT` is not canon.")])]])).
Proof.
  destruct (jsonld_roundtrip sample_guide "dragon-ball" "en") as [Hh Hf]. split.
  - destruct (build_schema_json sample_guide "dragon-ball" "en") as [text|e] eqn:H;
      [|vm_compute in H; discriminate].
    destruct (Hh eq_refl eq_refl text eq_refl) as (schema & items & steps & Hl & _).
    exists text, schema. split; [reflexivity|]. split; [exact Hl|].
    vm_compute in H. injection H as <-.
    vm_compute in Hl. injection Hl as <-. reflexivity.
  - destruct (build_faq_schema sample_guide) as [text|e] eqn:H;
      [|vm_compute in H; discriminate].
    destruct (Hf eq_refl text eq_refl) as (schema & entries & entities & Hl & _).
    exists text, schema. split; [reflexivity|]. split; [exact Hl|].
    vm_compute in H. injection H as <-.
    vm_compute in Hl. injection Hl as <-. reflexivity.
Defined.

(** A guide loaded from a data file with [NaN] for its description and
    [Infinity] for an answer: both JSON-LD texts are generated, with
    [NaN] and [Infinity] written in them as [json.dumps] writes them, and
    neither text is JSON. *)
Lemma jsonld_not_json :
  (exists text,
     build_schema_json nan_guide "dragon-ball" "en" = Ok text /\
     occ "`description`: NaN," text = 1 /\
     json_loads text = None) /\
  (exists text,
     build_faq_schema nan_guide = Ok text /\
     occ "`text`: Infinity" text = 1 /\
     json_loads text = None).
Proof.
  split; eexists; (split; [vm_compute; reflexivity|]); split; vm_compute; reflexivity.
Qed.

(** ** Sealed text *)

Lemma sealed_occ (p s : string) : p <> EmptyString -> sealed p s -> occ p s = 0.
Proof.
  intros Hp H. specialize (H EmptyString). rewrite str_app_nil_r in H.
  now rewrite H, occ_nil.
Qed.

Lemma sealed_nil (p : string) : sealed p EmptyString.
Proof. intros t. reflexivity. Qed.

Lemma sealed_app (p s u : string) : sealed p s -> sealed p u -> sealed p (s +:+ u).
Proof. intros Hs Hu t. now rewrite str_app_assoc, Hs, Hu. Qed.

Lemma sealed_no_lt (p s : string) : marker p -> has_char "<" s = false -> sealed p s.
Proof. intros Hp Hs t. now apply occ_app_no_lt. Qed.

Lemma sealed_concat (p : string) (l : list string) :
  Forall (sealed p) l -> sealed p (concat_str l).
Proof.
  induction 1 as [|x l Hx Hl IH]; [apply sealed_nil|].
  cbn [concat_str]. now apply sealed_app.
Qed.

Lemma sealed_join (p sep : string) (l : list string) :
  sealed p sep -> Forall (sealed p) l -> sealed p (join sep l).
Proof.
  intros Hsep. induction 1 as [|x l Hx Hl IH]; [apply sealed_nil|].
  destruct l as [|y l]; [exact Hx|].
  rewrite join_cons2. auto using sealed_app.
Qed.

Lemma parts_segs_closed (p : string) (ps : list part) (segs : list seg) :
  Forall2 part_seg ps segs -> parts_closed p ps = true -> segs_closed p segs = true.
Proof.
  induction 1 as [|x y ps segs Hxy F IH]; intros H; [reflexivity|].
  destruct Hxy; cbn [parts_closed segs_closed] in H |- *.
  - apply andb_true_iff in H as [H1 H2]. now rewrite H1, IH.
  - destruct F as [|x' y' ps' segs' Hxy' F']; [discriminate|].
    destruct Hxy'; try discriminate.
    apply andb_true_iff in H as [H1 H2]. rewrite H1. now apply IH.
  - destruct F as [|x' y' ps' segs' Hxy' F']; [discriminate|].
    destruct Hxy'; try discriminate.
    apply andb_true_iff in H as [H1 H2]. rewrite H1. now apply IH.
Qed.

(** An f-string that passes the checks, has fields free of the marker
    and literals without it, builds sealed text. *)
Theorem fstring_sealed (p : string) (ps : list part) (s : string) :
  p <> EmptyString -> parts_closed p ps = true -> parts_lit_occ p ps = 0 ->
  Forall (part_free p) ps -> fstring ps = Ok s -> sealed p s.
Proof.
  intros Hp Hok Hlit Hfree H t.
  destruct (fstring_segs _ _ H) as (segs & F & ->).
  rewrite occ_flatten_app; eauto using parts_segs_closed, parts_segs_free.
  now rewrite <- (parts_segs_lit_occ p _ _ F), Hlit.
Qed.

(** ** Documents free of a marker *)

Lemma json_free_lookup (p k : string) (fields : list (string * json)) (v : json) :
  json_free p (JObj fields) = true -> dict_lookup k fields = Some v -> json_free p v = true.
Proof.
  cbn [json_free]. induction fields as [|[k' x] fields IH]; [discriminate|].
  cbn [forallb dict_lookup fst snd]. intros H Hk.
  apply andb_true_iff in H as [H1 H2]. apply andb_true_iff in H1 as [_ H1].
  destruct (String.eqb k' k); [now injection Hk as <- | auto].
Qed.

Lemma json_free_getitem (p : string) (obj : json) (k : string) (v : json) :
  json_free p obj = true -> obj @ k = Ok v -> json_free p v = true.
Proof.
  intros Hf H. destruct obj; try discriminate. unfold py_getitem in H.
  destruct (dict_lookup k fields) eqn:E; [|discriminate]. injection H as <-.
  eapply json_free_lookup; eauto.
Qed.

Lemma json_free_get (p : string) (obj : json) (k : string) (d v : json) :
  json_free p obj = true -> json_free p d = true ->
  py_get obj k d = Ok v -> json_free p v = true.
Proof.
  intros Hf Hd H. destruct obj; try discriminate. unfold py_get in H.
  destruct (dict_lookup k fields) eqn:E; injection H as <-; [|exact Hd].
  eapply json_free_lookup; eauto.
Qed.

Lemma concat_code_points (s : string) : concat_str (code_points s) = s.
Proof.
  induction s as [|a s IH]; [reflexivity|].
  destruct s as [|b s']; [reflexivity|].
  change (code_points (String a (String b s')))
    with (match code_points (String b s') with
          | chunk :: rest =>
              if is_continuation b then String a chunk :: rest
              else String a EmptyString :: chunk :: rest
          | [] => [String a EmptyString]
          end).
  destruct (code_points (String b s')) as [|chunk rest]; [discriminate|].
  destruct (is_continuation b); cbn [concat_str] in *; now rewrite <- IH.
Qed.

Lemma concat_str_infix (x : string) (l : list string) :
  In x l -> exists a b, concat_str l = a +:+ x +:+ b.
Proof.
  induction l as [|y l IH]; [contradiction|]. intros [->|Hin].
  - exists EmptyString, (concat_str l). reflexivity.
  - destruct (IH Hin) as (a & b & Hab). exists (y +:+ a), b.
    cbn [concat_str]. now rewrite Hab, str_app_assoc.
Qed.

Lemma json_free_iter (p : string) (v : json) (items : list json) :
  p <> EmptyString -> json_free p v = true -> py_iter v = Ok items ->
  Forall (fun x => json_free p x = true) items.
Proof.
  intros Hp Hf H. destruct v; try discriminate; injection H as <-; cbn [json_free] in Hf.
  - apply List.Forall_forall. intros x [chunk [<- Hin]]%in_map_iff. cbn [json_free].
    apply Nat.eqb_eq in Hf. apply Nat.eqb_eq.
    destruct (concat_str_infix _ _ Hin) as (a & b & Hab).
    rewrite concat_code_points in Hab. rewrite Hab in Hf.
    eapply occ_infix_free; eauto.
  - apply List.Forall_forall. intros x Hin. rewrite forallb_forall in Hf. auto.
  - apply List.Forall_forall. intros x [[k y] [<- Hin]]%in_map_iff. cbn [json_free fst].
    rewrite forallb_forall in Hf. specialize (Hf _ Hin).
    now apply andb_true_iff in Hf as [Hf _].
Qed.

Lemma uint_str_no_lt (u : Decimal.uint) : has_char "<" (uint_str u) = false.
Proof. induction u; cbn [uint_str]; [reflexivity | exact IHu ..]. Qed.

Lemma str_of_Z_no_lt (n : Z) : has_char "<" (str_of_Z n) = false.
Proof.
  unfold str_of_Z. destruct (Z.to_int n); [apply uint_str_no_lt|].
  rewrite has_char_app, uint_str_no_lt. reflexivity.
Qed.

Lemma py_str_free (p : string) (v : json) (s : string) :
  marker p -> json_free p v = true -> py_str v = Ok s -> occ p s = 0.
Proof.
  intros Hp Hf H. destruct v as [|[]|n|s'| | |x]; try discriminate; injection H as <-.
  - now apply occ_no_lt.
  - now apply occ_no_lt.
  - now apply occ_no_lt.
  - apply occ_no_lt; [exact Hp | apply str_of_Z_no_lt].
  - cbn [json_free] in Hf. now apply Nat.eqb_eq.
  - apply occ_no_lt; [exact Hp | now destruct x].
Qed.

Lemma fmt_free (p : string) (r : result json) (s : string) :
  marker p -> (forall v, r = Ok v -> json_free p v = true) ->
  fmt r = Ok s -> occ p s = 0.
Proof.
  intros Hp Hr H. unfold fmt in H. bind_inv H. eapply py_str_free; eauto.
Qed.

(** ** Markers in JSON text *)

Lemma escape_char_cases (a : ascii) :
  (escape_char a = String a EmptyString /\ Ascii.eqb a dquote = false) \/
  (exists r, escape_char a = String backslash r /\ has_char "<" (escape_char a) = false).
Proof.
  destruct a as [[] [] [] [] [] [] [] []];
    first [ left; split; reflexivity | right; eexists; split; reflexivity ].
Qed.

Lemma starts_with_escape (t u q : string) :
  has_char backslash q = false ->
  match after_first_quote q with
  | Some q'' => starts_with q'' t = false
  | None => True
  end ->
  starts_with q u = false ->
  starts_with q (escape u +:+ String dquote t) = false.
Proof.
  revert q; induction u as [|a u IH]; intros q Hb Hq H.
  - destruct q as [|c q]; [discriminate|].
    cbn [escape]. rewrite str_app_nil_l. cbn [starts_with after_first_quote] in *.
    destruct (Ascii.eqb c dquote); [exact Hq | reflexivity].
  - destruct q as [|c q]; [discriminate|].
    cbn [escape has_char after_first_quote starts_with] in *.
    apply orb_false_iff in Hb as [Hb1 Hb2].
    destruct (escape_char_cases a) as [[-> Ha]|(r & -> & _)].
    + rewrite str_app_assoc, str_app_char. cbn [starts_with].
      destruct (Ascii.eqb_spec c a) as [->|]; [|reflexivity].
      rewrite Ha in Hq. cbn [andb] in H |- *. now apply IH.
    + rewrite str_app_assoc, str_app_cons. cbn [starts_with]. now rewrite Hb1.
Qed.

Section JsonMarker.

Variable p : string.
Hypothesis p_json : json_marker p = true.

Lemma json_marker_marker : marker p.
Proof.
  unfold json_marker in p_json. apply andb_true_iff in p_json as [H _].
  now apply andb_true_iff in H as [H _].
Qed.

Lemma json_marker_escape (s t : string) :
  json_follow t -> occ p s = 0 ->
  occ p (escape s +:+ String dquote t) = occ p t.
Proof.
  intros Ht. pose proof json_marker_marker as Hm.
  assert (Hb : has_char backslash p = false).
  { unfold json_marker in p_json. apply andb_true_iff in p_json as [H _].
    apply andb_true_iff in H as [_ H]. now apply negb_true_iff in H. }
  assert (Hq : match after_first_quote p with
               | Some q'' => starts_with q'' t = false
               | None => True
               end).
  { unfold json_marker in p_json. apply andb_true_iff in p_json as [_ H].
    destruct (after_first_quote p) as [[|c q'']|]; [discriminate | | exact I].
    apply negb_true_iff in H. destruct t as [|c' t]; [reflexivity|].
    cbn [starts_with]. cbn in Ht.
    destruct (Ascii.eqb_spec c c') as [->|]; [congruence | reflexivity]. }
  induction s as [|a s IH]; intros Hs.
  - cbn [escape]. rewrite str_app_nil_l.
    apply (occ_app_no_lt p (String dquote EmptyString) t Hm). reflexivity.
  - rewrite occ_cons in Hs.
    destruct (starts_with p (String a s)) eqn:E; [discriminate|].
    pose proof (starts_with_escape t _ _ Hb Hq E) as Hk.
    cbn [escape] in Hk |- *.
    destruct (escape_char_cases a) as [[Ha _]|(r & Ha & Hlt)].
    + rewrite Ha, str_app_assoc, str_app_char in Hk |- *.
      rewrite occ_cons, Hk. apply IH. simpl in Hs. lia.
    + rewrite str_app_assoc, occ_app_no_lt by assumption. apply IH. simpl in Hs. lia.
Qed.

Lemma json_marker_encode (s t : string) :
  json_follow t -> occ p s = 0 -> occ p (encode_basestring s +:+ t) = occ p t.
Proof.
  intros Ht Hs. rewrite encode_app.
  rewrite <- (json_marker_escape s t Ht Hs).
  apply (occ_app_no_lt p (String dquote EmptyString) _ json_marker_marker). reflexivity.
Qed.

Lemma newline_indent_no_lt (level : nat) : has_char "<" (newline_indent level) = false.
Proof.
  unfold newline_indent. cbn [has_char]. change (Ascii.eqb newline "<") with false.
  cbn [orb]. induction (2 * level) as [|n IH]; [reflexivity | exact IH].
Qed.

Lemma json_marker_items (level : nat) (close t : string) (items : list json) :
  Forall (dumps_sealed p) items -> forallb (json_free p) items = true ->
  has_char "<" close = false ->
  occ p (join ("," +:+ newline_indent (S level)) (map (dumps (S level)) items)
         +:+ newline_indent level +:+ close +:+ t) = occ p t.
Proof.
  pose proof json_marker_marker as Hm.
  intros Hs Hf Hc.
  assert (Hend : occ p (newline_indent level +:+ close +:+ t) = occ p t).
  { rewrite occ_app_no_lt by auto using newline_indent_no_lt. now apply occ_app_no_lt. }
  induction Hs as [|x items Hx Hitems IH]; [exact Hend|].
  cbn [forallb] in Hf. apply andb_true_iff in Hf as [Hfx Hf].
  destruct items as [|y items]; cbn [map].
  - cbn [join]. unfold newline_indent at 1. rewrite str_app_cons. now rewrite Hx.
  - rewrite join_cons2, !str_app_assoc, str_app_char.
    rewrite Hx by (assumption || reflexivity).
    rewrite <- str_app_char, occ_app_no_lt by (exact Hm || reflexivity).
    rewrite occ_app_no_lt by auto using newline_indent_no_lt.
    now apply IH.
Qed.

Lemma json_marker_members (level : nat) (t : string) (fields : list (string * json)) :
  Forall (fun kv => dumps_sealed p (snd kv)) fields ->
  forallb (fun kv => Nat.eqb (occ p (fst kv)) 0 && json_free p (snd kv)) fields = true ->
  occ p (join ("," +:+ newline_indent (S level)) (map (member_text (S level)) fields)
         +:+ newline_indent level +:+ "}" +:+ t) = occ p t.
Proof.
  pose proof json_marker_marker as Hm.
  intros Hs Hf.
  assert (Hend : occ p (newline_indent level +:+ "}" +:+ t) = occ p t).
  { rewrite occ_app_no_lt by auto using newline_indent_no_lt. now apply occ_app_no_lt. }
  assert (Hmember : forall k x u, occ p k = 0 -> dumps_sealed p x -> json_free p x = true ->
            json_follow u ->
            occ p (member_text (S level) (k, x) +:+ u) = occ p u).
  { intros k x u Hk Hx Hfx Hu. unfold member_text. cbn [fst snd].
    rewrite !str_app_assoc, json_marker_encode by (assumption || reflexivity).
    rewrite occ_app_no_lt by (exact Hm || reflexivity). now apply Hx. }
  induction Hs as [|[k x] fields Hx Hfields IH]; [exact Hend|].
  cbn [forallb fst snd] in Hf, Hx. apply andb_true_iff in Hf as [Hfx Hf].
  apply andb_true_iff in Hfx as [Hk Hfx]. apply Nat.eqb_eq in Hk.
  destruct fields as [|kv fields]; cbn [map].
  - cbn [join]. unfold newline_indent at 1. rewrite str_app_cons.
    rewrite Hmember by (assumption || reflexivity).
    exact Hend.
  - rewrite join_cons2, !str_app_assoc, str_app_char.
    rewrite Hmember by (assumption || reflexivity).
    rewrite <- str_app_char, occ_app_no_lt by (exact Hm || reflexivity).
    rewrite occ_app_no_lt by auto using newline_indent_no_lt.
    now apply IH.
Qed.

Lemma json_marker_dumps (v : json) : dumps_sealed p v.
Proof.
  pose proof json_marker_marker as Hm.
  induction v as [| b | n | s | items IH | fields IH | x] using json_induction;
    intros Hf level t Ht; [| | | | | | destruct x; now apply occ_app_no_lt].
  - now apply occ_app_no_lt.
  - destruct b; now apply occ_app_no_lt.
  - apply occ_app_no_lt; [exact Hm | apply str_of_Z_no_lt].
  - cbn [dumps json_free] in *. apply json_marker_encode; [exact Ht|].
    now apply Nat.eqb_eq.
  - destruct items as [|x items]; [now apply occ_app_no_lt|].
    cbn [dumps]. rewrite !str_app_assoc.
    rewrite occ_app_no_lt by (exact Hm || reflexivity).
    rewrite occ_app_no_lt by auto using newline_indent_no_lt.
    apply json_marker_items; [exact IH | exact Hf | reflexivity].
  - destruct fields as [|kv fields]; [now apply occ_app_no_lt|].
    cbn [dumps]. rewrite !str_app_assoc.
    rewrite occ_app_no_lt by (exact Hm || reflexivity).
    rewrite occ_app_no_lt by auto using newline_indent_no_lt.
    change (map (fun kv0 : string * json =>
                   encode_basestring (fst kv0) +:+ ": " +:+ dumps (S level) (snd kv0))
                (kv :: fields))
      with (map (member_text (S level)) (kv :: fields)).
    apply json_marker_members; [exact IH | exact Hf].
Qed.

(** The text of a document free of the marker is free of it. *)
Theorem json_dumps_free (v : json) : json_free p v = true -> occ p (json_dumps v) = 0.
Proof.
  intros Hf. unfold json_dumps.
  rewrite <- (str_app_nil_r (dumps 0 v)).
  rewrite (json_marker_dumps v Hf 0 EmptyString I).
  apply occ_nil, marker_nonempty, json_marker_marker.
Qed.

End JsonMarker.

(** ** Fragments free of the page markers *)

Lemma page_marker_json (p : string) : In p page_markers -> json_marker p = true.
Proof.
  unfold page_markers, head_markers. cbn [In]. intros H.
  repeat (destruct H as [<-|H]; [vm_compute; reflexivity|]). contradiction.
Qed.

Lemma page_marker_marker (p : string) : In p page_markers -> marker p.
Proof. intros H. apply json_marker_marker. now apply page_marker_json. Qed.

Lemma page_marker_nonempty (p : string) : In p page_markers -> p <> EmptyString.
Proof. intros H. now apply marker_nonempty, page_marker_marker. Qed.


Lemma fstring_app (ps qs : list part) :
  fstring (ps ++ qs) = let! a := fstring ps in let! b := fstring qs in Ok (a +:+ b).
Proof.
  induction ps as [|x ps IH]; cbn [app fstring bind].
  - destruct (fstring qs); reflexivity.
  - destruct x as [l|h|f]; try destruct f as [v|e]; cbn [bind]; try reflexivity;
      rewrite IH; destruct (fstring ps); cbn [bind]; try reflexivity;
      destruct (fstring qs); cbn [bind]; try reflexivity;
      now rewrite str_app_assoc.
Qed.

(** A nested f-string can be written in place of the variable that holds
    its text. *)
Lemma fstring_nest (inner pre post : list part) (r : string) :
  fstring inner = Ok r ->
  fstring (pre ++ V r :: post) = fstring (pre ++ inner ++ post).
Proof.
  intros H. rewrite !fstring_app. cbn [fstring]. rewrite H.
  destruct (fstring pre); cbn [bind]; [|reflexivity].
  destruct (fstring post); reflexivity.
Qed.

Lemma fstring_nest_at (n : nat) (inner ps : list part) (r : string) :
  fstring inner = Ok r -> ps !! n = Some (V r) ->
  fstring ps = fstring (take n ps ++ inner ++ drop (S n) ps).
Proof.
  intros H Hn. rewrite <- (fstring_nest _ _ _ _ H). now rewrite take_drop_middle.
Qed.

(** Two literals in a row are one literal. *)
Lemma fstring_merge_at (n : nat) (ps : list part) (a b : string) :
  ps !! n = Some (L a) -> ps !! S n = Some (L b) ->
  fstring ps = fstring (take n ps ++ L (a +:+ b) :: drop (S (S n)) ps).
Proof.
  intros Ha Hb.
  rewrite <- (take_drop_middle ps n (L a) Ha) at 1.
  assert (Hd : drop (S n) ps = L b :: drop (S (S n)) ps).
  { rewrite <- (take_drop_middle ps (S n) (L b) Hb) at 1.
    rewrite drop_app_length'; [reflexivity|].
    symmetry. apply length_take_le. apply lookup_lt_Some in Hb. lia. }
  rewrite Hd, !fstring_app. cbn [fstring].
  destruct (fstring (take n ps)); cbn [bind]; [|reflexivity].
  destruct (fstring (drop (S (S n)) ps)); cbn [bind]; [|reflexivity].
  now rewrite str_app_assoc.
Qed.

Lemma dict_lookup_in {A : Type} (k : string) (m : list (string * A)) (v : A) :
  dict_lookup k m = Some v -> In v (map snd m).
Proof.
  induction m as [|[k' x] m IH]; [discriminate|]. cbn [dict_lookup map snd In].
  destruct (String.eqb k' k); [intros [= <-]; now left | auto].
Qed.

Lemma mapping_get_cases {A : Type} (m : list (string * A)) (key : json) (d v : A) :
  mapping_get m key d = Ok v -> v = d \/ In v (map snd m).
Proof.
  destruct key; cbn [mapping_get]; try discriminate; try (intros [= <-]; now left).
  destruct (dict_lookup s m) eqn:E; intros [= <-]; [right | now left].
  eapply dict_lookup_in; eauto.
Qed.

Lemma badge_class_no_lt (t : json) (s : string) :
  badge_class t = Ok s -> has_char "<" s = false.
Proof.
  intros H. apply mapping_get_cases in H as [->|H]; [reflexivity|].
  cbn [map snd In] in H. repeat (destruct H as [<-|H]; [reflexivity|]). contradiction.
Qed.

Lemma verdict_class_no_lt (t : json) (s : string) :
  verdict_class t = Ok s -> has_char "<" s = false.
Proof.
  intros H. apply mapping_get_cases in H as [->|H]; [reflexivity|].
  cbn [map snd In] in H. repeat (destruct H as [<-|H]; [reflexivity|]). contradiction.
Qed.

Lemma json_free_const (p s : string) :
  marker p -> has_char "<" s = false -> json_free p (JStr s) = true.
Proof. intros Hp Hs. cbn [json_free]. apply Nat.eqb_eq. now apply occ_no_lt. Qed.

Lemma type_label_free (p : string) (t ui v : json) :
  marker p -> json_free p t = true -> json_free p ui = true ->
  type_label t ui = Ok v -> json_free p v = true.
Proof.
  intros Hp Ht Hui H. unfold type_label in H. binds_inv H.
  assert (Hd : json_free p (JStr "Filler") = true) by now apply json_free_const.
  apply mapping_get_cases in H as [->|H]; [exact Ht|].
  cbn [map snd In] in H.
  repeat (destruct H as [<-|H]; [eauto using json_free_getitem, json_free_get|]).
  contradiction.
Qed.

Lemma verdict_label_free (p : string) (t ui v : json) :
  json_free p t = true -> json_free p ui = true ->
  verdict_label t ui = Ok v -> json_free p v = true.
Proof.
  intros Ht Hui H. unfold verdict_label in H. binds_inv H.
  apply mapping_get_cases in H as [->|H]; [exact Ht|].
  cbn [map snd In] in H.
  repeat (destruct H as [<-|H]; [eauto using json_free_getitem|]).
  contradiction.
Qed.

(** Decides a check of a template for each page marker in turn. *)
Ltac each_marker Hp :=
  let H := fresh "Hp'" in
  pose proof Hp as H; unfold page_markers, head_markers in H; cbn [In] in H;
  repeat (destruct H as [<-|H]; [vm_compute; reflexivity|]); contradiction.

(** Proves [json_free p v = true] from the lookups that produced [v]. *)
Ltac json_free_tac Hp :=
  lazymatch goal with
  | |- json_free ?p ?v = true =>
      first
        [ assumption
        | match goal with
          | H : py_getitem ?o ?k = Ok v |- _ =>
              apply (json_free_getitem p o k v); [json_free_tac Hp | exact H]
          | H : py_get ?o ?k ?d = Ok v |- _ =>
              apply (json_free_get p o k d v); [json_free_tac Hp | json_free_tac Hp | exact H]
          | H : type_label ?t ?ui = Ok v |- _ =>
              apply (type_label_free p t ui v);
              [apply page_marker_marker; exact Hp | json_free_tac Hp | json_free_tac Hp | exact H]
          | H : verdict_label ?t ?ui = Ok v |- _ =>
              apply (verdict_label_free p t ui v);
              [json_free_tac Hp | json_free_tac Hp | exact H]
          | H : bind _ _ = Ok v |- _ => binds_inv H; json_free_tac Hp
          end
        | apply json_free_const; [apply page_marker_marker; exact Hp | reflexivity] ]
  end.

(** The obligation of a field [E (fmt ...)] or [E (py_str ...)]. *)
Ltac free_field Hp :=
  let v := fresh "w" in
  let Hv := fresh "Hw" in
  intros v Hv; unfold fmt in Hv; binds_inv Hv;
  first
    [ eapply py_str_free; [apply page_marker_marker; exact Hp | | exact Hv];
      json_free_tac Hp
    | apply occ_no_lt; [apply page_marker_marker; exact Hp |];
      first [eapply badge_class_no_lt; exact Hv | eapply verdict_class_no_lt; exact Hv] ].

Ltac no_lt_tac :=
  rewrite ?has_char_app;
  repeat match goal with H : has_char _ _ = false |- _ => rewrite H end;
  reflexivity.

Ltac free_part Hp :=
  cbn [part_free];
  first
    [ exact I
    | assumption
    | apply sealed_occ; [apply page_marker_nonempty; exact Hp | assumption]
    | apply occ_no_lt; [apply page_marker_marker; exact Hp | no_lt_tac]
    | free_field Hp ].

Ltac free_parts Hp :=
  repeat (apply List.Forall_cons; [free_part Hp|]); apply List.Forall_nil.

(** Seals the text built by [H : fstring [...] = Ok s]. *)
Ltac seal_fstring Hp H :=
  apply (fstring_sealed _ _ _ (page_marker_nonempty _ Hp)) in H;
  [ | each_marker Hp | each_marker Hp | free_parts Hp ].

Lemma traverse_Forall {A B : Type} (P : A -> Prop) (Q : B -> Prop) (f : A -> result B)
    (l : list A) (ys : list B) :
  (forall x y, P x -> f x = Ok y -> Q y) ->
  Forall P l -> traverse f l = Ok ys -> Forall Q ys.
Proof.
  intros Hf Hl H. apply traverse_ok in H.
  induction H as [|x y l ys Hxy F IH]; [constructor|].
  apply Forall_cons_1 in Hl as [Hx Hl]. constructor; eauto.
Qed.

Lemma sealed_traverse {A : Type} (p : string) (P : A -> Prop) (f : A -> result string)
    (l : list A) (ys : list string) :
  (forall x y, P x -> f x = Ok y -> sealed p y) ->
  Forall P l -> traverse f l = Ok ys -> Forall (sealed p) ys.
Proof. apply traverse_Forall. Qed.

Lemma json_free_arr (p : string) (items : list json) :
  Forall (fun x => json_free p x = true) items -> json_free p (JArr items) = true.
Proof.
  intros H. cbn [json_free]. apply forallb_forall. now apply List.Forall_forall.
Qed.

(** Splits [json_free p (JObj [...])] of a dict display into its keys
    and values. *)
Ltac json_free_obj Hp :=
  cbn [json_free forallb fst snd];
  repeat (apply andb_true_iff; split);
  try reflexivity;
  try (apply Nat.eqb_eq, occ_no_lt; [apply page_marker_marker; exact Hp | reflexivity]).

Section Fragments.

Variable p : string.
Hypothesis Hp : In p page_markers.

Lemma faq_item_sealed (faq : json) (s : string) :
  json_free p faq = true -> faq_item faq = Ok s -> sealed p s.
Proof.
  intros Hf H. unfold faq_item in H. seal_fstring Hp H. exact H.
Qed.


Lemma timeline_row_sealed (ui item : json) (s : string) :
  json_free p ui = true -> json_free p item = true ->
  timeline_row ui item = Ok s -> sealed p s.
Proof.
  intros Hui Hitem H. unfold timeline_row in H.
  bind_inv H. rename v into recommended. bind_inv H. rename v into rec.
  cbv zeta in H. bind_inv H. rename v into watch_url.
  destruct (py_truthy recommended).
  - bind_inv Eq0. injection Eq0 as <-. cbn [fst snd] in H.
    rewrite (fstring_nest_at 6 _ _ _ Eq2) in H by reflexivity. cbn [take drop app] in H.
    rewrite (fstring_nest_at 1 [L " class=`row--recommended`"] _ _ eq_refl) in H
      by reflexivity.
    cbn [take drop app] in H.
    seal_fstring Hp H. exact H.
  - injection Eq0 as <-. cbn [fst snd] in H.
    rewrite (fstring_nest_at 6 [] _ EmptyString eq_refl) in H by reflexivity.
    cbn [take drop app] in H.
    rewrite (fstring_nest_at 1 [] _ EmptyString eq_refl) in H by reflexivity.
    cbn [take drop app] in H.
    seal_fstring Hp H. exact H.
Qed.

Lemma build_timeline_rows_sealed (data ui : json) (s : string) :
  json_free p data = true -> json_free p ui = true ->
  build_timeline_rows data ui = Ok s -> sealed p s.
Proof.
  intros Hd Hui H. unfold build_timeline_rows, timeline_rows_list in H.
  binds_inv H. injection H as <-. binds_inv Eq.
  apply sealed_join; [apply sealed_no_lt; [now apply page_marker_marker | reflexivity]|].
  eapply sealed_traverse; [ | | exact Eq].
  - intros x y Hx Hy. eapply timeline_row_sealed; [exact Hui | exact Hx | exact Hy].
  - eapply json_free_iter; [now apply page_marker_nonempty | | exact Eq1]. json_free_tac Hp.
Qed.


Lemma newline_sealed : sealed p "
".
Proof. apply sealed_no_lt; [now apply page_marker_marker | reflexivity]. Qed.

Lemma path_card_sealed (ui path : json) (s : string) :
  json_free p ui = true -> json_free p path = true ->
  path_card ui path = Ok s -> sealed p s.
Proof.
  intros Hui Hpath H. unfold path_card in H.
  bind_inv H. rename v into recommended. bind_inv H. rename v into rec.
  cbv zeta in H.
  destruct (py_truthy recommended).
  - bind_inv Eq0. injection Eq0 as <-. cbn [fst snd] in H.
    rewrite (fstring_nest_at 3 _ _ _ Eq1) in H by reflexivity. cbn [take drop app] in H.
    rewrite (fstring_nest_at 1 [L " path-card--recommended"] _ _ eq_refl) in H
      by reflexivity.
    cbn [take drop app] in H.
    seal_fstring Hp H. exact H.
  - injection Eq0 as <-. cbn [fst snd] in H.
    rewrite (fstring_nest_at 3 [] _ EmptyString eq_refl) in H by reflexivity.
    cbn [take drop app] in H.
    rewrite (fstring_nest_at 1 [] _ EmptyString eq_refl) in H by reflexivity.
    cbn [take drop app] in H.
    seal_fstring Hp H. exact H.
Qed.

Lemma build_paths_html_sealed (data ui : json) (s : string) :
  json_free p data = true -> json_free p ui = true ->
  build_paths_html data ui = Ok s -> sealed p s.
Proof.
  intros Hd Hui H. unfold build_paths_html in H. binds_inv H. injection H as <-.
  apply sealed_join; [apply newline_sealed|].
  eapply sealed_traverse; [ | | exact Eq1].
  - intros x y Hx Hy. eapply path_card_sealed; [exact Hui | exact Hx | exact Hy].
  - eapply json_free_iter; [now apply page_marker_nonempty | | exact Eq0]. json_free_tac Hp.
Qed.

Lemma build_faq_html_sealed (data : json) (s : string) :
  json_free p data = true -> build_faq_html data = Ok s -> sealed p s.
Proof.
  intros Hd H. unfold build_faq_html in H. binds_inv H. injection H as <-.
  apply sealed_join; [apply newline_sealed|].
  eapply sealed_traverse; [ | | exact Eq1].
  - intros x y Hx Hy. eapply faq_item_sealed; [exact Hx | exact Hy].
  - eapply json_free_iter; [now apply page_marker_nonempty | | exact Eq0]. json_free_tac Hp.
Qed.

Lemma build_why_confusing_html_sealed (data ui : json) (s : string) :
  json_free p data = true -> json_free p ui = true ->
  build_why_confusing_html data ui = Ok s -> sealed p s.
Proof.
  intros Hd Hui H. unfold build_why_confusing_html in H. bind_inv H.
  seal_fstring Hp H. exact H.
Qed.

Lemma compare_stat_sealed (stat : json) (s : string) :
  json_free p stat = true -> compare_stat stat = Ok s -> sealed p s.
Proof.
  intros Hf H. unfold compare_stat in H. seal_fstring Hp H. exact H.
Qed.

Lemma compare_card_sealed (ui card : json) (s : string) :
  json_free p ui = true -> json_free p card = true ->
  compare_card ui card = Ok s -> sealed p s.
Proof.
  intros Hui Hcard H. unfold compare_card in H.
  bind_inv H. rename v into recommended. bind_inv H. rename v into rec_badge.
  bind_inv H. rename v into stats. bind_inv H. rename v into stat_items.
  bind_inv H. rename v into stat_htmls. cbv zeta in H.
  assert (Hstats : sealed p (concat_str stat_htmls)).
  { apply sealed_concat. eapply sealed_traverse; [ | | exact Eq3].
    - intros x y Hx Hy. eapply compare_stat_sealed; [exact Hx | exact Hy].
    - eapply json_free_iter; [now apply page_marker_nonempty | | exact Eq2].
      json_free_tac Hp. }
  assert (Hbadge : sealed p rec_badge).
  { destruct (py_truthy recommended).
    - seal_fstring Hp Eq0. exact Eq0.
    - injection Eq0 as <-. apply sealed_nil. }
  seal_fstring Hp H. exact H.
Qed.

Lemma build_compare_html_sealed (data ui : json) (s : string) :
  json_free p data = true -> json_free p ui = true ->
  build_compare_html data ui = Ok s -> sealed p s.
Proof.
  intros Hd Hui H. unfold build_compare_html in H.
  bind_inv H. rename v into compare. bind_inv H. rename v into card_list.
  bind_inv H. rename v into card_items. bind_inv H. rename v into cards.
  bind_inv H. rename v into grid. bind_inv H. rename v into verdict.
  injection H as <-.
  assert (Hcards : sealed p (join "
" cards)).
  { apply sealed_join; [apply newline_sealed|].
    eapply sealed_traverse; [ | | exact Eq2].
    - intros x y Hx Hy. eapply compare_card_sealed; [exact Hui | exact Hx | exact Hy].
    - eapply json_free_iter; [now apply page_marker_nonempty | | exact Eq1].
      json_free_tac Hp. }
  seal_fstring Hp Eq3. seal_fstring Hp Eq4.
  apply sealed_app; [exact Eq3|]. apply sealed_app; [apply newline_sealed | exact Eq4].
Qed.

Lemma streaming_card_sealed (i : nat) (card : json) (s : string) :
  json_free p card = true -> streaming_card i card = Ok s -> sealed p s.
Proof.
  intros Hcard H. unfold streaming_card in H.
  bind_inv H. rename v into available. bind_inv H. rename v into avail_items.
  bind_inv H. rename v into lis. cbv zeta in H.
  assert (Hlis : sealed p (join "
" lis)).
  { apply sealed_join; [apply newline_sealed|].
    eapply (sealed_traverse p (fun x => json_free p x = true)); [ | | exact Eq1].
    - intros x y Hx Hy. cbv beta in Hx, Hy. seal_fstring Hp Hy. exact Hy.
    - eapply json_free_iter; [now apply page_marker_nonempty | | exact Eq0].
      json_free_tac Hp. }
  destruct (Nat.eqb i 0).
  - rewrite (fstring_nest_at 9 [L "streaming-card__cta--primary"] _ _ eq_refl) in H
      by reflexivity.
    cbn [take drop app] in H. seal_fstring Hp H. exact H.
  - rewrite (fstring_nest_at 9 [] _ EmptyString eq_refl) in H by reflexivity.
    cbn [take drop app] in H. seal_fstring Hp H. exact H.
Qed.

Lemma build_streaming_html_sealed (data ui : json) (s : string) :
  json_free p data = true -> build_streaming_html data ui = Ok s -> sealed p s.
Proof.
  intros Hd H. unfold build_streaming_html, streaming_cards_list in H.
  binds_inv H. injection H as <-. binds_inv Eq.
  apply sealed_join; [apply newline_sealed|].
  apply traverse_from_ok in Eq as [Hlen Hk].
  assert (Hall : Forall (fun x => json_free p x = true) v1).
  { eapply json_free_iter; [now apply page_marker_nonempty | | exact Eq1].
    json_free_tac Hp. }
  apply Forall_lookup_2. intros k y Hy.
  destruct (Hk k y Hy) as (x & Hx & Hxy).
  eapply streaming_card_sealed; [|exact Hxy].
  exact (Forall_lookup_1 _ _ _ _ Hall Hx).
Qed.


Lemma howto_step_free (item step : json) :
  json_free p item = true -> howto_step item = Ok step -> json_free p step = true.
Proof.
  intros Hitem H. unfold howto_step in H. binds_inv H. injection H as <-.
  json_free_obj Hp; json_free_tac Hp.
Qed.

Lemma faq_entity_free (faq entity : json) :
  json_free p faq = true -> faq_entity faq = Ok entity -> json_free p entity = true.
Proof.
  intros Hfaq H. unfold faq_entity in H. binds_inv H. injection H as <-.
  json_free_obj Hp; json_free_tac Hp.
Qed.

Lemma series_url_no_lt (slug lang : string) :
  has_char "<" slug = false -> has_char "<" (series_url slug lang) = false.
Proof.
  intros H. unfold series_url. destruct (String.eqb lang "en");
    now rewrite !has_char_app, H.
Qed.

Lemma build_schema_json_free (data : json) (slug lang text : string) :
  json_free p data = true -> has_char "<" slug = false ->
  build_schema_json data slug lang = Ok text -> occ p text = 0.
Proof.
  intros Hd Hslug H. unfold build_schema_json in H. bind_inv H. injection H as <-.
  apply json_dumps_free; [now apply page_marker_json|].
  unfold build_schema in Eq. cbv zeta in Eq.
  bind_inv Eq. rename v0 into name. bind_inv Eq. rename v0 into description.
  bind_inv Eq. rename v0 into timeline. bind_inv Eq. rename v0 into items.
  bind_inv Eq. rename v0 into steps. injection Eq as <-.
  assert (Hname : occ p name = 0).
  { apply sealed_occ; [now apply page_marker_nonempty|].
    destruct (String.eqb lang "en"); seal_fstring Hp Eq0; exact Eq0. }
  assert (Hsteps : json_free p (JArr steps) = true).
  { apply json_free_arr.
    eapply (traverse_Forall (fun x => json_free p x = true)); [ | | exact Eq4].
    - intros x y Hx Hy. eapply howto_step_free; [exact Hx | exact Hy].
    - eapply json_free_iter; [now apply page_marker_nonempty | | exact Eq3].
      json_free_tac Hp. }
  json_free_obj Hp.
  - now apply Nat.eqb_eq.
  - json_free_tac Hp.
  - apply Nat.eqb_eq, occ_no_lt; [now apply page_marker_marker|].
    now apply series_url_no_lt.
  - exact Hsteps.
Qed.

Lemma build_faq_schema_free (data : json) (text : string) :
  json_free p data = true -> build_faq_schema data = Ok text -> occ p text = 0.
Proof.
  intros Hd H. unfold build_faq_schema in H. bind_inv H. injection H as <-.
  apply json_dumps_free; [now apply page_marker_json|].
  unfold build_faq in Eq. binds_inv Eq. injection Eq as <-.
  assert (Hent : json_free p (JArr v2) = true).
  { apply json_free_arr.
    eapply (traverse_Forall (fun x => json_free p x = true)); [ | | exact Eq2].
    - intros x y Hx Hy. eapply faq_entity_free; [exact Hx | exact Hy].
    - eapply json_free_iter; [now apply page_marker_nonempty | | exact Eq1].
      json_free_tac Hp. }
  json_free_obj Hp. exact Hent.
Qed.

End Fragments.

(** ** The head of a page *)

Lemma head_marker_page (p : string) : In p head_markers -> In p page_markers.
Proof. intros H. now right. Qed.

Lemma head_free_marker (p : string) (data : json) :
  head_free data = true -> In p head_markers -> json_free p data = true.
Proof.
  unfold head_free. rewrite forallb_forall. auto.
Qed.

Lemma gtm_head_free (p : string) : In p head_markers -> occ p GTM_HEAD = 0.
Proof. intros Hh. each_marker Hh. Qed.

Lemma series_page_head_once (p slug : string) (data : json) (lang html : string) :
  In p head_markers -> json_free p data = true -> url_safe slug = true ->
  In lang ["en"; "fr"] ->
  generate_series_page slug data lang = Ok html -> occ p html = 1.
Proof.
  intros Hh Hd Hslug Hlang H.
  pose proof (head_marker_page p Hh) as Hp.
  pose proof (gtm_head_free p Hh) as Hgtm.
  apply url_safe_no_lt in Hslug.
  unfold generate_series_page in H.
  bind_inv H. rename v into ui.
  assert (Hui : json_free p ui = true) by json_free_tac Hp.
  bind_inv H. apply (build_why_confusing_html_sealed p Hp _ _ _ Hd Hui) in Eq0.
  bind_inv H. apply (build_paths_html_sealed p Hp _ _ _ Hd Hui) in Eq1.
  bind_inv H. apply (build_compare_html_sealed p Hp _ _ _ Hd Hui) in Eq2.
  bind_inv H. apply (build_timeline_rows_sealed p Hp _ _ _ Hd Hui) in Eq3.
  bind_inv H. apply (build_faq_html_sealed p Hp _ _ Hd) in Eq4.
  bind_inv H. apply (build_streaming_html_sealed p Hp _ ui _ Hd) in Eq5.
  bind_inv H. apply (build_schema_json_free p Hp _ _ _ _ Hd Hslug) in Eq6.
  bind_inv H. apply (build_faq_schema_free p Hp _ _ Hd) in Eq7.
  cbv zeta in H. unfold series_url in H.
  cbn [In] in Hlang. destruct Hlang as [<-|[<-|[]]];
    cbn [String.eqb Ascii.eqb Bool.eqb] in H.
  - rewrite (fstring_nest_at 35 [L "Watch Order"] _ _ eq_refl) in H by reflexivity.
    cbn [take drop app] in H.
    rewrite (fstring_merge_at 34 _ " " "Watch Order") in H by reflexivity.
    cbn [take drop app] in H.
    apply (fstring_occ p) in H;
      [ rewrite H; each_marker Hh
      | apply page_marker_nonempty; exact Hp
      | each_marker Hh
      | free_parts Hp ].
  - rewrite (fstring_nest_at 35 [L "Ordre de Visionnage"] _ _ eq_refl) in H by reflexivity.
    cbn [take drop app] in H.
    rewrite (fstring_merge_at 34 _ " " "Ordre de Visionnage") in H by reflexivity.
    cbn [take drop app] in H.
    apply (fstring_occ p) in H;
      [ rewrite H; each_marker Hh
      | apply page_marker_nonempty; exact Hp
      | each_marker Hh
      | free_parts Hp ].
Qed.

Lemma verification_head_free (p : string) :
  In p head_markers -> occ p GOOGLE_SITE_VERIFICATION = 0.
Proof. intros Hh. each_marker Hh. Qed.

Lemma home_card_sealed (p lang lang_prefix cta_text : string) (s : series) (card : string) :
  In p page_markers ->
  has_char "<" lang_prefix = false -> has_char "<" cta_text = false ->
  has_char "<" (s_slug s) = false ->
  json_free p (s_en s) = true -> json_free p (s_fr s) = true ->
  home_card lang lang_prefix cta_text s = Ok card -> sealed p card.
Proof.
  intros Hp Hprefix Hcta Hslug Hen Hfr H. unfold home_card in H. cbv zeta in H.
  bind_inv H. rename v into d.
  assert (Hd : json_free p d = true).
  { unfold series_data in Eq.
    destruct (String.eqb lang "en"); [now injection Eq as <-|].
    destruct (String.eqb lang "fr"); [now injection Eq as <-|discriminate]. }
  bind_inv H. rename v into emoji.
  seal_fstring Hp H. exact H.
Qed.

Lemma series_clean_spec (p : string) (s : series) :
  series_clean s = true -> In p head_markers ->
  has_char "<" (s_slug s) = false /\
  json_free p (s_en s) = true /\ json_free p (s_fr s) = true.
Proof.
  unfold series_clean. intros H Hh.
  apply andb_true_iff in H as [H Hfr]. apply andb_true_iff in H as [Hslug Hen].
  split; [now apply url_safe_no_lt|]. split; now apply head_free_marker.
Qed.

Lemma homepage_head_once (p lang : string) (series_list : list series) (html : string) :
  In p head_markers -> forallb series_clean series_list = true ->
  In lang ["en"; "fr"] ->
  generate_homepage lang series_list = Ok html -> occ p html = 1.
Proof.
  intros Hh Hclean Hlang H.
  pose proof (head_marker_page p Hh) as Hp.
  pose proof (gtm_head_free p Hh) as Hgtm.
  pose proof (verification_head_free p Hh) as Hver.
  unfold generate_homepage in H. cbv zeta in H.
  bind_inv H. rename v into cards.
  assert (Hcards : sealed p (concat_str cards)).
  { apply sealed_concat.
    eapply (sealed_traverse p (fun s => series_clean s = true)); [ | | exact Eq].
    - intros s card Hs Hcard. cbv beta in Hs.
      destruct (series_clean_spec p s Hs Hh) as (Hslug & Hen & Hfr).
      eapply (home_card_sealed p); [exact Hp | | | exact Hslug | exact Hen | exact Hfr | exact Hcard];
        cbn [In] in Hlang; destruct Hlang as [<-|[<-|[]]]; reflexivity.
    - apply List.Forall_forall. now apply forallb_forall. }
  clear Eq.
  cbn [In] in Hlang. destruct Hlang as [<-|[<-|[]]];
    cbn [String.eqb Ascii.eqb Bool.eqb] in H;
    (apply (fstring_occ p) in H;
      [ rewrite H; each_marker Hh
      | apply page_marker_nonempty; exact Hp
      | each_marker Hh
      | free_parts Hp ]).
Qed.

Lemma series_page_links (slug : string) (data : json) (lang html : string) :
  generate_series_page slug data lang = Ok html ->
  head_links (series_url slug lang) (series_url slug "en") (series_url slug "fr") html.
Proof.
  intros H. unfold generate_series_page in H. binds_inv H. cbv zeta in H.
  unfold head_links, canonical_tag, alternate_tag.
  split; [|split; [|split]].
  - refine (fstring_field 8 _ _ _ _ _ "<link rel=`canonical` href=`" "`>" H _ _ _);
      [reflexivity | vm_compute; reflexivity | vm_compute; reflexivity].
  - refine (fstring_field 10 _ _ _ _ _ "<link rel=`alternate` hreflang=`en` href=`" "`>" H _ _ _);
      [reflexivity | vm_compute; reflexivity | vm_compute; reflexivity].
  - refine (fstring_field 12 _ _ _ _ _ "<link rel=`alternate` hreflang=`fr` href=`" "`>" H _ _ _);
      [reflexivity | vm_compute; reflexivity | vm_compute; reflexivity].
  - refine (fstring_field 14 _ _ _ _ _ "<link rel=`alternate` hreflang=`x-default` href=`" "`>" H _ _ _);
      [reflexivity | vm_compute; reflexivity | vm_compute; reflexivity].
Qed.

Lemma homepage_links (lang : string) (series_list : list series) (html : string) :
  generate_homepage lang series_list = Ok html ->
  head_links (home_url lang) (home_url "en") (home_url "fr") html.
Proof.
  intros H. unfold generate_homepage in H. cbv zeta in H. binds_inv H.
  unfold head_links, canonical_tag, alternate_tag.
  split; [|split; [|split]].
  - refine (fstring_field 10 _ _ _ _ _ "<link rel=`canonical` href=`" "`>" H _ _ _);
      [reflexivity | vm_compute; reflexivity | vm_compute; reflexivity].
  - refine (fstring_field 12 _ _ _ _ _ "<link rel=`alternate` hreflang=`en` href=`" "`>" H _ _ _);
      [reflexivity | vm_compute; reflexivity | vm_compute; reflexivity].
  - refine (fstring_field 14 _ _ _ _ _ "<link rel=`alternate` hreflang=`fr` href=`" "`>" H _ _ _);
      [reflexivity | vm_compute; reflexivity | vm_compute; reflexivity].
  - refine (fstring_field 16 _ _ _ _ _ "<link rel=`alternate` hreflang=`x-default` href=`" "`>" H _ _ _);
      [reflexivity | vm_compute; reflexivity | vm_compute; reflexivity].
Qed.

(** C8 (series pages and homepages).  A page generated for a URL-safe
    slug, in English or in French, from a guide none of whose strings
    contains a head tag, has exactly one [<title>] and one [</title>],
    one canonical link and one alternate link for each of [en], [fr] and
    [x-default]; the canonical link points at the URL of the page, the
    [en] and [x-default] alternates at the English URL and the [fr]
    alternate at the French URL, all made of the site base URL and the
    slug.  The same holds for both homepages, with the base URL and its
    [/fr/] as the two URLs.  The texts of the guide are put in the page as
    they are, so the count is stated for guides free of these tags. *)
Theorem head_tags_once :
  (forall slug data lang html,
     url_safe slug = true -> head_free data = true -> In lang ["en"; "fr"] ->
     generate_series_page slug data lang = Ok html ->
     (forall p, In p head_markers -> occ p html = 1) /\
     head_links (series_url slug lang) (series_url slug "en") (series_url slug "fr") html) /\
  (forall lang series_list html,
     forallb series_clean series_list = true -> In lang ["en"; "fr"] ->
     generate_homepage lang series_list = Ok html ->
     (forall p, In p head_markers -> occ p html = 1) /\
     head_links (home_url lang) (home_url "en") (home_url "fr") html).
Proof.
  split.
  - intros slug data lang html Hslug Hd Hlang H. split.
    + intros p Hh.
      exact (series_page_head_once p slug data lang html Hh
               (head_free_marker p data Hd Hh) Hslug Hlang H).
    + exact (series_page_links slug data lang html H).
  - intros lang series_list html Hclean Hlang H. split.
    + intros p Hh. exact (homepage_head_once p lang series_list html Hh Hclean Hlang H).
    + exact (homepage_links lang series_list html H).
Qed.

Lemma head_tags_once_witness :
  (exists html,
     generate_series_page "naruto" sample_guide "fr" = Ok html /\
     (forall p, In p head_markers -> occ p html = 1) /\
     head_links (series_url "naruto" "fr") (series_url "naruto" "en")
                (series_url "naruto" "fr") html) /\
  (exists html,
     generate_homepage "en" [sample_series "dragon-ball"; sample_series "naruto"] = Ok html /\
     (forall p, In p head_markers -> occ p html = 1) /\
     head_links (home_url "en") (home_url "en") (home_url "fr") html).
Proof.
  destruct head_tags_once as [Hs Hh]. split.
  - destruct (generate_series_page "naruto" sample_guide "fr") as [html|e] eqn:H;
      [|vm_compute in H; discriminate].
    exists html. split; [reflexivity|].
    apply (Hs "naruto" sample_guide "fr"); [reflexivity | reflexivity | | exact H].
    simpl. tauto.
  - destruct (generate_homepage "en" [sample_series "dragon-ball"; sample_series "naruto"])
      as [html|e] eqn:H; [|vm_compute in H; discriminate].
    exists html. split; [reflexivity|].
    apply (Hh "en" [sample_series "dragon-ball"; sample_series "naruto"]);
      [reflexivity | | exact H].
    simpl. tauto.
Defined.

(** C8, as stated, fails: the texts of the guide are not escaped, and the
    English page of a guide whose page title holds [</title><title>] has
    two [<title>] tags. *)
Lemma retitled_page_counterexample :
  exists html,
    generate_series_page "dragon-ball" retitled_guide "en" = Ok html /\
    url_safe "dragon-ball" = true /\
    occ "<title>" html = 2.
Proof.
  destruct (generate_series_page "dragon-ball" retitled_guide "en") as [html|e] eqn:H;
    [|vm_compute in H; discriminate].
  exists html. split; [reflexivity|]. split; [reflexivity|].
  revert H. vm_compute. intros H. injection H as <-. reflexivity.
Qed.

(** ** Runs of the orchestrator *)

Lemma apply_writes_app (ws1 ws2 : list (string * string)) (files : gmap string string) :
  apply_writes (ws1 ++ ws2) files = apply_writes ws2 (apply_writes ws1 files).
Proof.
  revert files; induction ws1 as [|[path content] ws1 IH]; intros files; [reflexivity|].
  cbn [app apply_writes]. apply IH.
Qed.

Lemma after_after (ws1 ws2 : list (string * string)) (ls1 ls2 : list string) (w : world) :
  after ws2 ls2 (after ws1 ls1 w) = after (ws1 ++ ws2) (ls1 ++ ls2) w.
Proof.
  unfold after. cbn [w_files w_stdout]. now rewrite apply_writes_app, app_assoc.
Qed.

Lemma after_nil (w : world) : after [] [] w = w.
Proof. destruct w as [files out]. unfold after. cbn. now rewrite app_nil_r. Qed.

Lemma pbind_print {B : Type} (line : string) (k : unit -> prog B) (w : world) :
  pbind (print line) k w = k tt (after [] [line] w).
Proof. reflexivity. Qed.

Lemma pbind_done {A B : Type} (m : prog A) (k : A -> prog B) (w w' : world) (a : A) :
  m w = (w', Done a) -> pbind m k w = k a w'.
Proof. intros H. unfold pbind. now rewrite H. Qed.

Lemma pbind_exit {A B : Type} (m : prog A) (k : A -> prog B) (w w' : world) (c : Z) :
  m w = (w', Exit c) -> pbind m k w = (w', Exit c).
Proof. intros H. unfold pbind. now rewrite H. Qed.

Lemma pbind_fail {A B : Type} (m : prog A) (k : A -> prog B) (w w' : world) (e : exn) :
  m w = (w', Fail e) -> pbind m k w = (w', Fail e).
Proof. intros H. unfold pbind. now rewrite H. Qed.

(** A step that did not end normally ends the steps that follow it. *)
Lemma pbind_stops {A B : Type} (m : prog A) (k : A -> prog B) (w w' : world) (o : outcome A) :
  m w = (w', o) -> (forall a, o <> Done a) ->
  exists o', pbind m k w = (w', o') /\ exit_status o' = exit_status o /\
             (forall c, o = Exit c -> o' = Exit c).
Proof.
  intros H Ho. destruct o as [a|c|e].
  - now destruct (Ho a).
  - exists (Exit c). rewrite (pbind_exit _ _ _ _ _ H). split; [reflexivity|].
    split; [reflexivity|]. now intros c' [= <-].
  - exists (Fail e). rewrite (pbind_fail _ _ _ _ _ H). split; [reflexivity|].
    split; [reflexivity | discriminate].
Qed.

Section Runs.

Variable BASE_DIR : string.
Variable json_load : string -> result json.

Lemma load_series_missing (slug : string) (w : world) :
  w_files w !! data_file slug = None ->
  load_series BASE_DIR json_load slug w
  = (after [] ["
[1/4] Loading data: " +:+ slug; missing_report BASE_DIR slug] w, Exit 1).
Proof.
  intros H. unfold load_series. rewrite pbind_print.
  apply pbind_exit. unfold load_json. cbn [after w_files apply_writes]. rewrite H.
  rewrite pbind_print. unfold sys_exit. now rewrite after_after.
Qed.

Lemma load_series_present (slug : string) (w : world) (text : string) :
  w_files w !! data_file slug = Some text ->
  exists o, load_series BASE_DIR json_load slug w
            = (after [] ["
[1/4] Loading data: " +:+ slug] w, o) /\
            (forall c, o <> Exit c) /\
            (forall s, o = Done s ->
               exists raw, json_load text = Ok raw /\
                           raw @ "en" = Ok (s_en s) /\ raw @ "fr" = Ok (s_fr s) /\
                           s_slug s = slug).
Proof.
  intros H. unfold load_series. rewrite pbind_print.
  set (w1 := after [] _ w).
  assert (Hl : load_json BASE_DIR json_load slug w1 = lift (json_load text) w1).
  { unfold load_json. cbn [after w1 w_files apply_writes]. now rewrite H. }
  unfold pbind at 1. rewrite Hl. unfold lift at 1.
  destruct (json_load text) as [raw|e] eqn:Hraw;
    [|exists (Fail e); repeat split; discriminate].
  unfold pbind at 1, lift at 1.
  destruct (raw @ "en") as [en|e] eqn:Hen; [|exists (Fail e); repeat split; discriminate].
  unfold pbind at 1, lift at 1.
  destruct (raw @ "fr") as [fr|e] eqn:Hfr; [|exists (Fail e); repeat split; discriminate].
  eexists. split; [reflexivity|]. split; [discriminate|].
  intros s [= <-]. exists raw. cbn [s_en s_fr s_slug]. auto.
Qed.

Lemma load_series_loads (slug : string) (w : world) :
  loads json_load w slug ->
  exists s, load_series BASE_DIR json_load slug w
            = (after [] ["
[1/4] Loading data: " +:+ slug] w, Done s).
Proof.
  intros (text & raw & en & fr & Hf & Hl & Hen & Hfr).
  unfold load_series. rewrite pbind_print.
  set (w1 := after [] _ w).
  assert (Hj : load_json BASE_DIR json_load slug w1 = lift (json_load text) w1).
  { unfold load_json. cbn [after w1 w_files apply_writes]. now rewrite Hf. }
  unfold pbind at 1. rewrite Hj, Hl. unfold lift at 1.
  unfold pbind at 1, lift at 1. rewrite Hen.
  unfold pbind at 1, lift at 1. rewrite Hfr.
  eexists. reflexivity.
Qed.

(** The loading loop stops when a data file is missing, and writes
    nothing. *)
Lemma foreach_load_missing (slugs : list string) (w : world) :
  (exists slug, In slug slugs /\ w_files w !! data_file slug = None) ->
  exists lines o,
    foreach (load_series BASE_DIR json_load) slugs w = (after [] lines w, o) /\
    (forall l, o <> Done l) /\ (forall c, o = Exit c -> c = 1%Z).
Proof.
  revert w; induction slugs as [|slug0 slugs IH]; intros w (slug & Hin & Hnone).
  - destruct Hin.
  - cbn [foreach].
    destruct (w_files w !! data_file slug0) as [text|] eqn:H0.
    + destruct (load_series_present slug0 w text H0) as (o & Hrun & Hexit & _).
      destruct o as [s|c|e].
      * rewrite (pbind_done _ _ _ _ _ Hrun).
        destruct Hin as [->|Hin]; [congruence|].
        destruct (IH (after [] ["
[1/4] Loading data: " +:+ slug0] w)) as (lines & o & Hrest & Hnd & Hone).
        { exists slug. split; [exact Hin | exact Hnone]. }
        rewrite after_after in Hrest. cbn [app] in Hrest.
        destruct o as [l|c|e].
        -- now destruct (Hnd l).
        -- rewrite (pbind_exit _ _ _ _ _ Hrest). eexists _, _.
           split; [reflexivity|]. split; [discriminate|]. intros c' [= <-]. now apply Hone.
        -- rewrite (pbind_fail _ _ _ _ _ Hrest). eexists _, _.
           split; [reflexivity|]. split; discriminate.
      * now destruct (Hexit c).
      * rewrite (pbind_fail _ _ _ _ _ Hrun). eexists _, _.
        split; [reflexivity|]. split; discriminate.
    + rewrite (pbind_exit _ _ _ _ _ (load_series_missing slug0 w H0)). eexists _, _.
      split; [reflexivity|]. split; [discriminate|]. now intros c [= <-].
Qed.

(** When the files before the missing one load, the loop ends on the
    report of the missing file. *)
Lemma foreach_load_first (before : list string) (slug : string) (rest : list string)
    (w : world) :
  Forall (loads json_load w) before -> w_files w !! data_file slug = None ->
  exists lines,
    foreach (load_series BASE_DIR json_load) (before ++ slug :: rest) w
    = (after [] (lines ++ [missing_report BASE_DIR slug]) w, Exit 1).
Proof.
  revert w; induction before as [|slug0 before IH]; intros w Hb Hnone.
  - cbn [app foreach].
    rewrite (pbind_exit _ _ _ _ _ (load_series_missing slug w Hnone)).
    exists ["
[1/4] Loading data: " +:+ slug]. reflexivity.
  - apply Forall_cons_1 in Hb as [H0 Hb]. cbn [app foreach].
    destruct (load_series_loads slug0 w H0) as (s & Hrun).
    rewrite (pbind_done _ _ _ _ _ Hrun).
    destruct (IH (after [] ["
[1/4] Loading data: " +:+ slug0] w)) as (lines & Hrest).
    { eapply Forall_impl; [exact Hb|]. intros x Hx. exact Hx. }
    { exact Hnone. }
    rewrite after_after in Hrest. cbn [app] in Hrest.
    rewrite (pbind_exit _ _ _ _ _ Hrest).
    exists (("
[1/4] Loading data: " +:+ slug0) :: lines). reflexivity.
Qed.

Lemma build_loading (slugs : list string) (w : world) :
  build BASE_DIR json_load slugs w
  = pbind (foreach (load_series BASE_DIR json_load) slugs)
          (fun series_list =>
             do! _ := print "
[2/4] Generating series pages..." in
             do! _ := foreach (fun s => foreach (write_series_page s) ["en"; "fr"]) series_list in
             do! _ := print "
[3/4] Generating homepages..." in
             do! _ := foreach (write_homepage series_list) ["en"; "fr"] in
             do! _ := print "
[4/4] Generating sitemap..." in
             do! _ := write_file "sitemap.xml" (generate_sitemap slugs) in
             do! _ := print ("
" +:+ repeat_str "=" 60) in
             do! _ := print ("Build complete! Generated "
                              +:+ str_of_Z (Z.of_nat (length slugs * 2))
                              +:+ " series pages + 2 homepages.") in
             print (repeat_str "=" 60))
          (after [] [repeat_str "=" 60;
                     "AnimeWatchOrder.com — Static Site Generator";
                     repeat_str "=" 60] w).
Proof.
  unfold build. rewrite !pbind_print, !after_after. reflexivity.
Qed.

Lemma last_snoc_after (lines : list string) (line : string) (w : world) :
  last (w_stdout (after [] (lines ++ [line]) w)) = Some line.
Proof. cbn [after w_stdout]. now rewrite app_assoc, last_snoc. Qed.

(** C3 (missing data file).  When the data file of some configured slug
    is not there, the run ends with a status that is not zero and the
    files are as they were: nothing is written, whatever the other files
    hold, since every data file is loaded before the first page is
    generated.  When the data files of the slugs before the first missing
    one load, the run ends by [sys.exit(1)] and the last line printed is
    the report of the missing path. *)
Theorem missing_data_stops (slugs : list string) (w : world) :
  (exists slug, In slug slugs /\ w_files w !! data_file slug = None) ->
  exists w' o,
    build BASE_DIR json_load slugs w = (w', o) /\
    w_files w' = w_files w /\
    exit_status o <> 0%Z /\
    (forall before slug rest,
       slugs = before ++ slug :: rest ->
       Forall (loads json_load w) before -> w_files w !! data_file slug = None ->
       o = Exit 1 /\ last (w_stdout w') = Some (missing_report BASE_DIR slug)).
Proof.
  intros Hmiss. rewrite build_loading.
  set (w0 := after [] _ w).
  destruct (foreach_load_missing slugs w0) as (lines & o & Hrun & Hnd & Hone).
  { destruct Hmiss as (slug & Hin & Hnone). exists slug. split; [exact Hin | exact Hnone]. }
  destruct (pbind_stops _
              (fun series_list =>
                 do! _ := print "
[2/4] Generating series pages..." in
                 do! _ := foreach (fun s => foreach (write_series_page s) ["en"; "fr"])
                                  series_list in
                 do! _ := print "
[3/4] Generating homepages..." in
                 do! _ := foreach (write_homepage series_list) ["en"; "fr"] in
                 do! _ := print "
[4/4] Generating sitemap..." in
                 do! _ := write_file "sitemap.xml" (generate_sitemap slugs) in
                 do! _ := print ("
" +:+ repeat_str "=" 60) in
                 do! _ := print ("Build complete! Generated "
                                  +:+ str_of_Z (Z.of_nat (length slugs * 2))
                                  +:+ " series pages + 2 homepages.") in
                 print (repeat_str "=" 60))
              _ _ _ Hrun Hnd) as (o' & Hbuild & Hstatus & Hexit).
  exists (after [] lines w0), o'. split; [exact Hbuild|]. split; [reflexivity|]. split.
  - rewrite Hstatus. destruct o as [l|c|e]; cbn [exit_status].
    + now destruct (Hnd l).
    + now rewrite (Hone c eq_refl).
    + discriminate.
  - intros before slug rest -> Hb Hnone.
    destruct (foreach_load_first before slug rest w0) as (lines' & Hfirst).
    { eapply Forall_impl; [exact Hb|]. intros x Hx. exact Hx. }
    { exact Hnone. }
    rewrite Hfirst in Hrun.
    assert (Ho : o = Exit 1) by congruence.
    assert (Hw : after [] lines w0 = after [] (lines' ++ [missing_report BASE_DIR slug]) w0)
      by congruence.
    split; [now apply Hexit|].
    rewrite Hw. apply last_snoc_after.
Qed.

End Runs.

Lemma sample_document_loads (w : world) (slug : string) :
  w_files w !! data_file slug = Some sample_document -> loads read_document w slug.
Proof.
  intros H. exists sample_document, (JObj [("en", sample_guide); ("fr", sample_guide)]),
    sample_guide, sample_guide.
  split; [exact H|]. split; [|split; reflexivity].
  unfold read_document, sample_document. now rewrite json_loads_dumps by reflexivity.
Qed.

Lemma missing_data_stops_witness :
  exists w',
    main "/srv/site" read_document partial_world = (w', Exit 1) /\
    w_files w' = w_files partial_world /\
    last (w_stdout w') = Some "  [ERROR] Data file not found: /srv/site/data/naruto.json".
Proof.
  assert (Hnone : w_files partial_world !! data_file "naruto" = None)
    by (vm_compute; reflexivity).
  destruct (missing_data_stops "/srv/site" read_document SERIES partial_world)
    as (w' & o & Hrun & Hfiles & Hstatus & Hfirst).
  { exists "naruto". split; [simpl; tauto | exact Hnone]. }
  destruct (Hfirst ["dragon-ball"] "naruto" []) as [-> Hlast].
  { reflexivity. }
  { constructor; [|constructor]. apply sample_document_loads. vm_compute. reflexivity. }
  { exact Hnone. }
  exists w'. split; [exact Hrun|]. split; [exact Hfiles | exact Hlast].
Defined.

(** C3, as stated, fails on the report: when the first data file is
    there but holds a document without the [en] key, the run ends on the
    [KeyError] before it looks for the second data file, which is not
    there; its path is never printed. *)
Lemma unreported_missing_file_counterexample :
  w_files broken_world !! data_file "naruto" = None /\
  exists w',
    main "/srv/site" read_document broken_world = (w', Fail (KeyError "en")) /\
    ~ In (missing_report "/srv/site" "naruto") (w_stdout w').
Proof.
  split; [vm_compute; reflexivity|].
  eexists. split; [vm_compute; reflexivity|].
  cbn [w_stdout]. vm_compute. intros H.
  repeat (destruct H as [H|H]; [discriminate|]). exact H.
Qed.

(** ** Runs from the same data *)

Lemma last_char_app (s t : string) :
  t <> EmptyString -> last_char (s +:+ t) = last_char t.
Proof.
  intros Ht. induction s as [|c s IH]; [reflexivity|].
  rewrite str_app_cons. cbn [last_char]. rewrite IH.
  destruct (s +:+ t) eqn:E; [|reflexivity].
  destruct s; [|discriminate]. now rewrite str_app_nil_l in E.
Qed.

Lemma data_file_last (slug : string) : last_char (data_file slug) = Some "n"%char.
Proof.
  unfold data_file. rewrite last_char_app.
  - now rewrite last_char_app.
  - destruct slug; discriminate.
Qed.

Lemma output_path_data (path slug : string) : output_path path -> path <> data_file slug.
Proof. intros H ->. apply H, data_file_last. Qed.

Lemma series_page_file_output (slug lang : string) : output_path (series_page_file slug lang).
Proof.
  unfold output_path, series_page_file. destruct (String.eqb lang "en").
  - now rewrite last_char_app.
  - rewrite last_char_app; [|destruct slug; discriminate]. now rewrite last_char_app.
Qed.

Lemma homepage_file_output (lang : string) : output_path (homepage_file lang).
Proof. unfold output_path, homepage_file. now destruct (String.eqb lang "en"). Qed.

Lemma apply_writes_lookup (writes : list (string * string)) (files : gmap string string)
    (path : string) :
  apply_writes writes files !! path
  = match last_write path writes with
    | Some content => Some content
    | None => files !! path
    end.
Proof.
  revert files; induction writes as [|[path' content] writes IH]; intros files;
    [reflexivity|].
  cbn [apply_writes last_write]. rewrite IH.
  destruct (last_write path writes); [reflexivity|].
  destruct (String.eqb_spec path' path) as [->|Hne].
  - apply lookup_insert_eq.
  - now apply lookup_insert_ne.
Qed.

(** Writing the same files again changes nothing. *)
Lemma apply_writes_idem (writes : list (string * string)) (files : gmap string string) :
  apply_writes writes (apply_writes writes files) = apply_writes writes files.
Proof.
  apply map_eq. intros path. rewrite (apply_writes_lookup writes (apply_writes _ _)).
  destruct (last_write path writes) eqn:E; [|reflexivity].
  now rewrite apply_writes_lookup, E.
Qed.

Lemma last_write_output (writes : list (string * string)) (slug : string) :
  Forall (fun kv => output_path (fst kv)) writes ->
  last_write (data_file slug) writes = None.
Proof.
  induction 1 as [|[path content] writes Hx Hl IH]; [reflexivity|].
  cbn [last_write]. rewrite IH. cbn [fst] in Hx.
  destruct (String.eqb_spec path (data_file slug)) as [E|_]; [|reflexivity].
  now destruct (output_path_data _ _ Hx E).
Qed.

Lemma same_data_after (writes : list (string * string)) (lines1 lines2 : list string)
    (w1 w2 : world) :
  Forall (fun kv => output_path (fst kv)) writes ->
  same_data w1 w2 -> same_data (after writes lines1 w1) (after writes lines2 w2).
Proof.
  intros Hw H slug. cbn [after w_files].
  now rewrite !apply_writes_lookup, (last_write_output _ _ Hw).
Qed.

Lemma uniform_ret {A : Type} (a : A) : uniform (ret a).
Proof.
  intros w1 w2 _. exists [], [], (Done a). split; [constructor|].
  now rewrite !after_nil.
Qed.

Lemma uniform_print (line : string) : uniform (print line).
Proof.
  intros w1 w2 _. exists [], [line], (Done tt). split; [constructor|]. split; reflexivity.
Qed.

Lemma uniform_lift {A : Type} (r : result A) : uniform (lift r).
Proof.
  intros w1 w2 _. destruct r as [a|e].
  - exists [], [], (Done a). split; [constructor|]. now rewrite !after_nil.
  - exists [], [], (Fail e). split; [constructor|]. now rewrite !after_nil.
Qed.

Lemma uniform_sys_exit {A : Type} (code : Z) : uniform (@sys_exit A code).
Proof.
  intros w1 w2 _. exists [], [], (Exit code). split; [constructor|].
  now rewrite !after_nil.
Qed.

Lemma uniform_pbind {A B : Type} (m : prog A) (k : A -> prog B) :
  uniform m -> (forall a, uniform (k a)) -> uniform (pbind m k).
Proof.
  intros Hm Hk w1 w2 Hw.
  destruct (Hm w1 w2 Hw) as (ws & ls & o & Hws & H1 & H2).
  destruct o as [a|c|e].
  - destruct (Hk a (after ws ls w1) (after ws ls w2)) as (ws' & ls' & o' & Hws' & H1' & H2').
    { now apply same_data_after. }
    exists (ws ++ ws'), (ls ++ ls'), o'. split; [now apply Forall_app|].
    rewrite (pbind_done _ _ _ _ _ H1), (pbind_done _ _ _ _ _ H2), H1', H2'.
    now rewrite !after_after.
  - exists ws, ls, (Exit c). split; [exact Hws|].
    now rewrite (pbind_exit _ _ _ _ _ H1), (pbind_exit _ _ _ _ _ H2).
  - exists ws, ls, (Fail e). split; [exact Hws|].
    now rewrite (pbind_fail _ _ _ _ _ H1), (pbind_fail _ _ _ _ _ H2).
Qed.

Lemma uniform_foreach {A B : Type} (f : A -> prog B) (l : list A) :
  (forall x, uniform (f x)) -> uniform (foreach f l).
Proof.
  intros Hf. induction l as [|x l IH]; cbn [foreach].
  - apply uniform_ret.
  - apply uniform_pbind; [apply Hf|]. intros y.
    apply uniform_pbind; [exact IH|]. intros ys. apply uniform_ret.
Qed.

Lemma uniform_write_file (path content : string) :
  output_path path -> uniform (write_file path content).
Proof.
  intros Hpath w1 w2 _. exists [(path, content)], ["  [OK] " +:+ path], (Done tt).
  split; [constructor; [exact Hpath | constructor]|]. split; reflexivity.
Qed.

Section Determinism.

Variable BASE_DIR : string.
Variable json_load : string -> result json.

Lemma uniform_load_json (slug : string) : uniform (load_json BASE_DIR json_load slug).
Proof.
  intros w1 w2 Hw. unfold load_json. rewrite <- (Hw slug).
  destruct (w_files w1 !! data_file slug) as [text|].
  - now apply uniform_lift.
  - apply uniform_pbind; [apply uniform_print | intros _; apply uniform_sys_exit | exact Hw].
Qed.

Lemma uniform_load_series (slug : string) : uniform (load_series BASE_DIR json_load slug).
Proof.
  unfold load_series.
  apply uniform_pbind; [apply uniform_print | intros _].
  apply uniform_pbind; [apply uniform_load_json | intros raw].
  apply uniform_pbind; [apply uniform_lift | intros en].
  apply uniform_pbind; [apply uniform_lift | intros fr].
  apply uniform_ret.
Qed.

Lemma uniform_write_series_page (s : series) (lang : string) :
  uniform (write_series_page s lang).
Proof.
  unfold write_series_page.
  apply uniform_pbind; [apply uniform_lift | intros data].
  apply uniform_pbind; [apply uniform_lift | intros html].
  apply uniform_write_file, series_page_file_output.
Qed.

Lemma uniform_write_homepage (series_list : list series) (lang : string) :
  uniform (write_homepage series_list lang).
Proof.
  unfold write_homepage.
  apply uniform_pbind; [apply uniform_lift | intros html].
  apply uniform_write_file, homepage_file_output.
Qed.

Lemma uniform_build (slugs : list string) : uniform (build BASE_DIR json_load slugs).
Proof.
  unfold build.
  repeat (apply uniform_pbind; [apply uniform_print | intros _]).
  apply uniform_pbind; [apply uniform_foreach, uniform_load_series | intros series_list].
  apply uniform_pbind; [apply uniform_print | intros _].
  apply uniform_pbind.
  { apply uniform_foreach. intros s. apply uniform_foreach, uniform_write_series_page. }
  intros _.
  apply uniform_pbind; [apply uniform_print | intros _].
  apply uniform_pbind; [apply uniform_foreach, uniform_write_homepage | intros _].
  apply uniform_pbind; [apply uniform_print | intros _].
  apply uniform_pbind; [apply uniform_write_file; discriminate | intros _].
  repeat (apply uniform_pbind; [apply uniform_print | intros _]).
  apply uniform_print.
Qed.

(** C5 (determinism).  What a run does is a function of the data files
    alone: from two file systems with the same data files the run ends
    the same way, having written the same contents to the same paths in
    the same order and printed the same lines; it writes no data file.
    So a second run, made on the files the first run left, writes every
    file again with the same content, prints the same lines and ends the
    same way: the file system it leaves is the one it found.  The
    generators themselves are functions of the loaded data, the slug and
    the language. *)
Theorem pipeline_deterministic (slugs : list string) :
  (forall w1 w2,
     same_data w1 w2 ->
     exists writes lines o,
       Forall (fun kv => output_path (fst kv)) writes /\
       build BASE_DIR json_load slugs w1 = (after writes lines w1, o) /\
       build BASE_DIR json_load slugs w2 = (after writes lines w2, o)) /\
  (forall w w' o,
     build BASE_DIR json_load slugs w = (w', o) ->
     build BASE_DIR json_load slugs (rerun_world w w') = (w', o)).
Proof.
  split; [exact (uniform_build slugs)|].
  intros w w' o H.
  destruct (uniform_build slugs w w) as (ws0 & ls0 & o0 & Hws0 & H0 & _);
    [intros slug; reflexivity|].
  assert (Hsame : same_data w (rerun_world w w')).
  { rewrite H0 in H. injection H as <- _. intros slug. cbn [rerun_world after w_files].
    now rewrite apply_writes_lookup, (last_write_output _ _ Hws0). }
  destruct (uniform_build slugs w (rerun_world w w') Hsame)
    as (ws & ls & o' & Hws & H1 & H2).
  rewrite H1 in H. injection H as <- <-. rewrite H2. f_equal.
  unfold after, rerun_world. cbn [w_files w_stdout]. now rewrite apply_writes_idem.
Qed.

End Determinism.

Lemma pipeline_deterministic_witness :
  exists w',
    main "/srv/site" read_document sample_world = (w', Done tt) /\
    main "/srv/site" read_document (rerun_world sample_world w') = (w', Done tt) /\
    size (w_files w') = 9.
Proof.
  destruct (main "/srv/site" read_document sample_world) as [w' o] eqn:H.
  assert (Ho : o = Done tt /\ size (w_files w') = 9).
  { revert H. vm_compute. intros [= <- <-]. split; reflexivity. }
  destruct Ho as [-> Hsize].
  exists w'. split; [reflexivity|]. split; [|exact Hsize].
  destruct (pipeline_deterministic "/srv/site" read_document SERIES) as [_ Hrerun].
  exact (Hrerun sample_world w' (Done tt) H).
Defined.

(** * Further properties *)

(** ** Field formatters *)

Lemma mapping_get_unhashable {A : Type} (m : list (string * A)) (key : json) (d : A) :
  hashable key = false -> mapping_get m key d = Raise TypeError.
Proof. destruct key; try discriminate; reflexivity. Qed.

Lemma mapping_get_hashable {A : Type} (m : list (string * A)) (key : json) (d : A) :
  hashable key = true -> exists v, mapping_get m key d = Ok v /\ (v = d \/ In v (map snd m)).
Proof.
  intros H. destruct key; try discriminate; cbn [mapping_get]; eauto.
  destruct (dict_lookup s m) eqn:E; eauto using dict_lookup_in.
Qed.

(** X1 (class formatters).  For a key that is text, a number, a boolean
    or [None], [badge_class] gives one of the five badge classes and
    [verdict_class] one of the three verdict classes, whatever the key
    is; for a key that is a list or a dict both raise [TypeError], as a
    dict lookup does on a key that cannot be hashed. *)
Theorem class_formatters_range (key : json) :
  if hashable key
  then (exists c, badge_class key = Ok c /\
                  In c ["badge--canon"; "badge--mixed"; "badge--film-canon";
                        "badge--non-canon"; "badge--filler"]) /\
       (exists c, verdict_class key = Ok c /\
                  In c ["verdict--must-watch"; "verdict--watchable"; "verdict--skip"])
  else badge_class key = Raise TypeError /\ verdict_class key = Raise TypeError.
Proof.
  destruct (hashable key) eqn:H.
  - split.
    + destruct (mapping_get_hashable
                  [("canon", "badge--canon"); ("mixed", "badge--mixed");
                   ("film_canon", "badge--film-canon"); ("non_canon", "badge--non-canon");
                   ("filler", "badge--filler")] key "badge--canon" H) as (c & Hc & Hin).
      exists c. split; [exact Hc|]. cbn [map snd In] in Hin |- *.
      destruct Hin as [->|Hin]; tauto.
    + destruct (mapping_get_hashable
                  [("must_watch", "verdict--must-watch"); ("watchable", "verdict--watchable");
                   ("skip", "verdict--skip")] key "verdict--watchable" H) as (c & Hc & Hin).
      exists c. split; [exact Hc|]. cbn [map snd In] in Hin |- *.
      destruct Hin as [->|Hin]; tauto.
  - split; now apply mapping_get_unhashable.
Qed.

Lemma lookup_none_getitem (k : string) (fields : list (string * json)) :
  dict_lookup k fields = None -> JObj fields @ k = Raise (KeyError k).
Proof. intros H. cbn [py_getitem]. now rewrite H. Qed.

(** X2 (label formatters).  [verdict_label] and [type_label] build
    their table of labels before they look the key up: when [ui] lacks
    one of the three verdict labels, [verdict_label] raises [KeyError]
    for every key, also a key whose label is there, and likewise
    [type_label] for the labels [canon], [mixed], [film_canon] and
    [non_canon].  Only the [filler] label is optional: without it, the
    label of [filler] is [Filler]. *)
Theorem label_formatters_need_every_label (key : json) (fields : list (string * json))
    (k : string) :
  dict_lookup k fields = None ->
  (In k ["must_watch"; "watchable"; "skip"] ->
   exists k', In k' ["must_watch"; "watchable"; "skip"] /\
              dict_lookup k' fields = None /\
              verdict_label key (JObj fields) = Raise (KeyError k')) /\
  (In k ["canon"; "mixed"; "film_canon"; "non_canon"] ->
   exists k', In k' ["canon"; "mixed"; "film_canon"; "non_canon"] /\
              dict_lookup k' fields = None /\
              type_label key (JObj fields) = Raise (KeyError k')) /\
  (k = "filler" -> has_keys ["canon"; "mixed"; "film_canon"; "non_canon"] (JObj fields) = true ->
   type_label (JStr "filler") (JObj fields) = Ok (JStr "Filler")).
Proof.
  intros Hk. split; [|split].
  - intros Hin. unfold verdict_label. cbn [py_getitem].
    destruct (dict_lookup "must_watch" fields) eqn:E1;
      [|exists "must_watch"; cbn; auto].
    destruct (dict_lookup "watchable" fields) eqn:E2;
      [|exists "watchable"; cbn; auto].
    destruct (dict_lookup "skip" fields) eqn:E3;
      [|exists "skip"; cbn; auto 6].
    exfalso. cbn [In] in Hin. destruct Hin as [<-|[<-|[<-|[]]]]; congruence.
  - intros Hin. unfold type_label. cbn [py_getitem].
    destruct (dict_lookup "canon" fields) eqn:E1; [|exists "canon"; cbn; auto].
    destruct (dict_lookup "mixed" fields) eqn:E2; [|exists "mixed"; cbn; auto].
    destruct (dict_lookup "film_canon" fields) eqn:E3; [|exists "film_canon"; cbn; auto 6].
    destruct (dict_lookup "non_canon" fields) eqn:E4; [|exists "non_canon"; cbn; auto 7].
    exfalso. cbn [In] in Hin. destruct Hin as [<-|[<-|[<-|[<-|[]]]]]; congruence.
  - intros -> H. unfold type_label. cbn [has_keys forallb] in H. cbn [py_getitem py_get].
    rewrite Hk.
    destruct (dict_lookup "canon" fields); [|discriminate].
    destruct (dict_lookup "mixed" fields); [|discriminate].
    destruct (dict_lookup "film_canon" fields); [|discriminate].
    destruct (dict_lookup "non_canon" fields); [|discriminate].
    reflexivity.
Qed.

Lemma label_formatters_need_every_label_witness :
  (exists k', verdict_label (JStr "must_watch")
                (JObj [("must_watch", JStr "Must Watch"); ("watchable", JStr "Watchable")])
              = Raise (KeyError k')) /\
  type_label (JStr "filler")
    (JObj [("canon", JStr "Canon"); ("mixed", JStr "Mixed");
           ("film_canon", JStr "Canon Film"); ("non_canon", JStr "Non-Canon")])
  = Ok (JStr "Filler").
Proof.
  split.
  - destruct (label_formatters_need_every_label (JStr "must_watch")
                [("must_watch", JStr "Must Watch"); ("watchable", JStr "Watchable")]
                "skip" eq_refl) as [H _].
    destruct H as (k' & _ & _ & H); [simpl; tauto|]. now exists k'.
  - destruct (label_formatters_need_every_label (JStr "filler")
                [("canon", JStr "Canon"); ("mixed", JStr "Mixed");
                 ("film_canon", JStr "Canon Film"); ("non_canon", JStr "Non-Canon")]
                "filler" eq_refl) as (_ & _ & H).
    exact (H eq_refl eq_refl).
Defined.

(** ** The URLs of the pages *)

Lemma infix_of_trans (x e t : string) : infix_of x e -> infix_of e t -> infix_of x t.
Proof.
  intros (a & b & ->) (c & d & ->). exists (c +:+ a), (b +:+ d).
  now rewrite !str_app_assoc.
Qed.

Lemma infix_of_join (x sep e : string) (l : list string) :
  In e l -> infix_of x e -> infix_of x (join sep l).
Proof.
  intros Hin Hx. induction l as [|y l IH]; [contradiction|].
  destruct l as [|z l].
  - destruct Hin as [->|[]]. exact Hx.
  - rewrite join_cons2. destruct Hin as [->|Hin].
    + now apply infix_of_app_l.
    + apply infix_of_app_r, infix_of_app_r. now apply IH.
Qed.

Lemma url_block_loc (loc en fr priority : string) :
  infix_of ("<loc>" +:+ loc +:+ "</loc>") (url_block loc en fr priority).
Proof.
  unfold url_block. exists "  <url>
    ". eexists. rewrite !str_app_assoc. reflexivity.
Qed.

Lemma sitemap_loc (slugs : list string) (en fr loc : string) :
  In (en, fr) (sitemap_urls slugs) -> loc = en \/ loc = fr ->
  infix_of ("<loc>" +:+ loc +:+ "</loc>") (generate_sitemap slugs).
Proof.
  intros Hin Hloc. rewrite sitemap_structure. unfold sitemap_of_blocks.
  apply infix_of_app_r, infix_of_app_l.
  destruct Hloc as [->| ->].
  - apply (infix_of_join _ _ (url_block en en fr "1.0")); [|apply url_block_loc].
    unfold sitemap_blocks. apply in_flat_map. exists (en, fr). split; [exact Hin|].
    cbn [fst snd In]. auto.
  - apply (infix_of_join _ _ (url_block fr en fr "0.9")); [|apply url_block_loc].
    unfold sitemap_blocks. apply in_flat_map. exists (en, fr). split; [exact Hin|].
    cbn [fst snd In]. auto.
Qed.

(** X3 (one URL per page).  In English and in French, the canonical URL
    of a series page ([series_url], which is also the [url] of its JSON-LD
    block) is the site URL followed by the path of the file the
    orchestrator writes the page to, less [index.html], and so is the
    canonical URL of a homepage; each of these URLs is the [<loc>] of an
    entry of the sitemap the same run writes. *)
Theorem page_urls_agree (slugs : list string) (slug lang : string) :
  In lang ["en"; "fr"] ->
  series_url slug lang +:+ "index.html" = SITE_URL +:+ "/" +:+ series_page_file slug lang /\
  home_url lang +:+ "index.html" = SITE_URL +:+ "/" +:+ homepage_file lang /\
  infix_of ("<loc>" +:+ home_url lang +:+ "</loc>") (generate_sitemap slugs) /\
  (In slug slugs ->
   infix_of ("<loc>" +:+ series_url slug lang +:+ "</loc>") (generate_sitemap slugs)).
Proof.
  intros Hlang.
  assert (Hhome : In (SITE_URL +:+ "/", SITE_URL +:+ "/fr/") (sitemap_urls slugs))
    by now left.
  assert (Hseries : In slug slugs ->
                    In (SITE_URL +:+ "/" +:+ slug +:+ "/", SITE_URL +:+ "/fr/" +:+ slug +:+ "/")
                       (sitemap_urls slugs)).
  { intros Hin. right. apply in_map_iff. now exists slug. }
  cbn [In] in Hlang. destruct Hlang as [<-|[<-|[]]].
  - split; [|split; [|split]].
    + unfold series_url, series_page_file. cbn [String.eqb Ascii.eqb Bool.eqb].
      now rewrite !str_app_assoc.
    + reflexivity.
    + apply (sitemap_loc slugs _ _ _ Hhome). now left.
    + intros Hin. apply (sitemap_loc slugs _ _ _ (Hseries Hin)). now left.
  - split; [|split; [|split]].
    + unfold series_url, series_page_file. cbn [String.eqb Ascii.eqb Bool.eqb].
      rewrite !str_app_assoc. reflexivity.
    + reflexivity.
    + apply (sitemap_loc slugs _ _ _ Hhome). now right.
    + intros Hin. apply (sitemap_loc slugs _ _ _ (Hseries Hin)). now right.
Qed.

Lemma page_urls_agree_witness :
  series_url "naruto" "fr" +:+ "index.html"
  = SITE_URL +:+ "/" +:+ series_page_file "naruto" "fr" /\
  infix_of ("<loc>https://animewatchorder.com/fr/naruto/</loc>") (generate_sitemap SERIES).
Proof.
  destruct (page_urls_agree SERIES "naruto" "fr") as (H1 & _ & _ & H4); [simpl; tauto|].
  split; [exact H1|]. apply H4. simpl. tauto.
Defined.

(** ** What the series page reads *)

(** X4 (keys read).  The series page is a function of the slug, the
    language and fifteen keys of the guide: two guides that give the same
    value, or the same exception, for each of these keys give the same
    page, or raise the same exception.  The [films] and [fillers] keys are
    not among them: [build_films_rows] and [build_fillers_rows] are never
    called, and no films or fillers table is rendered. *)
Theorem series_page_reads (slug lang : string) (d1 d2 : json) :
  (forall k, In k series_page_keys -> d1 @ k = d2 @ k) ->
  generate_series_page slug d1 lang = generate_series_page slug d2 lang.
Proof.
  intros H.
  assert (E : Forall (fun k => d1 @ k = d2 @ k) series_page_keys)
    by now apply List.Forall_forall.
  clear H. unfold series_page_keys in E.
  unfold generate_series_page, build_why_confusing_html, build_paths_html,
    build_compare_html, build_timeline_rows, timeline_rows_list, build_faq_html,
    build_streaming_html, streaming_cards_list, build_schema_json, build_schema,
    build_faq_schema, build_faq.
  repeat match type of E with
         | Forall _ (?k :: _) =>
             let a := fresh "a" in
             let Ea := fresh "Ea" in
             apply Forall_cons_1 in E as [Ea E];
             set (a := d1 @ k) in *; clearbody a; subst a
         end.
  reflexivity.
Qed.

Lemma series_page_reads_witness :
  generate_series_page "dragon-ball" sample_guide_films "en"
  = generate_series_page "dragon-ball" sample_guide "en" /\
  (exists films, sample_guide_films @ "films" = Ok films) /\
  sample_guide @ "films" = Raise (KeyError "films").
Proof.
  split; [|split; [eexists; reflexivity | reflexivity]].
  apply series_page_reads. intros k Hk.
  unfold series_page_keys in Hk. cbn [In] in Hk.
  repeat (destruct Hk as [<-|Hk]; [reflexivity|]). contradiction.
Defined.

(** ** Counting the rows of a table *)

Lemma counted_occ (p : string) (n : nat) (s : string) :
  p <> EmptyString -> counted p n s -> occ p s = n.
Proof.
  intros Hp H. specialize (H EmptyString). rewrite str_app_nil_r in H.
  rewrite H, occ_nil by assumption. lia.
Qed.

Lemma counted_eq (p : string) (n m : nat) (s : string) :
  counted p n s -> n = m -> counted p m s.
Proof. now intros H <-. Qed.

Lemma fstring_counted (p : string) (ps : list part) (s : string) :
  p <> EmptyString -> parts_closed p ps = true ->
  Forall (part_free p) ps -> fstring ps = Ok s -> counted p (parts_lit_occ p ps) s.
Proof.
  intros Hp Hok Hfree H t.
  destruct (fstring_segs _ _ H) as (segs & F & ->).
  rewrite occ_flatten_app; eauto using parts_segs_closed, parts_segs_free.
  now rewrite <- (parts_segs_lit_occ p _ _ F).
Qed.

Lemma counted_join (p : string) (l : list string) :
  marker p -> Forall (counted p 1) l -> occ p (join "
" l) = length l.
Proof.
  intros Hm Hl.
  pose proof (occ_join p "
" 1 l EmptyString) as H. rewrite str_app_nil_r in H.
  rewrite H.
  - rewrite occ_nil by now apply marker_nonempty. lia.
  - intros u. now apply occ_app_no_lt.
  - exact Hl.
Qed.

Lemma traverse_length {A B : Type} (f : A -> result B) (l : list A) (ys : list B) :
  traverse f l = Ok ys -> length ys = length l.
Proof.
  intros H. apply traverse_ok in H. induction H; cbn [length]; congruence.
Qed.

Lemma row_marker_marker (p : string) : In p row_markers -> marker p.
Proof.
  unfold row_markers. cbn [In]. intros H.
  repeat (destruct H as [<-|H]; [reflexivity|]). contradiction.
Qed.

(** Decides a check of a template for each row marker in turn. *)
Ltac each_row Hp :=
  let H := fresh "Hp'" in
  pose proof Hp as H; cbv [row_markers In] in H;
  repeat (destruct H as [<-|H]; [vm_compute; reflexivity|]); contradiction.

(** The tactics of the head markers, for a marker known by [Hm : marker p]. *)
Ltac json_free_at Hm :=
  lazymatch goal with
  | |- json_free ?p ?v = true =>
      first
        [ assumption
        | match goal with
          | H : py_getitem ?o ?k = Ok v |- _ =>
              apply (json_free_getitem p o k v); [json_free_at Hm | exact H]
          | H : py_get ?o ?k ?d = Ok v |- _ =>
              apply (json_free_get p o k d v); [json_free_at Hm | json_free_at Hm | exact H]
          | H : type_label ?t ?ui = Ok v |- _ =>
              apply (type_label_free p t ui v);
              [exact Hm | json_free_at Hm | json_free_at Hm | exact H]
          | H : verdict_label ?t ?ui = Ok v |- _ =>
              apply (verdict_label_free p t ui v);
              [json_free_at Hm | json_free_at Hm | exact H]
          | H : bind _ _ = Ok v |- _ => binds_inv H; json_free_at Hm
          end
        | apply json_free_const; [exact Hm | reflexivity] ]
  end.

Ltac free_field_at Hm :=
  let v := fresh "w" in
  let Hv := fresh "Hw" in
  intros v Hv; unfold fmt in Hv; binds_inv Hv;
  first
    [ eapply py_str_free; [exact Hm | | exact Hv]; json_free_at Hm
    | apply occ_no_lt; [exact Hm |];
      first [eapply badge_class_no_lt; exact Hv | eapply verdict_class_no_lt; exact Hv] ].

Ltac free_part_at Hm :=
  cbn [part_free];
  first
    [ exact I
    | assumption
    | apply occ_no_lt; [exact Hm | no_lt_tac]
    | apply occ_no_lt; [exact Hm | eapply verdict_class_no_lt; eassumption]
    | free_field_at Hm ].

Ltac free_parts_at Hm :=
  repeat (apply List.Forall_cons; [free_part_at Hm|]); apply List.Forall_nil.

(** Counts the marker in the text built by [H : fstring [...] = Ok s]. *)
Ltac count_fstring Hp Hm H :=
  apply (fstring_counted _ _ _ (marker_nonempty _ Hm)) in H;
  [ apply (counted_eq _ _ _ _ H); each_row Hp | each_row Hp | free_parts_at Hm ].

Section Rows.

Variable p : string.
Hypothesis Hp : In p row_markers.

Lemma timeline_row_counted (ui item : json) (s : string) :
  json_free p ui = true -> json_free p item = true ->
  timeline_row ui item = Ok s -> counted p 1 s.
Proof.
  intros Hui Hitem H. pose proof (row_marker_marker p Hp) as Hm.
  unfold timeline_row in H.
  bind_inv H. rename v into recommended. bind_inv H. rename v into rec.
  cbv zeta in H. bind_inv H. rename v into watch_url.
  destruct (py_truthy recommended).
  - bind_inv Eq0. injection Eq0 as <-. cbn [fst snd] in H.
    rewrite (fstring_nest_at 6 _ _ _ Eq2) in H by reflexivity. cbn [take drop app] in H.
    rewrite (fstring_nest_at 1 [L " class=`row--recommended`"] _ _ eq_refl) in H
      by reflexivity.
    cbn [take drop app] in H.
    count_fstring Hp Hm H.
  - injection Eq0 as <-. cbn [fst snd] in H.
    rewrite (fstring_nest_at 6 [] _ EmptyString eq_refl) in H by reflexivity.
    cbn [take drop app] in H.
    rewrite (fstring_nest_at 1 [] _ EmptyString eq_refl) in H by reflexivity.
    cbn [take drop app] in H.
    count_fstring Hp Hm H.
Qed.

Lemma rows_counted (f : json -> result string) (v : json)
    (items : list json) (rows : list string) :
  json_free p v = true -> py_iter v = Ok items ->
  (forall x y, json_free p x = true -> f x = Ok y -> counted p 1 y) ->
  traverse f items = Ok rows ->
  occ p (join "
" rows) = length items.
Proof.
  intros Hv Hiter Hf H. pose proof (row_marker_marker p Hp) as Hm.
  rewrite <- (traverse_length _ _ _ H). apply counted_join; [exact Hm|].
  eapply (traverse_Forall (fun x => json_free p x = true)); [exact Hf | | exact H].
  eapply json_free_iter; [now apply marker_nonempty | exact Hv | exact Hiter].
Qed.

Lemma build_timeline_rows_count (data ui : json) (items : list json) (rows : string) :
  json_free p data = true -> json_free p ui = true ->
  (let! timeline := data @ "timeline" in py_iter timeline) = Ok items ->
  build_timeline_rows data ui = Ok rows -> occ p rows = length items.
Proof.
  intros Hd Hui Hitems H. pose proof (row_marker_marker p Hp) as Hm.
  unfold build_timeline_rows, timeline_rows_list in H.
  binds_inv H. injection H as <-. binds_inv Eq. bind_inv Hitems.
  rewrite Eq0 in Eq2. injection Eq2 as <-. rewrite Eq1 in Hitems. injection Hitems as <-.
  eapply (rows_counted (timeline_row ui) v0); [ | exact Eq1 | | exact Eq].
  - json_free_at Hm.
  - intros x y Hx Hy. exact (timeline_row_counted ui x y Hui Hx Hy).
Qed.

Lemma film_row_counted (ui film : json) (s : string) :
  json_free p ui = true -> json_free p film = true ->
  film_row ui film = Ok s -> counted p 1 s.
Proof.
  intros Hui Hfilm H. pose proof (row_marker_marker p Hp) as Hm.
  unfold film_row in H. bind_inv H. rename v into canon. cbv zeta in H.
  bind_inv H. rename v into canon'. bind_inv H. rename v into canon_text.
  bind_inv H. rename v into verdict. bind_inv H. rename v into v_class.
  bind_inv H. rename v into verdict'. bind_inv H. rename v into v_label.
  assert (Htext : json_free p canon_text = true).
  { destruct (py_truthy canon'); json_free_at Hm. }
  destruct (py_truthy canon); count_fstring Hp Hm H.
Qed.

Lemma filler_row_counted (ui filler : json) (s : string) :
  json_free p ui = true -> json_free p filler = true ->
  filler_row ui filler = Ok s -> counted p 1 s.
Proof.
  intros Hui Hfiller H. pose proof (row_marker_marker p Hp) as Hm.
  unfold filler_row in H.
  bind_inv H. rename v into verdict. bind_inv H. rename v into v_class.
  bind_inv H. rename v into verdict'. bind_inv H. rename v into v_label.
  count_fstring Hp Hm H.
Qed.

End Rows.

(** X5 (timeline rows).  When no string of the guide or of the labels
    contains [<tr] or [</tr>], [build_timeline_rows] gives exactly one
    table row per entry of the timeline: the result counts as many [<tr]
    and as many [</tr>] as the timeline has entries, none for an empty
    timeline. *)
Theorem timeline_rows_count (data ui : json) (items : list json) (rows : string) :
  json_free "<tr" data = true -> json_free "</tr>" data = true ->
  json_free "<tr" ui = true -> json_free "</tr>" ui = true ->
  (let! timeline := data @ "timeline" in py_iter timeline) = Ok items ->
  build_timeline_rows data ui = Ok rows ->
  occ "<tr" rows = length items /\ occ "</tr>" rows = length items.
Proof.
  intros Hd1 Hd2 Hu1 Hu2 Hitems H. split.
  - apply (build_timeline_rows_count "<tr") with (data := data) (ui := ui);
      [simpl; tauto | assumption..].
  - apply (build_timeline_rows_count "</tr>") with (data := data) (ui := ui);
      [simpl; tauto | assumption..].
Qed.

Lemma timeline_rows_count_witness :
  exists rows,
    build_timeline_rows sample_guide sample_ui = Ok rows /\
    occ "<tr" rows = 1 /\ occ "</tr>" rows = 1.
Proof.
  destruct (build_timeline_rows sample_guide sample_ui) as [rows|e] eqn:H;
    [|vm_compute in H; discriminate].
  exists rows. split; [reflexivity|].
  apply (timeline_rows_count sample_guide sample_ui [sample_entry] rows);
    try reflexivity. exact H.
Defined.

(** X6 (films and fillers rows).  [build_films_rows] and
    [build_fillers_rows] give one table row per film and per filler arc,
    counted in the same way, when no string of the guide or of the labels
    contains [<tr] or [</tr>]. *)
Theorem films_fillers_rows_count (data ui : json) (p : string) :
  In p row_markers -> json_free p data = true -> json_free p ui = true ->
  (forall items rows,
     (let! films := data @ "films" in py_iter films) = Ok items ->
     build_films_rows data ui = Ok rows -> occ p rows = length items) /\
  (forall items rows,
     (let! fillers := data @ "fillers" in py_iter fillers) = Ok items ->
     build_fillers_rows data ui = Ok rows -> occ p rows = length items).
Proof.
  intros Hp Hd Hui. pose proof (row_marker_marker p Hp) as Hm. split.
  - intros items rows Hitems H. unfold build_films_rows in H.
    binds_inv H. injection H as <-. bind_inv Hitems.
    rewrite Eq in Eq2. injection Eq2 as <-. rewrite Eq0 in Hitems. injection Hitems as <-.
    eapply (rows_counted p Hp (film_row ui) v); [ | exact Eq0 | | exact Eq1].
    + json_free_at Hm.
    + intros x y Hx Hy. exact (film_row_counted p Hp ui x y Hui Hx Hy).
  - intros items rows Hitems H. unfold build_fillers_rows in H.
    binds_inv H. injection H as <-. bind_inv Hitems.
    rewrite Eq in Eq2. injection Eq2 as <-. rewrite Eq0 in Hitems. injection Hitems as <-.
    eapply (rows_counted p Hp (filler_row ui) v); [ | exact Eq0 | | exact Eq1].
    + json_free_at Hm.
    + intros x y Hx Hy. exact (filler_row_counted p Hp ui x y Hui Hx Hy).
Qed.

Lemma films_fillers_rows_count_witness :
  (exists rows, build_films_rows sample_guide_films sample_ui_films = Ok rows /\
                occ "<tr" rows = 1) /\
  (exists rows, build_fillers_rows sample_guide_films sample_ui_films = Ok rows /\
                occ "<tr" rows = 1).
Proof.
  destruct (films_fillers_rows_count sample_guide_films sample_ui_films "<tr")
    as [Hfilms Hfillers]; [simpl; tauto | reflexivity | reflexivity |].
  split.
  - destruct (build_films_rows sample_guide_films sample_ui_films) as [rows|e] eqn:H;
      [|vm_compute in H; discriminate].
    exists rows. split; [reflexivity|].
    eapply (Hfilms [_] rows); reflexivity.
  - destruct (build_fillers_rows sample_guide_films sample_ui_films) as [rows|e] eqn:H;
      [|vm_compute in H; discriminate].
    exists rows. split; [reflexivity|].
    eapply (Hfillers [_] rows); reflexivity.
Defined.

(** ** Guides that render *)

Lemma bind_total {A B : Type} (m : result A) (k : A -> result B) :
  (exists a, m = Ok a) -> (forall a, m = Ok a -> exists b, k a = Ok b) ->
  exists b, bind m k = Ok b.
Proof. intros [a Ha] Hk. rewrite Ha. cbn [bind]. now apply Hk. Qed.

Lemma traverse_total {A B : Type} (f : A -> result B) (l : list A) :
  Forall (fun x => exists y, f x = Ok y) l -> exists ys, traverse f l = Ok ys.
Proof.
  induction 1 as [|x l [y Hy] Hl [ys IH]]; [now exists []|].
  exists (y :: ys). cbn [traverse]. now rewrite Hy, IH.
Qed.

Lemma traverse_from_total {A B : Type} (f : nat -> A -> result B) (l : list A) (i : nat) :
  Forall (fun x => forall j, exists y, f j x = Ok y) l ->
  exists ys, traverse_from i f l = Ok ys.
Proof.
  intros H. revert i. induction H as [|x l Hx Hl IH]; intros i; [now exists []|].
  destruct (Hx i) as [y Hy]. destruct (IH (S i)) as [ys Hys].
  exists (y :: ys). cbn [traverse_from]. now rewrite Hy, Hys.
Qed.

Lemma fstring_total (ps : list part) :
  Forall part_total ps -> exists s, fstring ps = Ok s.
Proof.
  induction 1 as [|x ps Hx Hps [r IH]]; [now exists EmptyString|].
  destruct x as [l|h|f]; cbn [fstring part_total] in *.
  - rewrite IH. eexists. reflexivity.
  - rewrite IH. eexists. reflexivity.
  - destruct Hx as [v ->]. rewrite IH. eexists. reflexivity.
Qed.

Lemma hashable_str (v : json) : hashable v = true -> exists s, py_str v = Ok s.
Proof. destruct v as [|[]| | | | |]; try discriminate; eexists; reflexivity. Qed.

Lemma has_scalar_item (k : string) (o : json) :
  has_scalar k o = true -> exists v, o @ k = Ok v /\ hashable v = true.
Proof. unfold has_scalar. destruct (o @ k) as [v|e]; [eauto | discriminate]. Qed.

Lemma scalars_item (keys : list string) (o : json) (k : string) :
  scalars keys o = true -> In k keys -> exists v, o @ k = Ok v /\ hashable v = true.
Proof.
  unfold scalars. rewrite forallb_forall. intros H Hk. now apply has_scalar_item, H.
Qed.

Lemma scalars_fmt (keys : list string) (o : json) (k : string) :
  scalars keys o = true -> In k keys -> exists s, fmt (o @ k) = Ok s.
Proof.
  intros H Hk. destruct (scalars_item keys o k H Hk) as (v & Hv & Hh).
  unfold fmt. rewrite Hv. cbn [bind]. now apply hashable_str.
Qed.

Lemma scalars_dict (keys : list string) (o : json) (k : string) :
  scalars keys o = true -> In k keys -> exists fields, o = JObj fields.
Proof.
  intros H Hk. destruct (scalars_item keys o k H Hk) as (v & Hv & _).
  destruct o; try discriminate. eauto.
Qed.

Lemma dict_get (fields : list (string * json)) (k : string) (d : json) :
  exists v, py_get (JObj fields) k d = Ok v.
Proof. cbn [py_get]. destruct (dict_lookup k fields); eauto. Qed.

Lemma opt_scalar_get (k : string) (o d : json) :
  opt_scalar k o = true -> hashable d = true ->
  exists v, py_get o k d = Ok v /\ hashable v = true.
Proof.
  unfold opt_scalar, py_get. destruct o; try discriminate.
  destruct (dict_lookup k fields); eauto.
Qed.

Lemma list_of_items (ok : json -> bool) (k : string) (o : json) :
  list_of ok k o = true ->
  exists items, o @ k = Ok (JArr items) /\ Forall (fun x => ok x = true) items.
Proof.
  unfold list_of. destruct (o @ k) as [[| | | |items| |]|]; try discriminate.
  intros H. exists items. split; [reflexivity|].
  apply List.Forall_forall. now apply forallb_forall.
Qed.

Lemma dict_of_item (ok : json -> bool) (k : string) (o : json) :
  dict_of ok k o = true -> exists v, o @ k = Ok v /\ ok v = true.
Proof. unfold dict_of. destruct (o @ k) as [v|]; [eauto | discriminate]. Qed.

Lemma nested_fmt (o : json) (k1 k2 : string) (v : json) :
  o @ k1 = Ok v -> (exists s, fmt (v @ k2) = Ok s) -> exists s, fmt (o @ k1 @@ k2) = Ok s.
Proof. intros H [s Hs]. exists s. unfold fmt in *. now rewrite H. Qed.

(** Proves [In k keys] for a key and a list of keys that are given. *)
Ltac in_keys := cbv [ui_keys In]; repeat first [left; reflexivity | right].

(** Proves that a replacement field formats, from the checks of the
    guide that are in the context. *)
Ltac total_field :=
  lazymatch goal with
  | |- exists s, fmt (py_getitem ?o ?k) = Ok s =>
      match goal with
      | H : scalars ?keys o = true |- _ => apply (scalars_fmt keys o k H); in_keys
      end
  | |- exists s, fmt (bind (py_getitem ?o ?k1) (fun obj => py_getitem obj ?k2)) = Ok s =>
      match goal with
      | H : py_getitem o k1 = Ok ?v |- _ => apply (nested_fmt o k1 k2 v H); total_field
      end
  | |- exists s, py_str ?v = Ok s =>
      apply hashable_str; assumption
  end.

Ltac total_part := cbn [part_total]; first [exact I | total_field].

Ltac total_parts :=
  apply fstring_total; repeat (apply List.Forall_cons; [total_part|]); apply List.Forall_nil.

Lemma ui_ok_scalars (ui : json) : ui_ok ui = true -> scalars ui_keys ui = true.
Proof.
  unfold ui_ok. intros H. apply andb_true_iff in H as [H _].
  now apply andb_true_iff in H as [H _].
Qed.

Lemma faq_item_total (faq : json) : faq_ok faq = true -> exists s, faq_item faq = Ok s.
Proof. unfold faq_ok, faq_item. intros H. total_parts. Qed.

Lemma build_faq_html_total (data : json) :
  list_of faq_ok "faq" data = true -> exists s, build_faq_html data = Ok s.
Proof.
  intros H. destruct (list_of_items _ _ _ H) as (items & Hitems & Hall).
  unfold build_faq_html. rewrite Hitems. cbn [bind py_iter].
  destruct (traverse_total faq_item items) as [ys ->].
  { eapply Forall_impl; [exact Hall|]. intros x Hx. now apply faq_item_total. }
  eexists. reflexivity.
Qed.

Lemma build_why_confusing_html_total (data ui : json) :
  dict_of (scalars ["content"]) "why_confusing" data = true -> ui_ok ui = true ->
  exists s, build_why_confusing_html data ui = Ok s.
Proof.
  intros H Hui. apply ui_ok_scalars in Hui.
  destruct (dict_of_item _ _ _ H) as (wc & Hwc & Hok).
  unfold build_why_confusing_html. rewrite Hwc. cbn [bind]. total_parts.
Qed.

Lemma label_tag_total (ui : json) (open close : string) :
  ui_ok ui = true ->
  exists s, fstring [L open; E (fmt (ui @ "recommended_label")); L close] = Ok s.
Proof. intros Hui. apply ui_ok_scalars in Hui. total_parts. Qed.

Lemma path_card_total (ui path : json) :
  ui_ok ui = true -> path_ok path = true -> exists s, path_card ui path = Ok s.
Proof.
  intros Hui H. unfold path_ok in H.
  destruct (scalars_dict _ _ "icon" H) as [fields ->]; [in_keys|].
  unfold path_card. destruct (dict_get fields "recommended" JNull) as [r ->]. cbn [bind].
  destruct (py_truthy r).
  - destruct (label_tag_total ui "<span class=`path-card__badge`>" "</span>" Hui) as [t ->].
    cbn [bind fst snd]. total_parts.
  - cbn [bind fst snd]. total_parts.
Qed.

Lemma build_paths_html_total (data ui : json) :
  list_of path_ok "paths" data = true -> ui_ok ui = true ->
  exists s, build_paths_html data ui = Ok s.
Proof.
  intros H Hui. destruct (list_of_items _ _ _ H) as (items & Hitems & Hall).
  unfold build_paths_html. rewrite Hitems. cbn [bind py_iter].
  destruct (traverse_total (path_card ui) items) as [ys ->].
  { eapply Forall_impl; [exact Hall|]. intros x Hx. now apply path_card_total. }
  eexists. reflexivity.
Qed.

Lemma compare_stat_total (stat : json) :
  stat_ok stat = true -> exists s, compare_stat stat = Ok s.
Proof. unfold stat_ok, compare_stat. intros H. total_parts. Qed.

Lemma compare_card_total (ui card : json) :
  ui_ok ui = true -> card_ok card = true -> exists s, compare_card ui card = Ok s.
Proof.
  intros Hui H. unfold card_ok in H.
  apply andb_true_iff in H as [H Hstats]. apply andb_true_iff in H as [H Hcolor].
  destruct (scalars_dict _ _ "title" H) as [fields ->]; [in_keys|].
  destruct (list_of_items _ _ _ Hstats) as (stats & Hs & Hall).
  destruct (opt_scalar_get "color_class" (JObj fields) (JStr EmptyString) Hcolor eq_refl)
    as (color & Hc & Hch).
  unfold compare_card. destruct (dict_get fields "recommended" JNull) as [r ->]. cbn [bind].
  assert (Hbadge : exists b,
             (if py_truthy r
              then fstring [L "<span class=`winner-tag`>";
                            E (fmt (ui @ "recommended_label")); L "</span>"]
              else Ok EmptyString) = Ok b).
  { destruct (py_truthy r); [now apply label_tag_total | now exists EmptyString]. }
  destruct Hbadge as [b ->]. cbn [bind]. rewrite Hs. cbn [bind py_iter].
  destruct (traverse_total compare_stat stats) as [ys ->].
  { eapply Forall_impl; [exact Hall|]. intros x Hx. now apply compare_stat_total. }
  cbn [bind]. apply fstring_total.
  repeat (apply List.Forall_cons; [try total_part|]); [|apply List.Forall_nil].
  cbn [part_total]. unfold fmt. rewrite Hc. cbn [bind]. now apply hashable_str.
Qed.

Lemma build_compare_html_total (data ui : json) :
  dict_of compare_ok "dbz_vs_kai" data = true -> ui_ok ui = true ->
  exists s, build_compare_html data ui = Ok s.
Proof.
  intros H Hui. destruct (dict_of_item _ _ _ H) as (compare & Hc & Hok).
  unfold compare_ok in Hok. apply andb_true_iff in Hok as [Hs Hcards].
  destruct (list_of_items _ _ _ Hcards) as (cards & Hl & Hall).
  unfold ui_ok in Hui. pose proof Hui as Hui'.
  apply andb_true_iff in Hui as [Hui Hverdict]. apply andb_true_iff in Hui as [Hui _].
  destruct (opt_scalar_get "compare_verdict_label" ui (JStr "Our Verdict") Hverdict eq_refl)
    as (label & Hlabel & Hlh).
  unfold build_compare_html. rewrite Hc. cbn [bind]. rewrite Hl. cbn [bind py_iter].
  destruct (traverse_total (compare_card ui) cards) as [ys ->].
  { eapply Forall_impl; [exact Hall|]. intros x Hx. now apply compare_card_total. }
  cbn [bind fstring]. rewrite Hlabel. unfold fmt at 1. cbn [bind].
  destruct (hashable_str label Hlh) as [ls ->].
  destruct (scalars_fmt _ compare "verdict" Hs) as [vs ->]; [in_keys|].
  cbn [bind]. eexists. reflexivity.
Qed.

Lemma type_label_total (t ui : json) :
  ui_ok ui = true -> hashable t = true ->
  exists v, type_label t ui = Ok v /\ hashable v = true.
Proof.
  intros Hui Ht. unfold ui_ok in Hui.
  apply andb_true_iff in Hui as [Hui _]. apply andb_true_iff in Hui as [Hui Hfiller].
  destruct (scalars_item _ ui "canon" Hui) as (a & Ha & Hah); [in_keys|].
  destruct (scalars_item _ ui "mixed" Hui) as (b & Hb & Hbh); [in_keys|].
  destruct (scalars_item _ ui "film_canon" Hui) as (c & Hc & Hch); [in_keys|].
  destruct (scalars_item _ ui "non_canon" Hui) as (d & Hd & Hdh); [in_keys|].
  destruct (opt_scalar_get "filler" ui (JStr "Filler") Hfiller eq_refl) as (f & Hf & Hfh).
  unfold type_label. rewrite Ha, Hb, Hc, Hd, Hf. cbn [bind].
  destruct (mapping_get_hashable
              [("canon", a); ("mixed", b); ("film_canon", c); ("non_canon", d); ("filler", f)]
              t t Ht) as (v & Hv & Hin).
  exists v. split; [exact Hv|]. cbn [map snd In] in Hin.
  destruct Hin as [->|[<-|[<-|[<-|[<-|[<-|[]]]]]]]; assumption.
Qed.

Lemma verdict_label_total (t ui : json) :
  ui_ok ui = true -> hashable t = true ->
  exists v, verdict_label t ui = Ok v /\ hashable v = true.
Proof.
  intros Hui Ht. apply ui_ok_scalars in Hui.
  destruct (scalars_item _ ui "must_watch" Hui) as (a & Ha & Hah); [in_keys|].
  destruct (scalars_item _ ui "watchable" Hui) as (b & Hb & Hbh); [in_keys|].
  destruct (scalars_item _ ui "skip" Hui) as (c & Hc & Hch); [in_keys|].
  unfold verdict_label. rewrite Ha, Hb, Hc. cbn [bind].
  destruct (mapping_get_hashable [("must_watch", a); ("watchable", b); ("skip", c)]
              t t Ht) as (v & Hv & Hin).
  exists v. split; [exact Hv|]. cbn [map snd In] in Hin.
  destruct Hin as [->|[<-|[<-|[<-|[]]]]]; assumption.
Qed.

Lemma timeline_row_total (ui item : json) :
  ui_ok ui = true -> entry_ok item = true -> exists s, timeline_row ui item = Ok s.
Proof.
  intros Hui H. unfold entry_ok in H. apply andb_true_iff in H as [H Hurl].
  destruct (scalars_dict _ _ "num" H) as [fields ->]; [in_keys|].
  destruct (opt_scalar_get "watch_url" (JObj fields) (JStr "#") Hurl eq_refl)
    as (watch_url & Hw & Hwh).
  destruct (scalars_item _ _ "type" H) as (t & Ht & Hth); [in_keys|].
  destruct (scalars_item _ _ "verdict" H) as (v & Hv & Hvh); [in_keys|].
  destruct (type_label_total t ui Hui Hth) as (tl & Htl & Htlh).
  destruct (verdict_label_total v ui Hui Hvh) as (vl & Hvl & Hvlh).
  destruct (mapping_get_hashable
              [("canon", "badge--canon"); ("mixed", "badge--mixed");
               ("film_canon", "badge--film-canon"); ("non_canon", "badge--non-canon");
               ("filler", "badge--filler")] t "badge--canon" Hth) as (bc & Hbc & _).
  destruct (mapping_get_hashable
              [("must_watch", "verdict--must-watch"); ("watchable", "verdict--watchable");
               ("skip", "verdict--skip")] v "verdict--watchable" Hvh) as (vc & Hvc & _).
  unfold timeline_row. destruct (dict_get fields "recommended" JNull) as [r ->].
  cbn [bind].
  assert (Hrec : exists rec,
             (if py_truthy r
              then
                let! rec_tag :=
                  fstring [L " <span class=`tag-recommended`>";
                           E (fmt (ui @ "recommended_label"));
                           L "</span>"] in
                Ok (rec_tag, " class=`row--recommended`")
              else Ok (EmptyString, EmptyString)) = Ok rec).
  { destruct (py_truthy r); [|eexists; reflexivity].
    destruct (label_tag_total ui " <span class=`tag-recommended`>" "</span>" Hui) as [s ->].
    eexists. reflexivity. }
  destruct Hrec as [rec ->]. cbn [bind]. rewrite Hw. cbn [bind].
  apply fstring_total.
  repeat (apply List.Forall_cons; [try total_part|]); [ | | | | apply List.Forall_nil];
    cbn [part_total].
  - rewrite Ht. cbn [bind]. eexists. exact Hbc.
  - unfold fmt. rewrite Ht. cbn [bind]. rewrite Htl. cbn [bind]. now apply hashable_str.
  - rewrite Hv. cbn [bind]. eexists. exact Hvc.
  - unfold fmt. rewrite Hv. cbn [bind]. rewrite Hvl. cbn [bind]. now apply hashable_str.
Qed.

Lemma build_timeline_rows_total (data ui : json) :
  list_of entry_ok "timeline" data = true -> ui_ok ui = true ->
  exists s, build_timeline_rows data ui = Ok s.
Proof.
  intros H Hui. destruct (list_of_items _ _ _ H) as (items & Hitems & Hall).
  unfold build_timeline_rows, timeline_rows_list. rewrite Hitems. cbn [bind py_iter].
  destruct (traverse_total (timeline_row ui) items) as [ys ->].
  { eapply Forall_impl; [exact Hall|]. intros x Hx. now apply timeline_row_total. }
  eexists. reflexivity.
Qed.

Lemma streaming_card_total (i : nat) (s : json) :
  platform_ok s = true -> exists card, streaming_card i s = Ok card.
Proof.
  intros H. unfold platform_ok in H. apply andb_true_iff in H as [H Hav].
  destruct (list_of_items _ _ _ Hav) as (items & Hitems & Hall).
  unfold streaming_card. rewrite Hitems. cbn [bind py_iter].
  destruct (traverse_total
              (fun item => fstring [L "            <li>"; E (py_str item); L "</li>"]) items)
    as [lis ->].
  { eapply Forall_impl; [exact Hall|]. intros x Hx. cbv beta. total_parts. }
  cbn [bind]. total_parts.
Qed.

Lemma build_streaming_html_total (data ui : json) :
  list_of platform_ok "streaming" data = true ->
  exists s, build_streaming_html data ui = Ok s.
Proof.
  intros H. destruct (list_of_items _ _ _ H) as (items & Hitems & Hall).
  unfold build_streaming_html, streaming_cards_list. rewrite Hitems. cbn [bind py_iter].
  destruct (traverse_from_total streaming_card items 0) as [ys ->].
  { eapply Forall_impl; [exact Hall|]. intros x Hx j. now apply streaming_card_total. }
  eexists. reflexivity.
Qed.

Lemma build_schema_json_total (data : json) (slug lang : string) :
  scalars ["title"; "meta_title"; "meta_description"; "category_tag"; "intro";
           "quick_answer"] data = true ->
  list_of entry_ok "timeline" data = true ->
  exists s, build_schema_json data slug lang = Ok s.
Proof.
  intros Hd H. destruct (list_of_items _ _ _ H) as (items & Hitems & Hall).
  destruct (scalars_item _ data "meta_description" Hd) as (desc & Hdesc & _); [in_keys|].
  unfold build_schema_json, build_schema. cbv zeta.
  assert (Hname : exists name,
             (if String.eqb lang "en"
              then fstring [E (fmt (data @ "title")); L " Watch Order Guide"]
              else fstring [E (fmt (data @ "title")); L " Guide d'Ordre de Visionnage"])
             = Ok name).
  { destruct (String.eqb lang "en"); total_parts. }
  destruct Hname as [name ->]. cbn [bind]. rewrite Hdesc, Hitems. cbn [bind py_iter].
  destruct (traverse_total howto_step items) as [steps ->].
  { eapply Forall_impl; [exact Hall|]. intros x Hx. unfold entry_ok in Hx.
    apply andb_true_iff in Hx as [Hx _].
    destruct (scalars_dict _ _ "num" Hx) as [fields ->]; [in_keys|].
    destruct (scalars_item _ _ "title" Hx) as (t & Ht & _); [in_keys|].
    unfold howto_step. rewrite Ht. cbn [bind].
    destruct (dict_get fields "notes" (JStr EmptyString)) as [n ->]. eexists. reflexivity. }
  eexists. reflexivity.
Qed.

Lemma build_faq_schema_total (data : json) :
  list_of faq_ok "faq" data = true -> exists s, build_faq_schema data = Ok s.
Proof.
  intros H. destruct (list_of_items _ _ _ H) as (items & Hitems & Hall).
  unfold build_faq_schema, build_faq. rewrite Hitems. cbn [bind py_iter].
  destruct (traverse_total faq_entity items) as [ents ->].
  { eapply Forall_impl; [exact Hall|]. intros x Hx. unfold faq_ok in Hx.
    destruct (scalars_item _ _ "question" Hx) as (q & Hq & _); [in_keys|].
    destruct (scalars_item _ _ "answer" Hx) as (a & Ha & _); [in_keys|].
    unfold faq_entity. rewrite Hq, Ha. eexists. reflexivity. }
  eexists. reflexivity.
Qed.

Lemma generate_series_page_total (slug : string) (data : json) (lang : string) :
  guide_ok data = true -> exists html, generate_series_page slug data lang = Ok html.
Proof.
  intros H. unfold guide_ok in H.
  repeat match type of H with
         | _ && _ = true => let H' := fresh "G" in apply andb_true_iff in H as [H H']
         end.
  destruct (dict_of_item _ _ _ H) as (ui & Hu & Hui).
  pose proof (ui_ok_scalars ui Hui) as Hlabels.
  destruct (dict_of_item _ _ _ G6) as (hero & Hhero & Hhs).
  destruct (dict_of_item _ _ _ G3) as (compare & Hcompare & Hcs).
  unfold compare_ok in Hcs. apply andb_true_iff in Hcs as [Hcs _].
  destruct (dict_of_item _ _ _ G) as (manga & Hmanga & Hms).
  unfold generate_series_page.
  apply bind_total; [now exists ui|]. intros ui' E. rewrite Hu in E. injection E as <-.
  cbv zeta.
  apply bind_total; [now apply build_why_confusing_html_total | intros why _].
  apply bind_total; [now apply build_paths_html_total | intros paths _].
  apply bind_total; [now apply build_compare_html_total | intros comparison _].
  apply bind_total; [now apply build_timeline_rows_total | intros rows _].
  apply bind_total; [now apply build_faq_html_total | intros faqs _].
  apply bind_total; [now apply build_streaming_html_total | intros streaming _].
  apply bind_total; [now apply build_schema_json_total | intros howto _].
  apply bind_total; [now apply build_faq_schema_total | intros faq_schema _].
  total_parts.
Qed.

(** X7 (guides that render).  A guide that passes [guide_ok] (it has
    every key the page reads, with a text, a number, a boolean or [None]
    wherever the page formats a value, a list wherever it loops, and a
    dict wherever it looks a key up) gives a series page for every slug
    and every language: no renderer raises.  The optional keys
    ([recommended], [watch_url], [notes], [color_class], and the labels
    [filler] and [compare_verdict_label]) may be missing. *)
Theorem well_formed_guide_renders (slug : string) (data : json) (lang : string) :
  guide_ok data = true -> exists html, generate_series_page slug data lang = Ok html.
Proof. apply generate_series_page_total. Qed.

Lemma well_formed_guide_renders_witness :
  exists html, generate_series_page "naruto" sample_guide "fr" = Ok html.
Proof. apply (well_formed_guide_renders "naruto" sample_guide "fr"). reflexivity. Defined.

(** ** The homepage *)

Lemma fstring_hole_infix (ps : list part) (s h : string) :
  fstring ps = Ok s -> In (V h) ps -> infix_of h s.
Proof.
  revert s; induction ps as [|x ps IH]; intros s H Hin; [contradiction|].
  destruct Hin as [->|Hin].
  - apply fstring_V in H as (r & _ & ->). apply infix_of_app_l, infix_of_refl.
  - apply fstring_tail in H as (v & r & H & ->). apply infix_of_app_r. now apply IH.
Qed.

Lemma series_data_lang (s : series) (lang : string) :
  In lang ["en"; "fr"] ->
  series_data s lang = Ok (if String.eqb lang "en" then s_en s else s_fr s).
Proof. cbn [In]. intros [<-|[<-|[]]]; reflexivity. Qed.

Lemma series_data_other (s : series) (lang : string) :
  ~ In lang ["en"; "fr"] -> series_data s lang = Raise (KeyError lang).
Proof.
  intros H. unfold series_data.
  destruct (String.eqb_spec lang "en") as [->|_]; [destruct H; simpl; tauto|].
  destruct (String.eqb_spec lang "fr") as [->|_]; [destruct H; simpl; tauto|].
  reflexivity.
Qed.

Lemma home_card_total (lang lang_prefix cta_text : string) (s : series) :
  In lang ["en"; "fr"] ->
  home_guide_ok (if String.eqb lang "en" then s_en s else s_fr s) = true ->
  exists card, home_card lang lang_prefix cta_text s = Ok card.
Proof.
  intros Hlang H. unfold home_card. cbv zeta. rewrite (series_data_lang s lang Hlang).
  cbn [bind]. set (d := if String.eqb lang "en" then s_en s else s_fr s) in *.
  unfold home_guide_ok in H. apply andb_true_iff in H as [H Hemoji].
  destruct (opt_scalar_get "emoji" d (JStr "🎬") Hemoji eq_refl) as (emoji & -> & He).
  cbn [bind]. total_parts.
Qed.

Lemma home_card_link (lang cta_text : string) (s : series) (card : string) :
  home_card lang (if String.eqb lang "fr" then "/fr" else EmptyString) cta_text s = Ok card ->
  infix_of (card_link lang (s_slug s)) card.
Proof.
  intros H. unfold home_card in H. cbv zeta in H. binds_inv H. fstring_inv H.
  replace (card_link lang (s_slug s))
    with ("<a href=`"
          +:+ ((if String.eqb lang "fr" then "/fr" else EmptyString) +:+ "/" +:+ s_slug s +:+ "/")
          +:+ "` class=`series-card`>")
    by (unfold card_link; now rewrite !str_app_assoc).
  apply infix_of_field; reflexivity.
Qed.

Lemma traverse_in {A B : Type} (f : A -> result B) (l : list A) (ys : list B) (x : A) :
  traverse f l = Ok ys -> In x l -> exists y, In y ys /\ f x = Ok y.
Proof.
  intros H Hin. apply traverse_ok in H.
  induction H as [|x' y l ys Hxy F IH]; [contradiction|].
  destruct Hin as [->|Hin].
  - exists y. split; [now left | exact Hxy].
  - destruct (IH Hin) as (y' & Hy' & Hf). exists y'. split; [now right | exact Hf].
Qed.

Lemma infix_of_concat (x e : string) (l : list string) :
  In e l -> infix_of x e -> infix_of x (concat_str l).
Proof.
  intros Hin Hx. destruct (concat_str_infix e l Hin) as (a & b & ->).
  now apply infix_of_app_r, infix_of_app_l.
Qed.

Lemma generate_homepage_total (lang : string) (series_list : list series) :
  In lang ["en"; "fr"] ->
  Forall (fun s => home_guide_ok (if String.eqb lang "en" then s_en s else s_fr s) = true)
         series_list ->
  exists html,
    generate_homepage lang series_list = Ok html /\
    forall s, In s series_list -> infix_of (card_link lang (s_slug s)) html.
Proof.
  intros Hlang Hall. unfold generate_homepage. cbv zeta.
  destruct (traverse_total
              (home_card lang (if String.eqb lang "fr" then "/fr" else EmptyString)
                         (if String.eqb lang "en" then "View Guide" else "Voir le Guide"))
              series_list) as [cards Hcards].
  { eapply Forall_impl; [exact Hall|]. intros s Hs. now apply home_card_total. }
  rewrite Hcards. cbn [bind].
  match goal with |- exists html, fstring ?ps = Ok html /\ _ =>
    destruct (fstring_total ps) as [html Hhtml]
  end.
  { repeat (apply List.Forall_cons; [exact I|]). apply List.Forall_nil. }
  exists html. split; [exact Hhtml|]. intros s Hs.
  destruct (traverse_in _ _ _ s Hcards Hs) as (card & Hin & Hcard).
  apply (infix_of_trans _ (concat_str cards)).
  - apply (infix_of_concat _ card); [exact Hin|]. now apply home_card_link in Hcard.
  - eapply fstring_hole_infix; [exact Hhtml|]. cbn [In]. tauto.
Qed.

(** X8 (homepage).  In English and in French, the homepage is rendered
    for every list of series whose guide in that language has a [title]
    and a [category_tag] that format (the [emoji] is optional), and it
    holds, for each series of the list, a card that links to the page of
    the series in that language.  For any other language the lookup of
    the guide of the first series raises [KeyError]. *)
Theorem homepage_renders (lang : string) (series_list : list series) :
  (In lang ["en"; "fr"] ->
   Forall (fun s => home_guide_ok (if String.eqb lang "en" then s_en s else s_fr s) = true)
          series_list ->
   exists html,
     generate_homepage lang series_list = Ok html /\
     forall s, In s series_list -> infix_of (card_link lang (s_slug s)) html) /\
  (~ In lang ["en"; "fr"] -> series_list <> [] ->
   generate_homepage lang series_list = Raise (KeyError lang)).
Proof.
  split; [apply generate_homepage_total|].
  intros Hlang Hne. destruct series_list as [|s rest]; [congruence|].
  unfold generate_homepage. cbv zeta. cbn [traverse]. unfold home_card at 1. cbv zeta.
  rewrite (series_data_other s lang Hlang). reflexivity.
Qed.

Lemma homepage_renders_witness :
  (exists html,
     generate_homepage "fr" [sample_series "dragon-ball"; sample_series "naruto"] = Ok html /\
     infix_of "<a href=`/fr/naruto/` class=`series-card`>" html) /\
  generate_homepage "de" [sample_series "dragon-ball"] = Raise (KeyError "de").
Proof.
  split.
  - destruct (homepage_renders "fr" [sample_series "dragon-ball"; sample_series "naruto"])
      as [H _].
    destruct H as (html & Hhtml & Hlinks).
    + simpl. tauto.
    + repeat constructor.
    + exists html. split; [exact Hhtml|].
      apply (Hlinks (sample_series "naruto")). simpl. tauto.
  - destruct (homepage_renders "de" [sample_series "dragon-ball"]) as [_ H].
    apply H; [|discriminate]. simpl. intros [H'|[H'|[]]]; discriminate.
Defined.

(** ** Runs whose data is loaded *)



















(** ** Paths that do not get in each other's way *)







(** The slug [index.html] is not plain: its page needs [index.html] as
    a directory, and the homepage is written to [index.html]. *)
Lemma index_slug_not_plain :
  plain_slug "index.html" = false /\
  In "index.html" (output_paths ["index.html"]) /\
  In "index.html/index.html" (output_paths ["index.html"]) /\
  dir_of "index.html" "index.html/index.html" = true.
Proof. cbn [output_paths flat_map app In]. repeat split; auto 10. Qed.





Section LoadedRuns.

Variable BASE_DIR : string.
Variable json_load : string -> result json.

Lemma load_series_loaded (slug : string) (w : world) (s : series) :
  loaded json_load w slug s ->
  load_series BASE_DIR json_load slug w
  = (after [] ["
[1/4] Loading data: " +:+ slug] w, Done s).
Proof.
  intros (text & Hf & Hp). unfold parse_series in Hp. binds_inv Hp. injection Hp as <-.
  unfold load_series. rewrite pbind_print.
  set (w1 := after [] _ w).
  assert (Hj : load_json BASE_DIR json_load slug w1 = lift (json_load text) w1).
  { unfold load_json. cbn [after w1 w_files apply_writes]. now rewrite Hf. }
  unfold pbind at 1. rewrite Hj, Eq. unfold lift at 1.
  unfold pbind at 1, lift at 1. rewrite Eq0.
  unfold pbind at 1, lift at 1. rewrite Eq1.
  reflexivity.
Qed.

Lemma load_series_raises (slug : string) (w : world) (text : string) (e : exn) :
  w_files w !! data_file slug = Some text ->
  parse_series json_load slug text = Raise e ->
  load_series BASE_DIR json_load slug w
  = (after [] ["
[1/4] Loading data: " +:+ slug] w, Fail e).
Proof.
  intros Hf Hp. unfold load_series. rewrite pbind_print.
  set (w1 := after [] _ w).
  assert (Hj : load_json BASE_DIR json_load slug w1 = lift (json_load text) w1).
  { unfold load_json. cbn [after w1 w_files apply_writes]. now rewrite Hf. }
  unfold pbind at 1. rewrite Hj. unfold lift at 1. unfold parse_series in Hp.
  destruct (json_load text) as [raw|e1]; cbn [bind] in Hp; [|congruence].
  unfold pbind at 1, lift at 1.
  destruct (raw @ "en") as [en|e2]; cbn [bind] in Hp; [|congruence].
  unfold pbind at 1, lift at 1.
  destruct (raw @ "fr") as [fr|e3]; cbn [bind] in Hp; [discriminate|congruence].
Qed.



Lemma foreach_load_raises (before : list string) (series_before : list series)
    (slug : string) (rest : list string) (w : world) (text : string) (e : exn) :
  Forall2 (loaded json_load w) before series_before ->
  w_files w !! data_file slug = Some text ->
  parse_series json_load slug text = Raise e ->
  exists lines,
    foreach (load_series BASE_DIR json_load) (before ++ slug :: rest) w
    = (after [] lines w, Fail e).
Proof.
  intros H Hf Hp. revert series_before w H Hf.
  induction before as [|slug0 before IH]; intros series_before w H Hf.
  - cbn [app foreach].
    rewrite (pbind_fail _ _ _ _ _ (load_series_raises slug w text e Hf Hp)).
    eexists. reflexivity.
  - apply Forall2_cons_inv_l in H as (s & l & Hs & Hl & ->). cbn [app foreach].
    rewrite (pbind_done _ _ _ _ _ (load_series_loaded slug0 w s Hs)).
    destruct (IH l (after [] ["
[1/4] Loading data: " +:+ slug0] w)) as (lines & Hrest).
    { eapply Forall2_impl; [exact Hl|]. intros x y Hxy. exact Hxy. }
    { exact Hf. }
    rewrite (pbind_fail _ _ _ _ _ Hrest), after_after. eexists. reflexivity.
Qed.





(** X11 (a data file that does not load).  When the data file of a slug
    is there but [json.load] raises on it, or the document it holds has
    no [en] or no [fr] key (or is no dict), and the data files of the
    slugs before it load, the run ends with that exception, uncaught, and
    nothing is written: no page of the series loaded before it is
    generated. *)
Theorem unreadable_data_file (before : list string) (series_before : list series)
    (slug : string) (rest : list string) (w : world) (text : string) (e : exn) :
  Forall2 (loaded json_load w) before series_before ->
  w_files w !! data_file slug = Some text ->
  parse_series json_load slug text = Raise e ->
  exists w',
    build BASE_DIR json_load (before ++ slug :: rest) w = (w', Fail e) /\
    w_files w' = w_files w.
Proof.
  intros Hb Hf Hp. rewrite build_loading. set (w0 := after [] _ w).
  destruct (foreach_load_raises before series_before slug rest w0 text e) as (lines & Hload).
  { eapply Forall2_impl; [exact Hb|]. intros x y Hxy. exact Hxy. }
  { exact Hf. }
  { exact Hp. }
  rewrite (pbind_fail _ _ _ _ _ Hload). eexists. split; reflexivity.
Qed.

End LoadedRuns.

Lemma sample_document_loaded (w : world) (slug : string) :
  w_files w !! data_file slug = Some sample_document ->
  loaded read_document w slug (sample_series slug).
Proof.
  intros H. exists sample_document. split; [exact H|].
  unfold parse_series, read_document, sample_document. now rewrite json_loads_dumps by reflexivity.
Qed.



Lemma unreadable_data_file_witness :
  exists w',
    main "/srv/site" read_document list_world = (w', Fail TypeError) /\
    w_files w' = w_files list_world.
Proof.
  apply (unreadable_data_file "/srv/site" read_document ["dragon-ball"]
           [sample_series "dragon-ball"] "naruto" [] list_world "[]" TypeError).
  - constructor; [|constructor]. apply sample_document_loaded. vm_compute. reflexivity.
  - vm_compute. reflexivity.
  - vm_compute. reflexivity.
Defined.

(** ** Links and structured data of a page *)

(** X12 (navigation).  The logo of a page links to the homepage of the
    language of the page, and its language switch to the same page in
    the other language: each of the two links is the path, from the site
    root, of the directory of a file the orchestrator writes.  This holds
    for the series pages and for the homepages, in English and in
    French. *)
Theorem navigation_links (lang : string) :
  In lang ["en"; "fr"] ->
  (forall slug data html,
     generate_series_page slug data lang = Ok html ->
     exists home switch,
       infix_of (nav_logo_link home) html /\ infix_of (nav_lang_link switch) html /\
       home +:+ "index.html" = "/" +:+ homepage_file lang /\
       switch +:+ "index.html" = "/" +:+ series_page_file slug (other_lang lang)) /\
  (forall series_list html,
     generate_homepage lang series_list = Ok html ->
     exists home switch,
       infix_of (nav_logo_link home) html /\ infix_of (nav_lang_link switch) html /\
       home +:+ "index.html" = "/" +:+ homepage_file lang /\
       switch +:+ "index.html" = "/" +:+ homepage_file (other_lang lang)).
Proof.
  intros Hlang. split.
  - intros slug data html H. unfold generate_series_page in H. binds_inv H. cbv zeta in H.
    eexists _, _. split; [|split].
    + refine (fstring_field 20 _ _ _ _ _ "<a href=`" "` class=`nav__logo`>" H _ _ _);
        [reflexivity | vm_compute; reflexivity | vm_compute; reflexivity].
    + refine (fstring_field 26 _ _ _ _ _ "<a href=`" "` class=`nav__lang`>" H _ _ _);
        [reflexivity | vm_compute; reflexivity | vm_compute; reflexivity].
    + cbn [In] in Hlang. destruct Hlang as [<-|[<-|[]]]; split;
        unfold other_lang, series_page_file; cbn [String.eqb Ascii.eqb Bool.eqb];
        rewrite ?str_app_assoc; reflexivity.
  - intros series_list html H. unfold generate_homepage in H. cbv zeta in H. binds_inv H.
    eexists _, _. split; [|split].
    + refine (fstring_field 18 _ _ _ _ _ "<a href=`" "` class=`nav__logo`>" H _ _ _);
        [reflexivity | vm_compute; reflexivity | vm_compute; reflexivity].
    + refine (fstring_field 24 _ _ _ _ _ "<a href=`" "` class=`nav__lang`>" H _ _ _);
        [reflexivity | vm_compute; reflexivity | vm_compute; reflexivity].
    + cbn [In] in Hlang. destruct Hlang as [<-|[<-|[]]]; split; reflexivity.
Qed.

Lemma navigation_links_witness :
  exists html home switch,
    generate_series_page "naruto" sample_guide "en" = Ok html /\
    infix_of (nav_logo_link home) html /\ infix_of (nav_lang_link switch) html /\
    home +:+ "index.html" = "/index.html" /\
    switch +:+ "index.html" = "/fr/naruto/index.html".
Proof.
  destruct (navigation_links "en") as [Hs _]; [simpl; tauto|].
  destruct (generate_series_page "naruto" sample_guide "en") as [html|e] eqn:H;
    [|vm_compute in H; discriminate].
  destruct (Hs "naruto" sample_guide html H) as (home & switch & H1 & H2 & H3 & H4).
  exists html, home, switch. auto.
Defined.

(** X13 (structured data of a page).  A series page holds, each in a
    [script] element of type [application/ld+json], the text [json.dumps]
    gives for the HowTo schema of [build_schema_json] and for the FAQ
    schema of [build_faq_schema]; the [url] of the HowTo schema is the URL
    of the canonical link of the same page, its [description] is the
    [meta_description] of the guide, and its [name] is the title of the
    guide followed by [ Watch Order Guide] in English and by
    [ Guide d'Ordre de Visionnage] in any other language. *)
Theorem page_structured_data (slug : string) (data : json) (lang html : string) :
  generate_series_page slug data lang = Ok html ->
  exists schema faq title,
    build_schema data slug lang = Ok schema /\ build_faq data = Ok faq /\
    infix_of (ld_script (json_dumps schema)) html /\
    infix_of (ld_script (json_dumps faq)) html /\
    infix_of (canonical_tag (series_url slug lang)) html /\
    schema @ "url" = Ok (JStr (series_url slug lang)) /\
    schema @ "description" = data @ "meta_description" /\
    fmt (data @ "title") = Ok title /\
    schema @ "name"
    = Ok (JStr (title +:+ (if String.eqb lang "en" then " Watch Order Guide"
                           else " Guide d'Ordre de Visionnage"))).
Proof.
  intros H. destruct (series_page_links slug data lang html H) as [Hcanon _].
  unfold generate_series_page in H. binds_inv H. cbv zeta in H.
  unfold build_schema_json in Eq6. bind_inv Eq6. injection Eq6 as <-.
  unfold build_faq_schema in Eq7. bind_inv Eq7. injection Eq7 as <-.
  rename v8 into schema, v6 into faq.
  assert (Hfields : exists title,
             fmt (data @ "title") = Ok title /\
             schema @ "url" = Ok (JStr (series_url slug lang)) /\
             schema @ "description" = data @ "meta_description" /\
             schema @ "name"
             = Ok (JStr (title +:+ (if String.eqb lang "en" then " Watch Order Guide"
                                    else " Guide d'Ordre de Visionnage")))).
  { pose proof Eq8 as Hs. unfold build_schema in Hs. cbv zeta in Hs.
    binds_inv Hs. injection Hs as <-.
    match goal with
    | E : (if String.eqb lang "en" then _ else _) = Ok ?n |- _ =>
        rename E into Hn; rename n into name
    end.
    match goal with
    | E : data @ "meta_description" = Ok _ |- _ => rename E into Hd
    end.
    assert (Hname : exists title,
               fmt (data @ "title") = Ok title /\
               name = title +:+ (if String.eqb lang "en" then " Watch Order Guide"
                                 else " Guide d'Ordre de Visionnage")).
    { destruct (String.eqb lang "en"); fstring_inv Hn;
        match goal with E : fmt (data @ "title") = Ok ?t |- _ => exists t end;
        (split; [assumption|]); unfold flatten; cbn [map seg_text concat_str];
        now rewrite str_app_nil_r. }
    destruct Hname as (title & Ht & ->). exists title.
    split; [exact Ht|]. split; [reflexivity|]. split; [now rewrite Hd|]. reflexivity. }
  destruct Hfields as (title & Ht & Hurl & Hdesc & Hname).
  exists schema, faq, title.
  split; [exact Eq8|]. split; [exact Eq6|]. split; [|split].
  - refine (fstring_field 16 _ _ _ _ _ "<script type=`application/ld+json`>
" "
  </script>" H _ _ _); [reflexivity | vm_compute; reflexivity | vm_compute; reflexivity].
  - refine (fstring_field 18 _ _ _ _ _ "<script type=`application/ld+json`>
" "
  </script>" H _ _ _); [reflexivity | vm_compute; reflexivity | vm_compute; reflexivity].
  - auto.
Qed.

Lemma page_structured_data_witness :
  exists html schema,
    generate_series_page "naruto" sample_guide "fr" = Ok html /\
    infix_of (ld_script (json_dumps schema)) html /\
    schema @ "url" = Ok (JStr "https://animewatchorder.com/fr/naruto/") /\
    schema @ "name" = Ok (JStr "Dragon Ball Guide d'Ordre de Visionnage").
Proof.
  destruct (generate_series_page "naruto" sample_guide "fr") as [html|e] eqn:H;
    [|vm_compute in H; discriminate].
  destruct (page_structured_data "naruto" sample_guide "fr" html H)
    as (schema & faq & title & Hs & _ & H1 & _ & _ & Hurl & _ & Ht & Hname).
  exists html, schema. split; [reflexivity|]. split; [exact H1|]. split; [exact Hurl|].
  vm_compute in Ht. injection Ht as <-. exact Hname.
Defined.

(** ** The recommended entries of the timeline *)

Lemma flag_marker_marker (p : string) : In p flag_markers -> marker p.
Proof.
  unfold flag_markers. cbn [In]. intros H.
  repeat (destruct H as [<-|H]; [reflexivity|]). contradiction.
Qed.

Ltac each_flag Hp :=
  let H := fresh "Hp'" in
  pose proof Hp as H; cbv [flag_markers In] in H;
  repeat (destruct H as [<-|H]; [vm_compute; reflexivity|]); contradiction.

Ltac count_flag Hp Hm H :=
  apply (fstring_counted _ _ _ (marker_nonempty _ Hm)) in H;
  [ apply (counted_eq _ _ _ _ H); each_flag Hp | each_flag Hp | free_parts_at Hm ].

(** X14 (recommended rows).  The row of a timeline entry opens with a
    [tr] of class [row--recommended] and carries the [tag-recommended]
    span after its title exactly when [item.get("recommended")] is true
    in the sense of Python: a missing key, [None], [False], [0], an empty
    text, list or dict give a plain row, any other value a recommended
    one.  Each of the two tags is counted once in a recommended row and
    not at all in a plain one, when no string of the entry or of the
    labels contains it. *)
Theorem recommended_flags (ui item : json) (row p : string) :
  In p flag_markers -> json_free p ui = true -> json_free p item = true ->
  timeline_row ui item = Ok row ->
  exists recommended,
    py_get item "recommended" JNull = Ok recommended /\
    occ p row = if py_truthy recommended then 1 else 0.
Proof.
  intros Hp Hui Hitem H. pose proof (flag_marker_marker p Hp) as Hm.
  unfold timeline_row in H.
  bind_inv H. rename v into recommended. bind_inv H. rename v into rec.
  cbv zeta in H. bind_inv H. rename v into watch_url.
  exists recommended. split; [exact Eq|].
  apply counted_occ; [now apply marker_nonempty|].
  destruct (py_truthy recommended).
  - bind_inv Eq0. injection Eq0 as <-. cbn [fst snd] in H.
    rewrite (fstring_nest_at 6 _ _ _ Eq2) in H by reflexivity. cbn [take drop app] in H.
    rewrite (fstring_nest_at 1 [L " class=`row--recommended`"] _ _ eq_refl) in H
      by reflexivity.
    cbn [take drop app] in H.
    rewrite (fstring_merge_at 0 _ "        <tr" " class=`row--recommended`") in H
      by reflexivity.
    cbn [take drop app] in H.
    match type of H with
    | fstring (L ?a :: L ?b :: _) = _ =>
        rewrite (fstring_merge_at 0 _ a b) in H by reflexivity
    end.
    cbn [take drop app] in H.
    count_flag Hp Hm H.
  - injection Eq0 as <-. cbn [fst snd] in H.
    rewrite (fstring_nest_at 6 [] _ EmptyString eq_refl) in H by reflexivity.
    cbn [take drop app] in H.
    rewrite (fstring_nest_at 1 [] _ EmptyString eq_refl) in H by reflexivity.
    cbn [take drop app] in H.
    match type of H with
    | fstring (L ?a :: L ?b :: _) = _ =>
        rewrite (fstring_merge_at 0 _ a b) in H by reflexivity
    end.
    cbn [take drop app] in H.
    count_flag Hp Hm H.
Qed.

Lemma recommended_flags_witness :
  (exists row, timeline_row sample_ui sample_entry = Ok row /\
               occ "<tr class=`row--recommended" row = 1) /\
  (exists row, timeline_row sample_ui (set_field "recommended" (JNum 0) sample_entry) = Ok row /\
               occ "<tr class=`row--recommended" row = 0).
Proof.
  split.
  - destruct (timeline_row sample_ui sample_entry) as [row|e] eqn:H;
      [|vm_compute in H; discriminate].
    exists row. split; [reflexivity|].
    destruct (recommended_flags sample_ui sample_entry row "<tr class=`row--recommended")
      as (r & Hr & Hocc); [simpl; tauto | reflexivity | reflexivity | exact H |].
    vm_compute in Hr. injection Hr as <-. exact Hocc.
  - destruct (timeline_row sample_ui (set_field "recommended" (JNum 0) sample_entry))
      as [row|e] eqn:H; [|vm_compute in H; discriminate].
    exists row. split; [reflexivity|].
    destruct (recommended_flags sample_ui (set_field "recommended" (JNum 0) sample_entry) row
                "<tr class=`row--recommended")
      as (r & Hr & Hocc); [simpl; tauto | reflexivity | reflexivity | exact H |].
    vm_compute in Hr. injection Hr as <-. exact Hocc.
Defined.

(** ** Known keys *)

(** X15 (known keys).  With the labels in [ui], the label of a known
    verdict or type is the entry of [ui] under that very key, and the
    label of [filler] is [ui.get("filler", "Filler")]; the classes
    [badge_class] and [verdict_class] give to two different known keys
    are different. *)
Theorem formatters_known_keys (ui : json) :
  has_keys label_keys ui = true ->
  (forall k, In k verdict_keys -> verdict_label (JStr k) ui = ui @ k) /\
  (forall k, In k ["canon"; "mixed"; "film_canon"; "non_canon"] ->
             type_label (JStr k) ui = ui @ k) /\
  type_label (JStr "filler") ui = py_get ui "filler" (JStr "Filler") /\
  (forall k1 k2, In k1 type_keys -> In k2 type_keys ->
                 badge_class (JStr k1) = badge_class (JStr k2) -> k1 = k2) /\
  (forall k1 k2, In k1 verdict_keys -> In k2 verdict_keys ->
                 verdict_class (JStr k1) = verdict_class (JStr k2) -> k1 = k2).
Proof.
  intros Hui.
  assert (Hget : forall k, In k label_keys -> exists v, ui @ k = Ok v)
    by (intros k Hk; eapply has_keys_getitem; eauto).
  destruct (Hget "must_watch") as [v1 E1]; [simpl; tauto|].
  destruct (Hget "watchable") as [v2 E2]; [simpl; tauto|].
  destruct (Hget "skip") as [v3 E3]; [simpl; tauto|].
  destruct (Hget "canon") as [v4 E4]; [simpl; tauto|].
  destruct (Hget "mixed") as [v5 E5]; [simpl; tauto|].
  destruct (Hget "film_canon") as [v6 E6]; [simpl; tauto|].
  destruct (Hget "non_canon") as [v7 E7]; [simpl; tauto|].
  assert (Hf : exists v8, py_get ui "filler" (JStr "Filler") = Ok v8).
  { destruct ui; try discriminate. simpl. destruct (dict_lookup "filler" fields); eauto. }
  destruct Hf as [v8 E8].
  split; [|split; [|split; [|split]]].
  - intros k Hk. unfold verdict_label. rewrite E1, E2, E3. cbn [bind].
    unfold verdict_keys in Hk. cbn [In] in Hk.
    destruct Hk as [<-|[<-|[<-|[]]]]; symmetry; assumption.
  - intros k Hk. unfold type_label. rewrite E4, E5, E6, E7, E8. cbn [bind].
    cbn [In] in Hk. destruct Hk as [<-|[<-|[<-|[<-|[]]]]]; symmetry; assumption.
  - unfold type_label. rewrite E4, E5, E6, E7, E8. reflexivity.
  - intros k1 k2 H1 H2. unfold type_keys in H1, H2. cbn [In] in H1, H2.
    repeat (destruct H1 as [<-|H1]; [|]); try contradiction;
      repeat (destruct H2 as [<-|H2]; [|]); try contradiction;
      first [reflexivity | discriminate].
  - intros k1 k2 H1 H2. unfold verdict_keys in H1, H2. cbn [In] in H1, H2.
    repeat (destruct H1 as [<-|H1]; [|]); try contradiction;
      repeat (destruct H2 as [<-|H2]; [|]); try contradiction;
      first [reflexivity | discriminate].
Qed.

Lemma formatters_known_keys_witness :
  verdict_label (JStr "skip") sample_ui = Ok (JStr "Skip") /\
  type_label (JStr "filler") sample_ui = Ok (JStr "Filler").
Proof.
  destruct (formatters_known_keys sample_ui eq_refl) as (Hv & _ & Hf & _).
  split; [apply (Hv "skip"); simpl; tauto | exact Hf].
Defined.

(** ** One block per entry *)

(** Counts a given marker in the text built by [H : fstring [...] = Ok s]. *)
Ltac count_at Hm H :=
  apply (fstring_counted _ _ _ (marker_nonempty _ Hm)) in H;
  [ apply (counted_eq _ _ _ _ H); vm_compute; reflexivity
  | vm_compute; reflexivity
  | free_parts_at Hm ].

Lemma counted_sealed (p s : string) : counted p 0 s -> sealed p s.
Proof. intros H t. exact (H t). Qed.

Lemma counted_sealed_occ (p s : string) : marker p -> counted p 0 s -> occ p s = 0.
Proof. intros Hm H. apply counted_occ; [now apply marker_nonempty | exact H]. Qed.

Lemma blocks_counted (p : string) (f : json -> result string) (v : json)
    (items : list json) (blocks : list string) :
  marker p -> json_free p v = true -> py_iter v = Ok items ->
  (forall x y, json_free p x = true -> f x = Ok y -> counted p 1 y) ->
  traverse f items = Ok blocks ->
  forall t, occ p (join "
" blocks +:+ t) = length items + occ p t.
Proof.
  intros Hm Hv Hiter Hf H t.
  rewrite <- (traverse_length _ _ _ H).
  rewrite (occ_join p "
" 1 blocks t); [lia | |].
  - intros u. now apply occ_app_no_lt.
  - eapply (traverse_Forall (fun x => json_free p x = true)); [exact Hf | | exact H].
    eapply json_free_iter; [now apply marker_nonempty | exact Hv | exact Hiter].
Qed.

Lemma path_card_counted (ui path : json) (s : string) :
  json_free path_marker ui = true -> json_free path_marker path = true ->
  path_card ui path = Ok s -> counted path_marker 1 s.
Proof.
  intros Hui Hpath H. assert (Hm : marker path_marker) by reflexivity.
  unfold path_card in H.
  bind_inv H. rename v into recommended. bind_inv H. rename v into rec.
  cbv zeta in H.
  destruct (py_truthy recommended).
  - bind_inv Eq0. injection Eq0 as <-. cbn [fst snd] in H.
    rewrite (fstring_nest_at 3 _ _ _ Eq1) in H by reflexivity. cbn [take drop app] in H.
    rewrite (fstring_nest_at 1 [L " path-card--recommended"] _ _ eq_refl) in H
      by reflexivity.
    cbn [take drop app] in H.
    count_at Hm H.
  - injection Eq0 as <-. cbn [fst snd] in H.
    rewrite (fstring_nest_at 3 [] _ EmptyString eq_refl) in H by reflexivity.
    cbn [take drop app] in H.
    rewrite (fstring_nest_at 1 [] _ EmptyString eq_refl) in H by reflexivity.
    cbn [take drop app] in H.
    count_at Hm H.
Qed.

Lemma faq_item_counted (faq : json) (s : string) :
  json_free faq_marker faq = true -> faq_item faq = Ok s -> counted faq_marker 1 s.
Proof.
  intros Hf H. assert (Hm : marker faq_marker) by reflexivity.
  unfold faq_item in H. count_at Hm H.
Qed.

Lemma compare_card_counted (ui card : json) (s : string) :
  json_free compare_marker ui = true -> json_free compare_marker card = true ->
  compare_card ui card = Ok s -> counted compare_marker 1 s.
Proof.
  intros Hui Hcard H. assert (Hm : marker compare_marker) by reflexivity.
  unfold compare_card in H.
  bind_inv H. rename v into recommended. bind_inv H. rename v into rec_badge.
  bind_inv H. rename v into stats. bind_inv H. rename v into stat_items.
  bind_inv H. rename v into stat_htmls. cbv zeta in H.
  assert (Hstats : occ compare_marker (concat_str stat_htmls) = 0).
  { apply sealed_occ; [discriminate|]. apply sealed_concat.
    eapply (sealed_traverse compare_marker (fun x => json_free compare_marker x = true));
      [ | | exact Eq3].
    - intros x y Hx Hy. cbv beta in Hx. unfold compare_stat in Hy.
      apply counted_sealed. count_at Hm Hy.
    - eapply json_free_iter; [discriminate | | exact Eq2]. json_free_at Hm. }
  assert (Hbadge : occ compare_marker rec_badge = 0).
  { destruct (py_truthy recommended).
    - apply counted_sealed_occ; [exact Hm|]. count_at Hm Eq0.
    - now injection Eq0 as <-. }
  count_at Hm H.
Qed.

Lemma streaming_card_counted (i : nat) (card : json) (s : string) :
  json_free streaming_marker card = true ->
  streaming_card i card = Ok s -> counted streaming_marker 1 s.
Proof.
  intros Hcard H. assert (Hm : marker streaming_marker) by reflexivity.
  unfold streaming_card in H.
  bind_inv H. rename v into available. bind_inv H. rename v into avail_items.
  bind_inv H. rename v into lis. cbv zeta in H.
  assert (Hlis : occ streaming_marker (join "
" lis) = 0).
  { apply sealed_occ; [discriminate|]. apply sealed_join.
    { apply sealed_no_lt; [exact Hm | reflexivity]. }
    eapply (sealed_traverse streaming_marker (fun x => json_free streaming_marker x = true));
      [ | | exact Eq1].
    - intros x y Hx Hy. cbv beta in Hx, Hy. apply counted_sealed. count_at Hm Hy.
    - eapply json_free_iter; [discriminate | | exact Eq0]. json_free_at Hm. }
  destruct (Nat.eqb i 0).
  - rewrite (fstring_nest_at 9 [L "streaming-card__cta--primary"] _ _ eq_refl) in H
      by reflexivity.
    cbn [take drop app] in H. count_at Hm H.
  - rewrite (fstring_nest_at 9 [] _ EmptyString eq_refl) in H by reflexivity.
    cbn [take drop app] in H. count_at Hm H.
Qed.

Lemma build_compare_html_count (data ui : json) (cards : list json) (html : string) :
  json_free compare_marker data = true -> json_free compare_marker ui = true ->
  (let! compare := data @ "dbz_vs_kai" in
   let! card_list := compare @ "cards" in py_iter card_list) = Ok cards ->
  build_compare_html data ui = Ok html -> occ compare_marker html = length cards.
Proof.
  intros Hd Hui Hcards H. assert (Hm : marker compare_marker) by reflexivity.
  unfold build_compare_html in H.
  bind_inv H. rename v into compare. bind_inv H. rename v into card_list.
  bind_inv H. rename v into card_items. bind_inv H. rename v into blocks.
  bind_inv H. rename v into grid. bind_inv H. rename v into verdict.
  injection H as <-.
  rewrite Eq in Hcards. cbn [bind] in Hcards. rewrite Eq0 in Hcards. cbn [bind] in Hcards.
  rewrite Eq1 in Hcards. injection Hcards as <-.
  assert (Hverdict : counted compare_marker 0 verdict) by count_at Hm Eq4.
  fstring_inv Eq3. unfold flatten. cbn [map seg_text concat_str].
  rewrite !str_app_assoc.
  rewrite occ_app_lit; [|discriminate | vm_compute; reflexivity].
  rewrite (blocks_counted compare_marker (compare_card ui) card_list card_items blocks Hm);
    [ | json_free_at Hm | exact Eq1 | | exact Eq2].
  - rewrite occ_app_lit; [|discriminate | vm_compute; reflexivity].
    rewrite str_app_nil_l, (occ_app_no_lt compare_marker "
" verdict Hm eq_refl).
    rewrite (counted_sealed_occ _ _ Hm Hverdict). vm_compute (occ _ "      <div class=`compare-grid`>
"). vm_compute (occ _ "
      </div>"). lia.
  - intros x y Hx Hy. exact (compare_card_counted ui x y Hui Hx Hy).
Qed.

Lemma build_streaming_html_count (data ui : json) (items : list json) (html : string) :
  json_free streaming_marker data = true ->
  (let! streaming := data @ "streaming" in py_iter streaming) = Ok items ->
  build_streaming_html data ui = Ok html -> occ streaming_marker html = length items.
Proof.
  intros Hd Hitems H. assert (Hm : marker streaming_marker) by reflexivity.
  unfold build_streaming_html, streaming_cards_list in H.
  binds_inv H. injection H as <-. binds_inv Eq. bind_inv Hitems.
  rewrite Eq0 in Eq2. injection Eq2 as <-. rewrite Eq1 in Hitems. injection Hitems as <-.
  apply traverse_from_ok in Eq as [Hlen Hk]. rewrite <- Hlen.
  apply counted_join; [exact Hm|].
  assert (Hall : Forall (fun x => json_free streaming_marker x = true) v1).
  { eapply json_free_iter; [discriminate | | exact Eq1]. json_free_at Hm. }
  apply Forall_lookup_2. intros k y Hy.
  destruct (Hk k y Hy) as (x & Hx & Hxy).
  eapply streaming_card_counted; [|exact Hxy].
  exact (Forall_lookup_1 _ _ _ _ Hall Hx).
Qed.

(** X16 (one block per entry).  Each section renderer gives one block
    per entry of its list, in the sense that a tag every block has once
    is counted as many times as the list has entries: the icon of a path
    card in [build_paths_html], the [div] of an item in [build_faq_html],
    the title of a card in [build_compare_html] and the icon of a card in
    [build_streaming_html].  The count holds when no string of the guide
    or of the labels contains the tag. *)
Theorem sections_one_block_per_entry (data ui : json) :
  (forall items html,
     json_free path_marker data = true -> json_free path_marker ui = true ->
     (let! paths := data @ "paths" in py_iter paths) = Ok items ->
     build_paths_html data ui = Ok html -> occ path_marker html = length items) /\
  (forall items html,
     json_free faq_marker data = true ->
     (let! faqs := data @ "faq" in py_iter faqs) = Ok items ->
     build_faq_html data = Ok html -> occ faq_marker html = length items) /\
  (forall cards html,
     json_free compare_marker data = true -> json_free compare_marker ui = true ->
     (let! compare := data @ "dbz_vs_kai" in
      let! card_list := compare @ "cards" in py_iter card_list) = Ok cards ->
     build_compare_html data ui = Ok html -> occ compare_marker html = length cards) /\
  (forall items html,
     json_free streaming_marker data = true ->
     (let! streaming := data @ "streaming" in py_iter streaming) = Ok items ->
     build_streaming_html data ui = Ok html -> occ streaming_marker html = length items).
Proof.
  split; [|split; [|split]].
  - intros items html Hd Hui Hitems H. assert (Hm : marker path_marker) by reflexivity.
    unfold build_paths_html in H. binds_inv H. injection H as <-. bind_inv Hitems.
    rewrite Eq in Eq2. injection Eq2 as <-. rewrite Eq0 in Hitems. injection Hitems as <-.
    pose proof (blocks_counted path_marker (path_card ui) v v0 v1 Hm) as Hc.
    specialize (Hc ltac:(json_free_at Hm) Eq0
                   (fun x y Hx Hy => path_card_counted ui x y Hui Hx Hy) Eq1 EmptyString).
    rewrite str_app_nil_r in Hc. rewrite Hc. rewrite occ_nil by discriminate. lia.
  - intros items html Hd Hitems H. assert (Hm : marker faq_marker) by reflexivity.
    unfold build_faq_html in H. binds_inv H. injection H as <-. bind_inv Hitems.
    rewrite Eq in Eq2. injection Eq2 as <-. rewrite Eq0 in Hitems. injection Hitems as <-.
    pose proof (blocks_counted faq_marker faq_item v v0 v1 Hm) as Hc.
    specialize (Hc ltac:(json_free_at Hm) Eq0
                   (fun x y Hx Hy => faq_item_counted x y Hx Hy) Eq1 EmptyString).
    rewrite str_app_nil_r in Hc. rewrite Hc. rewrite occ_nil by discriminate. lia.
  - apply build_compare_html_count.
  - intros items html. apply build_streaming_html_count.
Qed.

Lemma sections_one_block_per_entry_witness :
  (exists html, build_paths_html sample_guide sample_ui = Ok html /\
                occ path_marker html = 1) /\
  (exists html, build_streaming_html sample_guide sample_ui = Ok html /\
                occ streaming_marker html = 2).
Proof.
  destruct (sections_one_block_per_entry sample_guide sample_ui) as (Hp & _ & _ & Hs).
  split.
  - destruct (build_paths_html sample_guide sample_ui) as [html|e] eqn:H;
      [|vm_compute in H; discriminate].
    exists html. split; [reflexivity|].
    eapply (Hp [_] html); reflexivity.
  - destruct (build_streaming_html sample_guide sample_ui) as [html|e] eqn:H;
      [|vm_compute in H; discriminate].
    exists html. split; [reflexivity|].
    eapply (Hs [_; _] html); reflexivity.
Defined.
